(** * Outage-monitor bot: a shallow embedding and its checked properties

    The bot polls the utility's outage page, turns the payload (an HTML
    table, an HTML "no outages" banner, or JSON) into a list of
    [ShutdownEvent]s, renders them as one message, fingerprints the message
    with SHA-256, and broadcasts it to the subscribers when the fingerprint
    differs from the stored one.

    Part I embeds the TypeScript sources as Rocq functions; Part II states
    and proves the properties.  Effects (the state file, the HTTP endpoint,
    the Telegram API, the clock) are threaded explicitly through a [World]
    value by a small state-and-exception monad. *)

From Stdlib Require Import ZArith NArith List Bool Ascii String Lia.
Import ListNotations.

#[local] Set Implicit Arguments.
#[local] Set Warnings "-register-all".
#[local] Open Scope Z_scope.

(* ===================================================================== *)
(** * Part I.  The embedding                                              *)
(* ===================================================================== *)

(** ** JavaScript strings

    A JavaScript string is a sequence of UTF-16 code units.  Literals of the
    sources are written as Rocq strings (the bytes of their UTF-8 encoding)
    and transcoded by [js]. *)

Definition jsstring := list N.

Module Utf8.

(** [cont b]: the six payload bits of a continuation byte. *)
Definition cont (b : N) : N := N.land b 63.

(** The UTF-16 code units of one code point. *)
Definition units (cp : N) : list N :=
  if (cp <? 65536)%N then [cp]
  else
    let v := (cp - 65536)%N in
    [(55296 + N.shiftr v 10)%N; (56320 + N.land v 1023)%N].

(** Decoding of well-formed UTF-8 (source literals are well formed);
    a byte that starts no sequence is passed through. *)
Fixpoint decode (fuel : nat) (bs : list N) : list N :=
  match fuel with
  | O => []
  | S fuel' =>
      match bs with
      | [] => []
      | b0 :: r0 =>
          if (b0 <? 128)%N then b0 :: decode fuel' r0
          else if (b0 <? 224)%N then
            match r0 with
            | b1 :: r1 =>
                units (N.shiftl (N.land b0 31) 6 + cont b1)%N ++ decode fuel' r1
            | _ => [b0]
            end
          else if (b0 <? 240)%N then
            match r0 with
            | b1 :: b2 :: r2 =>
                units (N.shiftl (N.land b0 15) 12 + N.shiftl (cont b1) 6 + cont b2)%N
                  ++ decode fuel' r2
            | _ => b0 :: r0
            end
          else
            match r0 with
            | b1 :: b2 :: b3 :: r3 =>
                units (N.shiftl (N.land b0 7) 18 + N.shiftl (cont b1) 12
                       + N.shiftl (cont b2) 6 + cont b3)%N
                  ++ decode fuel' r3
            | _ => b0 :: r0
            end
      end
  end.

(** [encode]: what Node's 'utf-8' encoding writes for a string: a
    surrogate pair becomes one four-byte sequence, a lone surrogate the
    replacement character U+FFFD. *)
Definition bytes (cp : N) : list N :=
  if (cp <? 128)%N then [cp]
  else if (cp <? 2048)%N then
    [(192 + N.shiftr cp 6)%N; (128 + N.land cp 63)%N]
  else if (cp <? 65536)%N then
    [(224 + N.shiftr cp 12)%N; (128 + N.land (N.shiftr cp 6) 63)%N;
     (128 + N.land cp 63)%N]
  else
    [(240 + N.shiftr cp 18)%N; (128 + N.land (N.shiftr cp 12) 63)%N;
     (128 + N.land (N.shiftr cp 6) 63)%N; (128 + N.land cp 63)%N].

Definition isHigh (u : N) : bool := ((55296 <=? u) && (u <? 56320))%N.
Definition isLow (u : N) : bool := ((56320 <=? u) && (u <? 57344))%N.

Fixpoint encode (s : list N) : list N :=
  match s with
  | [] => []
  | u :: r =>
      if isHigh u then
        match r with
        | l :: r' =>
            if isLow l
            then bytes (65536 + N.shiftl (u - 55296) 10 + (l - 56320))%N ++ encode r'
            else bytes 65533%N ++ encode r
        | [] => bytes 65533%N
        end
      else if isLow u then bytes 65533%N ++ encode r
      else bytes u ++ encode r
  end.

End Utf8.

(** A source literal as a JavaScript string. *)
Definition js (s : string) : jsstring :=
  let bs := map N_of_ascii (list_ascii_of_string s) in
  Utf8.decode (List.length bs) bs.

Definition jsEq (a b : jsstring) : bool :=
  if list_eq_dec N.eq_dec a b then true else false.

(** [s.startsWith(p)], returning what follows the prefix. *)
Fixpoint stripPrefix (p s : jsstring) : option jsstring :=
  match p, s with
  | [], _ => Some s
  | a :: p', b :: s' => if (a =? b)%N then stripPrefix p' s' else None
  | _ :: _, [] => None
  end.

Definition startsWith (p s : jsstring) : bool :=
  match stripPrefix p s with Some _ => true | None => false end.

(** [s.includes(needle)]. *)
Fixpoint includes (needle s : jsstring) : bool :=
  startsWith needle s ||
  match s with
  | [] => false
  | _ :: s' => includes needle s'
  end.

(** ECMAScript WhiteSpace and LineTerminator code units, as [trim] strips
    them. *)
Definition isWhiteSpace (c : N) : bool :=
  ((9 <=? c) && (c <=? 13) || (c =? 32) || (c =? 160) || (c =? 5760)
   || (8192 <=? c) && (c <=? 8202) || (c =? 8232) || (c =? 8233)
   || (c =? 8239) || (c =? 8287) || (c =? 12288) || (c =? 65279))%N.

Fixpoint trimStart (s : jsstring) : jsstring :=
  match s with
  | c :: s' => if isWhiteSpace c then trimStart s' else s
  | [] => []
  end.

Definition trimEnd (s : jsstring) : jsstring := rev (trimStart (rev s)).

Definition trim (s : jsstring) : jsstring := trimEnd (trimStart s).

(** Decimal rendering of an integer (what a template literal or [String]
    gives for an integral number). *)
Definition digitUnit (d : Z) : N := Z.to_N (48 + d).

Fixpoint decimalDigits (fuel : nat) (n : Z) (acc : jsstring) : jsstring :=
  match fuel with
  | O => acc
  | S fuel' =>
      let acc' := digitUnit (n mod 10) :: acc in
      if n <? 10 then acc' else decimalDigits fuel' (n / 10) acc'
  end.

Definition decimal (n : Z) : jsstring :=
  if n <? 0 then 45%N :: decimalDigits (Z.to_nat (Z.log2 (- n)) + 1) (- n) []
  else decimalDigits (Z.to_nat (Z.log2 n) + 1) n [].

(** [String(n).padStart(w, '0')] for a non-negative integer. *)
Definition pad0 (w : nat) (n : Z) : jsstring :=
  let d := decimal n in
  repeat 48%N (w - List.length d) ++ d.

(** ** Results and thrown values

    A call either returns or throws.  What is thrown is an [Error] object,
    the value [undefined], or some other value, carried by its [String]
    rendering (all that the sources ever read of it). *)

Record Error := mkError { name : jsstring; message : jsstring }.

Inductive Thrown :=
| ThrownError (e : Error)
| ThrownUndefined
| ThrownValue (rendering : jsstring).

Inductive result (A : Type) :=
| Ok (a : A)
| Throw (t : Thrown).

Arguments Ok {A} a.
Arguments Throw {A} t.

Definition TypeError (msg : string) : Thrown :=
  ThrownError (mkError (js "TypeError") (js msg)).

(** ** src/types/index.ts: ShutdownEvent

    [id] is [string | number]; the optional [comment] and [address] are
    [None] when the property is [undefined]. *)

Inductive EventId :=
| IdNumber (n : Z)
| IdString (s : jsstring).

Record ShutdownEvent := mkEvent {
  id : EventId;
  dateStart : jsstring;
  dateEnd : jsstring;
  type : jsstring;
  shutdownType : jsstring;
  queueGpv : jsstring;
  queueGav : jsstring;
  status : jsstring;
  comment : option jsstring;
  address : option jsstring
}.

(** ** src/providers/hoe.provider.ts: the HTML path *)

(** [isHtmlResponse] *)
Definition isHtmlResponse (text : jsstring) : bool :=
  let trimmed := trim text in
  startsWith (js "<") trimmed
  || startsWith (js "<!DOCTYPE") trimmed
  || includes (js "<div") trimmed
  || includes (js "<html") trimmed
  || includes (js "<table") trimmed.

(** [isNoShutdownsAlert] *)
Definition isNoShutdownsAlert (text : jsstring) : bool :=
  includes (js "alert-info") text
  && includes (js "відсутнє зареєстроване відключення") text.

(** The three regular expressions of [parseHtmlTable] have one shape,
    [/<TAG[^>]*>([\s\S]*?)<\/TAG>/i], and the fourth is [/<[^>]*>/g].
    They are embedded as the matcher each of them denotes. *)
Module Regex.

Definition LT : N := 60%N.
Definition GT : N := 62%N.

(** Canonicalize of a case-insensitive, non-Unicode pattern: only the
    ASCII letters fold (a code unit above 127 never maps into ASCII). *)
Definition canonicalize (c : N) : N :=
  if ((97 <=? c) && (c <=? 122))%N then (c - 32)%N else c.

(** The literal [p], case-insensitively, at the start of [s]: the rest. *)
Fixpoint literalCI (p s : jsstring) : option jsstring :=
  match p, s with
  | [], _ => Some s
  | a :: p', b :: s' =>
      if (canonicalize a =? canonicalize b)%N then literalCI p' s' else None
  | _ :: _, [] => None
  end.

(** [[^>]*>] at the start of [s]: the rest after the first [>].  The
    greedy class cannot give a character back, since the next pattern
    character is the one it excludes. *)
Fixpoint closeTag (s : jsstring) : option jsstring :=
  match s with
  | [] => None
  | c :: s' => if (c =? GT)%N then Some s' else closeTag s'
  end.

(** [([\s\S]*?)CLOSE] at the start of [s]: the shortest capture that is
    followed by the literal, and the rest after the literal. *)
Fixpoint lazyUntil (close s : jsstring) : option (jsstring * jsstring) :=
  match literalCI close s with
  | Some rest => Some ([], rest)
  | None =>
      match s with
      | [] => None
      | c :: s' =>
          match lazyUntil close s' with
          | Some (cap, rest) => Some (c :: cap, rest)
          | None => None
          end
      end
  end.

(** One element pattern: [open] is [<TAG], [close] is [</TAG>]. *)
Record element := { open : jsstring; close : jsstring }.

(** The pattern anchored at the start of [s]: capture group 1 and the
    text after the match. *)
Definition matchAt (re : element) (s : jsstring) : option (jsstring * jsstring) :=
  match literalCI (open re) s with
  | None => None
  | Some s1 =>
      match closeTag s1 with
      | None => None
      | Some s2 => lazyUntil (close re) s2
      end
  end.

(** [re.exec(s)] from the current [lastIndex] ([s] is the text from
    there on): the leftmost position where the pattern matches. *)
Fixpoint exec (re : element) (s : jsstring) : option (jsstring * jsstring) :=
  match matchAt re s with
  | Some m => Some m
  | None =>
      match s with
      | [] => None
      | _ :: s' => exec re s'
      end
  end.

Definition tbodyRe : element := {| open := js "<tbody"; close := js "</tbody>" |}.
Definition rowRegex : element := {| open := js "<tr"; close := js "</tr>" |}.
Definition cellRegex : element := {| open := js "<td"; close := js "</td>" |}.

(** [s.replace(/<[^>]*>/g, '')]: one pass from the left; a [<] starts a
    match only if some [>] follows it, and the match runs to the first
    such [>].  [inTag] tells whether the pass is inside a match. *)
Fixpoint stripFrom (inTag : bool) (s : jsstring) : jsstring :=
  match s with
  | [] => []
  | c :: s' =>
      if inTag then
        if (c =? GT)%N then stripFrom false s' else stripFrom true s'
      else if (c =? LT)%N && existsb (N.eqb GT) s' then stripFrom true s'
      else c :: stripFrom false s'
  end.

Definition stripTags (s : jsstring) : jsstring := stripFrom false s.

End Regex.

(** The inner [while] of [parseHtmlTable]: every [<td>] of a row, tags
    stripped and trimmed, pushed onto [cells].  [rowHtml] is the row from
    [cellRegex.lastIndex] on; each match moves past at least one character,
    so [fuel] larger than the length of [rowHtml] is never used up. *)
Fixpoint cellLoop (fuel : nat) (rowHtml : jsstring) (cells : list jsstring)
  : list jsstring :=
  match fuel with
  | O => cells
  | S fuel' =>
      match Regex.exec Regex.cellRegex rowHtml with
      | None => cells
      | Some (cell, rest) =>
          let cellValue := trim (Regex.stripTags cell) in
          cellLoop fuel' rest (cells ++ [cellValue])
      end
  end.

Definition extractCells (rowHtml : jsstring) : list jsstring :=
  cellLoop (S (List.length rowHtml)) rowHtml [].

(** [cells[i]] under the guard [cells.length >= 6], which keeps the index
    in range. *)
Definition cellAt (cells : list jsstring) (i : nat) : jsstring := nth i cells [].

Definition Emergency : jsstring := js "Аварійне".
Definition Planned : jsstring := js "Заплановано".

(** The object literal pushed for a row of six or more cells. *)
Definition rowEvent (eventId : Z) (cells : list jsstring) : ShutdownEvent :=
  {| id := IdNumber eventId;
     type := cellAt cells 0;
     shutdownType := cellAt cells 1;
     queueGpv := cellAt cells 2;
     queueGav := cellAt cells 3;
     dateStart := cellAt cells 4;
     dateEnd := cellAt cells 5;
     status := if jsEq (cellAt cells 1) Emergency then Emergency else Planned;
     comment := None;
     address := None |}.

(** The outer [while]: [tbody] is the text from [rowRegex.lastIndex] on,
    [eventId] and [events] are the loop's two variables. *)
Fixpoint rowLoop (fuel : nat) (tbody : jsstring) (eventId : Z)
  (events : list ShutdownEvent) : list ShutdownEvent :=
  match fuel with
  | O => events
  | S fuel' =>
      match Regex.exec Regex.rowRegex tbody with
      | None => events
      | Some (rowHtml, rest) =>
          let cells := extractCells rowHtml in
          if (6 <=? List.length cells)%nat
          then rowLoop fuel' rest (eventId + 1) (events ++ [rowEvent eventId cells])
          else rowLoop fuel' rest eventId events
      end
  end.

(** [html.match(/<tbody[^>]*>([\s\S]*?)<\/tbody>/i)], group 1. *)
Definition tbodyMatch (html : jsstring) : option jsstring :=
  match Regex.exec Regex.tbodyRe html with
  | Some (tbody, _) => Some tbody
  | None => None
  end.

(** [parseHtmlTable] *)
Definition parseHtmlTable (html : jsstring) : list ShutdownEvent :=
  if negb (includes (js "table-shutdowns") html) then []
  else
    match tbodyMatch html with
    | None => []
    | Some tbody => rowLoop (S (List.length tbody)) tbody 1 []
    end.

(** *** The table as the specification reads it

    These definitions follow the specification's wording (rows of a table,
    cells of a row, "six or more cells", "sequential ids starting at 1");
    Part II compares [parseHtmlTable] with them. *)

(** Every match of a global pattern, in order: group 1 of each. *)
Fixpoint execAll (fuel : nat) (re : Regex.element) (s : jsstring) : list jsstring :=
  match fuel with
  | O => []
  | S fuel' =>
      match Regex.exec re s with
      | None => []
      | Some (cap, rest) => cap :: execAll fuel' re rest
      end
  end.

(** The rows of a [tbody], and the cells of a row (tags stripped, trimmed). *)
Definition tableRows (tbody : jsstring) : list jsstring :=
  execAll (S (List.length tbody)) Regex.rowRegex tbody.

Definition rowCells (rowHtml : jsstring) : list jsstring :=
  map (fun cell => trim (Regex.stripTags cell))
      (execAll (S (List.length rowHtml)) Regex.cellRegex rowHtml).

Definition hasSixCells (cells : list jsstring) : bool :=
  (6 <=? List.length cells)%nat.

(** [start; start + 1; ...], [n] of them. *)
Fixpoint idsFrom (start : Z) (n : nat) : list Z :=
  match n with
  | O => []
  | S n' => start :: idsFrom (start + 1) n'
  end.


(** ** JavaScript values, as [JSON.parse] produces them

    A number is carried by its [Number::toString] rendering, the only thing
    the sources read of it besides its truthiness.  An object is the list
    of its own properties, each key once. *)

Inductive value :=
| VUndefined
| VNull
| VBool (b : bool)
| VNumber (rendering : jsstring)
| VString (s : jsstring)
| VArray (items : list value)
| VObject (props : list (jsstring * value)).

Definition rbind {A B} (r : result A) (k : A -> result B) : result B :=
  match r with
  | Ok a => k a
  | Throw t => Throw t
  end.

Declare Scope result_scope.
Delimit Scope result_scope with result.
Notation "x <- e ;; k" := (rbind e (fun x => k))
  (at level 61, e at next level, right associativity) : result_scope.

(** [xs.map(f)] for an [f] that may throw: the first throw ends the map. *)
Fixpoint mapR {A B} (f : A -> result B) (xs : list A) : result (list B) :=
  match xs with
  | [] => Ok []
  | x :: xs' => (y <- f x ;; ys <- mapR f xs' ;; Ok (y :: ys))%result
  end.

Fixpoint lookupProp (k : jsstring) (props : list (jsstring * value)) : option value :=
  match props with
  | [] => None
  | (k', v) :: props' => if jsEq k k' then Some v else lookupProp k props'
  end.

Definition hasOwn (k : jsstring) (v : value) : bool :=
  match v with
  | VObject props => match lookupProp k props with Some _ => true | None => false end
  | _ => false
  end.

(** [v.k] for the property names the sources read ([id], [dateStart],
    [data], [success], ...): none of them is inherited from a prototype, so
    the read gives the own property or [undefined]; on [null] and
    [undefined] it throws. *)
Definition getProp (v : value) (k : string) : result value :=
  match v with
  | VUndefined =>
      Throw (TypeError ("Cannot read properties of undefined (reading '" ++ k ++ "')"))
  | VNull =>
      Throw (TypeError ("Cannot read properties of null (reading '" ++ k ++ "')"))
  | VObject props =>
      Ok (match lookupProp (js k) props with Some x => x | None => VUndefined end)
  | _ => Ok VUndefined
  end.

Definition isNullish (v : value) : bool :=
  match v with
  | VUndefined | VNull => true
  | _ => false
  end.

(** [a ?? b] *)
Definition coalesce (a b : value) : value := if isNullish a then b else a.

Infix "??" := coalesce (at level 45, right associativity).

(** ToBoolean *)
Definition toBoolean (v : value) : bool :=
  match v with
  | VUndefined | VNull => false
  | VBool b => b
  | VNumber r => negb (jsEq r (js "0") || jsEq r (js "NaN"))
  | VString s => negb (jsEq s [])
  | VArray _ | VObject _ => true
  end.

Fixpoint joinWith (sep : jsstring) (parts : list jsstring) : jsstring :=
  match parts with
  | [] => []
  | [p] => p
  | p :: rest => p ++ sep ++ joinWith sep rest
  end.

(** [String(v)].  An array is joined with commas, [null] and [undefined]
    elements rendering as the empty string.  A plain object renders as
    [[object Object]] through the inherited [toString]; an own property
    named [toString] shadows it with a value that is not callable, and
    ToPrimitive then throws. *)
Fixpoint toString (v : value) : result jsstring :=
  match v with
  | VUndefined => Ok (js "undefined")
  | VNull => Ok (js "null")
  | VBool true => Ok (js "true")
  | VBool false => Ok (js "false")
  | VNumber r => Ok r
  | VString s => Ok s
  | VArray items =>
      rbind
        ((fix elements (l : list value) : result (list jsstring) :=
            match l with
            | [] => Ok []
            | x :: l' =>
                rbind (if isNullish x then Ok [] else toString x) (fun s =>
                rbind (elements l') (fun ss => Ok (s :: ss)))
            end) items)
        (fun parts => Ok (joinWith (js ",") parts))
  | VObject props =>
      match lookupProp (js "toString") props with
      | Some _ => Throw (TypeError "Cannot convert object to primitive value")
      | None => Ok (js "[object Object]")
      end
  end.

(** ** src/providers/hoe.provider.ts: the JSON path *)

Definition Unknown : jsstring := js "Невідомо".

(** [normalizeEvent].  The cast of [raw] checks nothing: the first
    property read throws on [null] or [undefined].  The fields are
    evaluated in the order of the object literal. *)
Definition normalizeEvent (raw : value) : result ShutdownEvent :=
  let event := raw in
  (e_id <- getProp event "id" ;;
   e_eventId <- getProp event "eventId" ;;
   id_ <- toString (e_id ?? e_eventId ?? VString []) ;;
   e_dateStart <- getProp event "dateStart" ;;
   e_date_start <- getProp event "date_start" ;;
   e_startDate <- getProp event "startDate" ;;
   dateStart_ <- toString (e_dateStart ?? e_date_start ?? e_startDate ?? VString []) ;;
   e_dateEnd <- getProp event "dateEnd" ;;
   e_date_end <- getProp event "date_end" ;;
   e_endDate <- getProp event "endDate" ;;
   dateEnd_ <- toString (e_dateEnd ?? e_date_end ?? e_endDate ?? VString []) ;;
   e_type <- getProp event "type" ;;
   e_eventType <- getProp event "eventType" ;;
   type_ <- toString (e_type ?? e_eventType ?? VString Unknown) ;;
   e_shutdownType <- getProp event "shutdownType" ;;
   e_shutdown_type <- getProp event "shutdown_type" ;;
   shutdownType_ <- toString (e_shutdownType ?? e_shutdown_type ?? VString []) ;;
   e_queueGpv <- getProp event "queueGpv" ;;
   e_queue_gpv <- getProp event "queue_gpv" ;;
   queueGpv_ <- toString (e_queueGpv ?? e_queue_gpv ?? VString (js "-")) ;;
   e_queueGav <- getProp event "queueGav" ;;
   e_queue_gav <- getProp event "queue_gav" ;;
   queueGav_ <- toString (e_queueGav ?? e_queue_gav ?? VString (js "-")) ;;
   e_status <- getProp event "status" ;;
   status_ <- toString (e_status ?? VString Planned) ;;
   e_comment <- getProp event "comment" ;;
   comment_ <- (if toBoolean e_comment
                then s <- toString e_comment ;; Ok (Some s)
                else Ok None) ;;
   e_address <- getProp event "address" ;;
   address_ <- (if toBoolean e_address
                then s <- toString e_address ;; Ok (Some s)
                else Ok None) ;;
   Ok {| id := IdString id_;
         dateStart := dateStart_;
         dateEnd := dateEnd_;
         type := type_;
         shutdownType := shutdownType_;
         queueGpv := queueGpv_;
         queueGav := queueGav_;
         status := status_;
         comment := comment_;
         address := address_ |})%result.

(** [Array.isArray(v)], with the elements when it holds. *)
Definition asArray (v : value) : option (list value) :=
  match v with VArray items => Some items | _ => None end.

(** [typeof v === 'object'] *)
Definition typeofObject (v : value) : bool :=
  match v with VNull | VArray _ | VObject _ => true | _ => false end.

(** [v === true] *)
Definition isTrue (v : value) : bool :=
  match v with VBool true => true | _ => false end.

(** [parseHoeResponse].  The last two branches differ by a log line only:
    an object with [success === true] and no [data] is the valid empty
    answer, any other shape is logged as unexpected. *)
Definition parseHoeResponse (data : value) : result (list ShutdownEvent) :=
  match asArray data with
  | Some items => mapR normalizeEvent items
  | None =>
      if toBoolean data && typeofObject data then
        let response := data in
        (response_data <- getProp response "data" ;;
         response_success <- getProp response "success" ;;
         match asArray response_data with
         | Some items => mapR normalizeEvent items
         | None =>
             if isTrue response_success && negb (toBoolean response_data)
             then Ok []
             else Ok []
         end)%result
      else Ok []
  end.

(** *** Normalization as the specification reads it

    "reads each target field from any of several known upstream aliases":
    the first alias whose value is present, that is neither [undefined]
    nor [null]. *)

Definition propOf (raw : value) (k : string) : value :=
  match getProp raw k with
  | Ok v => v
  | Throw _ => VUndefined
  end.

Definition firstPresent (raw : value) (aliases : list string) : option value :=
  find (fun v => negb (isNullish v)) (map (propOf raw) aliases).

(** A required string field: [String] of the first alias present, else
    the default. *)
Definition fieldFrom (raw : value) (aliases : list string) (default : jsstring)
  (field : jsstring) : Prop :=
  match firstPresent raw aliases with
  | Some v => toString v = Ok field
  | None => field = default
  end.

(** An element "of the expected kind": not [null] or [undefined], and, if
    an object, one whose property values are strings, numbers, booleans or
    [null]. *)
Definition isPrimitive (v : value) : bool :=
  match v with
  | VArray _ | VObject _ => false
  | _ => true
  end.

Definition plainRecord (raw : value) : bool :=
  match raw with
  | VUndefined | VNull => false
  | VObject props => forallb (fun p => isPrimitive (snd p)) props
  | _ => true
  end.

(** [String] of a primitive. *)
Definition render (v : value) : jsstring :=
  match toString v with
  | Ok s => s
  | Throw _ => []
  end.

Definition stringField (raw : value) (aliases : list string) (default : jsstring)
  : jsstring :=
  render (fold_right coalesce (VString default) (map (propOf raw) aliases)).

Definition optionalField (raw : value) (k : string) : option jsstring :=
  if toBoolean (propOf raw k) then Some (render (propOf raw k)) else None.

(** "Normalization of one raw JSON element", field by field. *)
Definition normalized (raw : value) : ShutdownEvent :=
  {| id := IdString (stringField raw ["id"; "eventId"]%string []);
     dateStart := stringField raw ["dateStart"; "date_start"; "startDate"]%string [];
     dateEnd := stringField raw ["dateEnd"; "date_end"; "endDate"]%string [];
     type := stringField raw ["type"; "eventType"]%string Unknown;
     shutdownType := stringField raw ["shutdownType"; "shutdown_type"]%string [];
     queueGpv := stringField raw ["queueGpv"; "queue_gpv"]%string (js "-");
     queueGav := stringField raw ["queueGav"; "queue_gav"]%string (js "-");
     status := stringField raw ["status"]%string Planned;
     comment := optionalField raw "comment";
     address := optionalField raw "address" |}.

(** ** The runtime

    Three built-ins are not re-implemented by the sources and depend on the
    JavaScript runtime the bot runs in: [JSON.parse], the parsing of a date
    string by [new Date(s)] (the time value in milliseconds since the
    epoch, [None] for an invalid date), and
    [toLocaleString('uk-UA', {day, month: '2-digit', year: 'numeric',
    hour, minute: '2-digit'})] of a valid date, which is computed in the
    time zone of the process. *)

Record Runtime := {
  JSON_parse : jsstring -> option value;
  Date_parse : jsstring -> option Z;
  Date_toLocaleString : Z -> result jsstring
}.

(** *** A concrete runtime: a fixed-offset time zone

    The proleptic Gregorian calendar, as ECMAScript's time values use it. *)
Module Calendar.

Definition msPerMinute : Z := 60000.
Definition msPerHour : Z := 3600000.
Definition msPerDay : Z := 86400000.

Definition isLeap (y : Z) : bool :=
  ((y mod 4 =? 0) && negb (y mod 100 =? 0)) || (y mod 400 =? 0).

Definition daysInMonth (y m : Z) : Z :=
  if m =? 2 then (if isLeap y then 29 else 28)
  else if (m =? 4) || (m =? 6) || (m =? 9) || (m =? 11) then 30
  else 31.

(** Days from 1970-01-01 to the given date. *)
Definition daysFromCivil (y m d : Z) : Z :=
  let y' := if m <=? 2 then y - 1 else y in
  let era := y' / 400 in
  let yoe := y' - era * 400 in
  let mp := if m <=? 2 then m + 9 else m - 3 in
  let doy := (153 * mp + 2) / 5 + d - 1 in
  let doe := yoe * 365 + yoe / 4 - yoe / 100 + doy in
  era * 146097 + doe - 719468.

(** The date, as (year, month, day), of a day number. *)
Definition civilFromDays (days : Z) : Z * Z * Z :=
  let z := days + 719468 in
  let era := z / 146097 in
  let doe := z - era * 146097 in
  let yoe := (doe - doe / 1460 + doe / 36524 - doe / 146096) / 365 in
  let doy := doe - (365 * yoe + yoe / 4 - yoe / 100) in
  let mp := (5 * doy + 2) / 153 in
  let d := doy - (153 * mp + 2) / 5 + 1 in
  let m := if mp <? 10 then mp + 3 else mp - 9 in
  let y := yoe + era * 400 + (if m <=? 2 then 1 else 0) in
  (y, m, d).

Definition timeValue (y m d hh mm ss ms : Z) : Z :=
  daysFromCivil y m d * msPerDay + hh * msPerHour + mm * msPerMinute
  + ss * 1000 + ms.

End Calendar.

(** The ECMAScript date-time string format: [YYYY-MM-DD], optionally
    followed by [THH:mm], [THH:mm:ss] or [THH:mm:ss.sss] and then by [Z] or
    [+HH:mm] / [-HH:mm].  Without an offset a date-only string is UTC and a
    date-time string is local time. *)
Module IsoDate.

Definition digitOf (c : N) : option Z :=
  if ((48 <=? c) && (c <=? 57))%N then Some (Z.of_N c - 48) else None.

(** Exactly [n] decimal digits. *)
Fixpoint digits (n : nat) (acc : Z) (s : jsstring) : option (Z * jsstring) :=
  match n with
  | O => Some (acc, s)
  | S n' =>
      match s with
      | c :: s' =>
          match digitOf c with
          | Some d => digits n' (10 * acc + d) s'
          | None => None
          end
      | [] => None
      end
  end.

Definition expect (c : N) (s : jsstring) : option jsstring :=
  match s with
  | c' :: s' => if (c =? c')%N then Some s' else None
  | [] => None
  end.

Definition obind {A B} (o : option A) (k : A -> option B) : option B :=
  match o with Some a => k a | None => None end.

Notation "x <~ e ;; k" := (obind e (fun x => k))
  (at level 61, e at next level, right associativity).
Notation "' p <~ e ;; k" := (obind e (fun x => match x with p => k end))
  (at level 61, p pattern, e at next level, right associativity).

(** The offset in minutes east of UTC that the suffix denotes; [None]
    inside stands for "no suffix: local time". *)
Definition zone (s : jsstring) : option (option Z) :=
  match s with
  | [] => Some None
  | [90%N] => Some (Some 0)
  | sign :: s1 =>
      if ((sign =? 43) || (sign =? 45))%N then
        '(hh, s2) <~ digits 2 0 s1 ;;
        s3 <~ expect 58 s2 ;;
        '(mm, s4) <~ digits 2 0 s3 ;;
        match s4 with
        | [] =>
            if (hh <=? 23) && (mm <=? 59)
            then Some (Some ((if (sign =? 43)%N then 1 else -1) * (hh * 60 + mm)))
            else None
        | _ => None
        end
      else None
  end.

(** Seconds and milliseconds, when present, and the rest. *)
Definition seconds (s : jsstring) : option (Z * Z * jsstring) :=
  match expect 58 s with
  | None => Some (0, 0, s)
  | Some s1 =>
      '(ss, s2) <~ digits 2 0 s1 ;;
      match expect 46 s2 with
      | None => Some (ss, 0, s2)
      | Some s3 => '(ms, s4) <~ digits 3 0 s3 ;; Some (ss, ms, s4)
      end
  end.

Definition parse (localOffset : Z) (s : jsstring) : option Z :=
  '(y, s1) <~ digits 4 0 s ;;
  s2 <~ expect 45 s1 ;;
  '(m, s3) <~ digits 2 0 s2 ;;
  s4 <~ expect 45 s3 ;;
  '(d, s5) <~ digits 2 0 s4 ;;
  if negb ((1 <=? m) && (m <=? 12) && (1 <=? d) && (d <=? Calendar.daysInMonth y m))
  then None
  else
    match s5 with
    | [] => Some (Calendar.timeValue y m d 0 0 0 0)
    | t :: s6 =>
        if negb (t =? 84)%N then None
        else
          '(hh, s7) <~ digits 2 0 s6 ;;
          s8 <~ expect 58 s7 ;;
          '(mm, s9) <~ digits 2 0 s8 ;;
          '(ss, ms, s10) <~ seconds s9 ;;
          off <~ zone s10 ;;
          if negb ((hh <=? 23) && (mm <=? 59) && (ss <=? 59)) then None
          else
            let offset := match off with Some o => o | None => localOffset end in
            Some (Calendar.timeValue y m d hh mm ss ms - offset * Calendar.msPerMinute)
    end.

End IsoDate.

(** The Ukrainian rendering [DD.MM.YYYY, HH:mm] of a time value in a zone
    [offset] minutes east of UTC. *)
Definition ukDateTime (offset : Z) (t : Z) : jsstring :=
  let local := t + offset * Calendar.msPerMinute in
  let days := local / Calendar.msPerDay in
  let msOfDay := local mod Calendar.msPerDay in
  let '(y, m, d) := Calendar.civilFromDays days in
  pad0 2 d ++ js "." ++ pad0 2 m ++ js "." ++ decimal y ++ js ", "
  ++ pad0 2 (msOfDay / Calendar.msPerHour) ++ js ":"
  ++ pad0 2 ((msOfDay / Calendar.msPerMinute) mod 60).

(** A runtime whose time zone is [offset] minutes east of UTC all year
    round ([TZ=UTC] is [fixedZone 0], [TZ=Etc/GMT-2] and a Kyiv winter are
    [fixedZone 120]).  It reads date strings of the ECMAScript format and
    reports every other string as an invalid date; [json] is its
    [JSON.parse]. *)
Definition fixedZone (offset : Z) (json : jsstring -> option value) : Runtime :=
  {| JSON_parse := json;
     Date_parse := IsoDate.parse offset;
     Date_toLocaleString := fun t => Ok (ukDateTime offset t) |}.

(** ** src/services/shutdown.service.ts: the message formatter *)

Definition NL : jsstring := [10%N].

(** [formatDateTime] *)
Definition formatDateTime (rt : Runtime) (dateStr : jsstring) : jsstring :=
  if jsEq dateStr [] then Unknown
  else
    match Date_parse rt dateStr with
    | None => dateStr
    | Some time =>
        match Date_toLocaleString rt time with
        | Ok s => s
        | Throw _ => dateStr
        end
    end.

(** Truthiness of an optional string property. *)
Definition truthy (o : option jsstring) : bool :=
  match o with
  | Some s => negb (jsEq s [])
  | None => false
  end.

Definition orEmpty (o : option jsstring) : jsstring :=
  match o with Some s => s | None => [] end.

(** [formatEvent] *)
Definition formatEvent (rt : Runtime) (event : ShutdownEvent) (index : nat) : jsstring :=
  let lines :=
    [js "<b>" ++ decimal (Z.of_nat index + 1) ++ js ". " ++ type event ++ js "</b>";
     js "📅 Початок: " ++ formatDateTime rt (dateStart event);
     js "📅 Кінець: " ++ formatDateTime rt (dateEnd event)]
    ++ (if negb (jsEq (status event) [])
        then [js "📋 Статус: " ++ status event] else [])
    ++ (if truthy (address event)
        then [js "📍 Адреса: " ++ orEmpty (address event)] else [])
    ++ (if truthy (comment event)
        then [js "💬 Коментар: " ++ orEmpty (comment event)] else []) in
  joinWith NL lines.

(** [xs.map((x, i) => f(x, i))], the index starting at [i]. *)
Fixpoint mapIndexed {A B} (f : A -> nat -> B) (i : nat) (xs : list A) : list B :=
  match xs with
  | [] => []
  | x :: xs' => f x i :: mapIndexed f (S i) xs'
  end.

Definition PowerIsOn : jsstring := js "✅ Електрохарчування є".

(** [formatShutdownMessage] *)
Definition formatShutdownMessage (rt : Runtime) (events : list ShutdownEvent) : jsstring :=
  if (List.length events =? 0)%nat then PowerIsOn
  else
    let header :=
      js "⚡ <b>Заплановані відключення (" ++ decimal (Z.of_nat (List.length events))
      ++ js ")</b>" ++ NL in
    let eventMessages := mapIndexed (formatEvent rt) 0 events in
    header ++ NL ++ joinWith (NL ++ NL) eventMessages.

Definition idString (i : EventId) : jsstring :=
  match i with
  | IdNumber n => decimal n
  | IdString s => s
  end.

(** [getEventIds] *)
Definition getEventIds (events : list ShutdownEvent) : list jsstring :=
  map (fun e => idString (id e)) events.

(** ** src/utils/hash.ts

    [createHash('sha256').update(content, 'utf-8').digest('hex')]:
    SHA-256 (FIPS 180-4) of the UTF-8 encoding, as 64 lowercase hex
    digits.  Words are integers below 2^32. *)
Module Sha256.

Definition wrap (x : Z) : Z := x mod 4294967296.
Definition add (x y : Z) : Z := wrap (x + y).
Definition rotr (n x : Z) : Z :=
  Z.lor (Z.shiftr x n) (wrap (Z.shiftl x (32 - n))).
Definition shr (n x : Z) : Z := Z.shiftr x n.
Definition not32 (x : Z) : Z := 4294967295 - x.

Definition Ch (x y z : Z) : Z := Z.lxor (Z.land x y) (Z.land (not32 x) z).
Definition Maj (x y z : Z) : Z :=
  Z.lxor (Z.lxor (Z.land x y) (Z.land x z)) (Z.land y z).
Definition Sigma0 (x : Z) : Z := Z.lxor (Z.lxor (rotr 2 x) (rotr 13 x)) (rotr 22 x).
Definition Sigma1 (x : Z) : Z := Z.lxor (Z.lxor (rotr 6 x) (rotr 11 x)) (rotr 25 x).
Definition sigma0 (x : Z) : Z := Z.lxor (Z.lxor (rotr 7 x) (rotr 18 x)) (shr 3 x).
Definition sigma1 (x : Z) : Z := Z.lxor (Z.lxor (rotr 17 x) (rotr 19 x)) (shr 10 x).

(** The constants, from their definition in the standard: the first 32
    bits of the fractional parts of the cube roots (the round constants)
    and of the square roots (the initial hash value) of the first primes. *)
Definition isPrime (n : Z) : bool :=
  forallb (fun d => negb (n mod Z.of_nat d =? 0)) (seq 2 (Z.to_nat n - 2)).

Definition primes : list Z := filter isPrime (map Z.of_nat (seq 2 310)).

(** The integer cube root of a number below 2^108, bit by bit. *)
Definition cubeRoot (n : Z) : Z :=
  fold_left (fun r b => let r' := r + 2 ^ Z.of_nat b in
                        if r' * r' * r' <=? n then r' else r)
            (rev (seq 0 36)) 0.

Definition K : list Z :=
  Eval vm_compute in map (fun p => wrap (cubeRoot (p * 2 ^ 96))) (firstn 64 primes).

Definition H0 : list Z :=
  Eval vm_compute in map (fun p => wrap (Z.sqrt (p * 2 ^ 64))) (firstn 8 primes).

(** The message followed by the bit 1, zeros, and its length in bits as
    a 64-bit big-endian integer: a multiple of 64 bytes. *)
Definition bigEndian (width : nat) (x : Z) : list Z :=
  map (fun i => Z.land (Z.shiftr x (8 * Z.of_nat (width - 1 - i))) 255) (seq 0 width).

Definition pad (msg : list Z) : list Z :=
  let len := Z.of_nat (List.length msg) in
  let zeros := Z.to_nat ((55 - len) mod 64) in
  msg ++ [128] ++ repeat 0 zeros ++ bigEndian 8 (8 * len).

Fixpoint words (bs : list Z) : list Z :=
  match bs with
  | b0 :: b1 :: b2 :: b3 :: rest =>
      (Z.shiftl b0 24 + Z.shiftl b1 16 + Z.shiftl b2 8 + b3) :: words rest
  | _ => []
  end.

(** The 48 further words of the message schedule; [w] holds the last
    sixteen, oldest first. *)
Fixpoint schedule (n : nat) (w : list Z) : list Z :=
  match n with
  | O => []
  | S n' =>
      match w with
      | w0 :: ((w1 :: _ :: _ :: _ :: _ :: _ :: _ :: _ :: w9 :: _ :: _ :: _ :: _ :: w14 :: _) as tl) =>
          let new := add (add (sigma1 w14) w9) (add (sigma0 w1) w0) in
          new :: schedule n' (tl ++ [new])
      | _ => []
      end
  end.

Definition state := (Z * Z * Z * Z * Z * Z * Z * Z)%type.

Definition round (s : state) (kw : Z * Z) : state :=
  let '(a, b, c, d, e, f, g, h) := s in
  let t1 := add (add (add h (Sigma1 e)) (add (Ch e f g) (fst kw))) (snd kw) in
  let t2 := add (Sigma0 a) (Maj a b c) in
  (add t1 t2, a, b, c, add d t1, e, f, g).

Definition compress (hs : state) (block : list Z) : state :=
  let w := block ++ schedule 48 block in
  let '(a, b, c, d, e, f, g, h) := fold_left round (combine K w) hs in
  let '(h0, h1, h2, h3, h4, h5, h6, h7) := hs in
  (add h0 a, add h1 b, add h2 c, add h3 d, add h4 e, add h5 f, add h6 g, add h7 h).

Fixpoint blocks (n : nat) (ws : list Z) (hs : state) : state :=
  match n with
  | O => hs
  | S n' =>
      match ws with
      | [] => hs
      | _ => blocks n' (skipn 16 ws) (compress hs (firstn 16 ws))
      end
  end.

Definition initial : state :=
  match H0 with
  | [a; b; c; d; e; f; g; h] => (a, b, c, d, e, f, g, h)
  | _ => (0, 0, 0, 0, 0, 0, 0, 0)
  end.

Definition hash (msg : list Z) : state :=
  let ws := words (pad msg) in
  blocks (List.length ws) ws initial.

Definition hexDigit (d : Z) : N :=
  if d <? 10 then Z.to_N (48 + d) else Z.to_N (87 + d).

(** Eight lowercase hex digits of a word. *)
Definition hexWord (w : Z) : jsstring :=
  map (fun i => hexDigit (Z.land (Z.shiftr w (4 * Z.of_nat (7 - i))) 15)) (seq 0 8).

Definition hex (s : state) : jsstring :=
  let '(a, b, c, d, e, f, g, h) := s in
  hexWord a ++ hexWord b ++ hexWord c ++ hexWord d
  ++ hexWord e ++ hexWord f ++ hexWord g ++ hexWord h.

End Sha256.

(** [createContentHash] *)
Definition createContentHash (content : jsstring) : jsstring :=
  Sha256.hex (Sha256.hash (map Z.of_N (Utf8.encode content))).

(** [hashesEqual] *)
Definition hashesEqual (hash1 hash2 : jsstring) : bool := jsEq hash1 hash2.

(** ** The world

    Everything outside the process that the sources read or change: the
    state file, the upstream endpoint, the Telegram API, the clock; and the
    two things fixed when the process starts, its runtime and its
    configuration.  (Log lines are not modelled.) *)

(** src/config/env.ts, the validated environment.  [TELEGRAM_CHAT_ID] is
    the integer that [parseInt(config.TELEGRAM_CHAT_ID, 10)] reads from the
    configured string. *)
Record Config := {
  TELEGRAM_CHAT_ID : Z;
  RETRY_ATTEMPTS : Z;
  RETRY_DELAY_MS : Z;
  REQUEST_TIMEOUT_MS : Z
}.

(** src/repositories/state.repository.ts: [StateData]. *)
Record StateData := mkState {
  lastMessageHash : option jsstring;
  lastCheckTime : option jsstring;
  lastEventIds : list jsstring;
  subscribers : list Z
}.

(** What is at [./.state/state.json]: nothing, something that cannot be
    read or parsed, or a JSON object, each of whose four properties may be
    missing or [null] ([None]). *)
Record StoredState := mkStored {
  stored_lastMessageHash : option jsstring;
  stored_lastCheckTime : option jsstring;
  stored_lastEventIds : option (list jsstring);
  stored_subscribers : option (list Z)
}.

Inductive StateFile :=
| Missing
| Unreadable
| Stored (data : StoredState).

(** One POST to the upstream URL: the request fails (network error, or the
    abort when the timeout fires), or a response arrives. *)
Inductive HttpOutcome :=
| RequestFailed (e : Error)
| Response (ok : bool) (httpStatus : Z) (text : jsstring).

(** One call of [bot.sendMessage]. *)
Record Delivery := mkDelivery {
  chat : Z;
  text : jsstring;
  accepted : bool
}.

Record World := mkWorld {
  runtime : Runtime;
  config : Config;
  stateFile : StateFile;
  diskWritable : bool;              (* do mkdir and writeFile succeed *)
  clock : Z;                        (* Date.now() *)
  upstream : nat -> HttpOutcome;    (* the outcome of the n-th request *)
  requests : nat;                   (* requests made so far *)
  telegram : Z -> nat -> bool;      (* is the k-th call for a chat accepted *)
  outbox : list Delivery            (* the calls of sendMessage so far *)
}.

(** ** Computations: state and exceptions

    An [async] function is a function of the world that returns or throws
    and leaves a world behind; what it did before throwing stays done. *)

Definition M (A : Type) : Type := World -> result A * World.

Definition ret {A} (a : A) : M A := fun w => (Ok a, w).

Definition throw {A} (t : Thrown) : M A := fun w => (Throw t, w).

Definition bind {A B} (m : M A) (k : A -> M B) : M B :=
  fun w =>
    match m w with
    | (Ok a, w') => k a w'
    | (Throw t, w') => (Throw t, w')
    end.

(** [try { body } catch (error) { handler }] *)
Definition tryCatch {A} (body : M A) (handler : Thrown -> M A) : M A :=
  fun w =>
    match body w with
    | (Ok a, w') => (Ok a, w')
    | (Throw t, w') => handler t w'
    end.

Definition liftResult {A} (r : result A) : M A := fun w => (r, w).

Definition reads {A} (f : World -> A) : M A := fun w => (Ok (f w), w).

Declare Scope world_scope.
Delimit Scope world_scope with world.
Bind Scope world_scope with M.
Notation "x <- e ;; k" := (bind e (fun x => k))
  (at level 61, e at next level, right associativity) : world_scope.
Notation "e ;; k" := (bind e (fun _ => k))
  (at level 61, right associativity) : world_scope.

Definition setStateFile (f : StateFile) (w : World) : World :=
  mkWorld (runtime w) (config w) f (diskWritable w) (clock w)
          (upstream w) (requests w) (telegram w) (outbox w).

Definition setClock (t : Z) (w : World) : World :=
  mkWorld (runtime w) (config w) (stateFile w) (diskWritable w) t
          (upstream w) (requests w) (telegram w) (outbox w).

Definition setRequests (n : nat) (w : World) : World :=
  mkWorld (runtime w) (config w) (stateFile w) (diskWritable w) (clock w)
          (upstream w) n (telegram w) (outbox w).

Definition setOutbox (o : list Delivery) (w : World) : World :=
  mkWorld (runtime w) (config w) (stateFile w) (diskWritable w) (clock w)
          (upstream w) (requests w) (telegram w) o.

(** ** src/utils/retry.ts *)

(** [delay(ms)]: the time passes. *)
Definition delay (ms : Z) : M unit :=
  fun w => (Ok tt, setClock (clock w + ms) w).

(** [error instanceof Error ? error : new Error(String(error))] *)
Definition toError (t : Thrown) : Error :=
  match t with
  | ThrownError e => e
  | ThrownUndefined => mkError (js "Error") (js "undefined")
  | ThrownValue s => mkError (js "Error") s
  end.

(** [throw lastError], for [lastError: Error | undefined]. *)
Definition throwLast {A} (lastError : option Error) : M A :=
  match lastError with
  | Some e => throw (ThrownError e)
  | None => throw ThrownUndefined
  end.

(** [onRetry?.(lastError, attempt)] *)
Definition callOnRetry (onRetry : option (Error -> Z -> M unit))
  (lastError : Error) (attempt : Z) : M unit :=
  match onRetry with
  | Some callback => callback lastError attempt
  | None => ret tt
  end.

(** The [for] loop of [withRetry], entered with the loop variable at
    [attempt]; [fuel] bounds the iterations still to come. *)
Fixpoint retryLoop {T} (fuel : nat) (fn : M T) (attempts delayMs : Z)
  (onRetry : option (Error -> Z -> M unit)) (attempt : Z)
  (lastError : option Error) : M T :=
  match fuel with
  | O => throwLast lastError
  | S fuel' =>
      if attempt <=? attempts then
        tryCatch fn (fun error =>
          let lastError := toError error in
          ((if attempt <? attempts
            then (callOnRetry onRetry lastError attempt ;; delay delayMs)
            else ret tt) ;;
           retryLoop fuel' fn attempts delayMs onRetry (attempt + 1) (Some lastError))%world)
      else throwLast lastError
  end.

(** [withRetry(fn, { attempts, delayMs, onRetry })]: the loop runs
    [attempts] times at most, which is all the fuel it needs. *)
Definition withRetry {T} (fn : M T) (attempts delayMs : Z)
  (onRetry : option (Error -> Z -> M unit)) : M T :=
  retryLoop (Z.to_nat attempts) fn attempts delayMs onRetry 1 None.

(** ** src/repositories/state.repository.ts *)

Definition DEFAULT_STATE : StateData :=
  {| lastMessageHash := None;
     lastCheckTime := None;
     lastEventIds := [];
     subscribers := [] |}.

Definition orElse {A} (o : option A) (d : A) : A :=
  match o with Some a => a | None => d end.

(** [loadState]: never throws. *)
Definition loadState : M StateData :=
  fun w =>
    match stateFile w with
    | Missing => (Ok DEFAULT_STATE, w)
    | Unreadable => (Ok DEFAULT_STATE, w)
    | Stored data =>
        (Ok {| lastMessageHash := stored_lastMessageHash data;
               lastCheckTime := stored_lastCheckTime data;
               lastEventIds := orElse (stored_lastEventIds data) [];
               subscribers := orElse (stored_subscribers data) [] |}, w)
    end.

(** What [JSON.stringify(state)] puts in the file. *)
Definition stringified (state : StateData) : StoredState :=
  {| stored_lastMessageHash := lastMessageHash state;
     stored_lastCheckTime := lastCheckTime state;
     stored_lastEventIds := Some (lastEventIds state);
     stored_subscribers := Some (subscribers state) |}.

Definition WriteFailed : Thrown :=
  ThrownError (mkError (js "Error") (js "EACCES: permission denied, open './.state/state.json'")).

(** [saveState]: the file is replaced, or the failure is thrown again. *)
Definition saveState (state : StateData) : M unit :=
  fun w =>
    if diskWritable w
    then (Ok tt, setStateFile (Stored (stringified state)) w)
    else (Throw WriteFailed, w).

(** [new Date().toISOString()] *)
Definition toISOString (t : Z) : jsstring :=
  let days := t / Calendar.msPerDay in
  let msOfDay := t mod Calendar.msPerDay in
  let '(y, m, d) := Calendar.civilFromDays days in
  (if (0 <=? y) && (y <=? 9999) then pad0 4 y
   else (if y <? 0 then js "-" else js "+") ++ pad0 6 (Z.abs y))
  ++ js "-" ++ pad0 2 m ++ js "-" ++ pad0 2 d ++ js "T"
  ++ pad0 2 (msOfDay / Calendar.msPerHour) ++ js ":"
  ++ pad0 2 ((msOfDay / Calendar.msPerMinute) mod 60) ++ js ":"
  ++ pad0 2 ((msOfDay / 1000) mod 60) ++ js "."
  ++ pad0 3 (msOfDay mod 1000) ++ js "Z".

Definition now : M jsstring := reads (fun w => toISOString (clock w)).

(** [getLastMessageHash] *)
Definition getLastMessageHash : M (option jsstring) :=
  (state <- loadState ;; ret (lastMessageHash state))%world.

(** [updateLastMessageHash]: [{ ...state, lastMessageHash, lastCheckTime }] *)
Definition updateLastMessageHash (hash : jsstring) : M unit :=
  (state <- loadState ;;
   time <- now ;;
   saveState {| lastMessageHash := Some hash;
                lastCheckTime := Some time;
                lastEventIds := lastEventIds state;
                subscribers := subscribers state |})%world.

(** [updateLastEventIds] *)
Definition updateLastEventIds (ids : list jsstring) : M unit :=
  (state <- loadState ;;
   time <- now ;;
   saveState {| lastMessageHash := lastMessageHash state;
                lastCheckTime := Some time;
                lastEventIds := ids;
                subscribers := subscribers state |})%world.

(** [getSubscribers] *)
Definition getSubscribers : M (list Z) :=
  (state <- loadState ;; ret (subscribers state))%world.

(** [xs.includes(x)] on numbers. *)
Definition includesId (xs : list Z) (x : Z) : bool := existsb (Z.eqb x) xs.

(** [addSubscriber] *)
Definition addSubscriber (chatId : Z) : M bool :=
  (state <- loadState ;;
   if includesId (subscribers state) chatId then ret false
   else
     (saveState {| lastMessageHash := lastMessageHash state;
                   lastCheckTime := lastCheckTime state;
                   lastEventIds := lastEventIds state;
                   subscribers := subscribers state ++ [chatId] |} ;;
      ret true))%world.

(** [removeSubscriber] *)
Definition removeSubscriber (chatId : Z) : M bool :=
  (state <- loadState ;;
   if negb (includesId (subscribers state) chatId) then ret false
   else
     (saveState {| lastMessageHash := lastMessageHash state;
                   lastCheckTime := lastCheckTime state;
                   lastEventIds := lastEventIds state;
                   subscribers := filter (fun id => negb (id =? chatId)) (subscribers state) |} ;;
      ret true))%world.

(** ** src/providers/telegram.provider.ts *)

Definition TelegramError : Thrown :=
  ThrownError (mkError (js "Error") (js "ETELEGRAM: request failed")).

(** The calls of [sendMessage] made for a chat, and how many they are. *)
Definition deliveriesTo (c : Z) (o : list Delivery) : list Delivery :=
  filter (fun d => chat d =? c) o.

Definition callsTo (c : Z) (o : list Delivery) : nat :=
  List.length (deliveriesTo c o).

(** [bot.sendMessage(chatId, message, options)]: the API accepts the call
    or not; either way the call has been made. *)
Definition bot_sendMessage (chatId : Z) (message : jsstring) : M unit :=
  fun w =>
    let ok := telegram w chatId (callsTo chatId (outbox w)) in
    let w' := setOutbox (outbox w ++ [mkDelivery chatId message ok]) w in
    if ok then (Ok tt, w') else (Throw TelegramError, w').

(** [sendTelegramMessage(message, chatId)]; the inner [try] only logs and
    throws again. *)
Definition sendTelegramMessage (message : jsstring) (chatId : option Z) : M unit :=
  (cfg <- reads config ;;
   let targetChatId := orElse chatId (TELEGRAM_CHAT_ID cfg) in
   let sendWithRetry :=
     tryCatch (bot_sendMessage targetChatId message) (fun error => throw error) in
   withRetry sendWithRetry (RETRY_ATTEMPTS cfg) (RETRY_DELAY_MS cfg) None)%world.

(** [error.message] of whatever was caught. *)
Definition messageOf (t : Thrown) : result jsstring :=
  match t with
  | ThrownError e => Ok (message e)
  | ThrownUndefined =>
      Throw (TypeError "Cannot read properties of undefined (reading 'message')")
  | ThrownValue _ => Ok (js "undefined")
  end.

(** [sendErrorNotification]: a failure to send is logged, not thrown. *)
Definition sendErrorNotification (error : Thrown) : M unit :=
  (msg <- liftResult (messageOf error) ;;
   let message :=
     js "⚠️ <b>Ошибка получения данных с hoe.com.ua</b>" ++ NL ++ NL ++ msg in
   tryCatch (sendTelegramMessage message None) (fun _ => ret tt))%world.

(** One result of [Promise.allSettled]. *)
Inductive Settled :=
| Fulfilled
| Rejected (reason : Thrown).

Definition settle (m : M unit) : M Settled :=
  fun w =>
    match m w with
    | (Ok _, w') => (Ok Fulfilled, w')
    | (Throw t, w') => (Ok (Rejected t), w')
    end.

(** [Promise.allSettled(xs.map(f))].  The promises start together and run
    concurrently: each is run from the time [start] at which the fan-out
    began, and the fan-out ends at the latest of the times they end.  The
    outcome of a send depends on the calls made for its own chat only, so
    the order in which the calls of different promises are recorded does
    not matter; they are recorded promise by promise. *)
Fixpoint allSettledFrom (start latest : Z) (ms : list (M unit)) : M (list Settled) :=
  match ms with
  | [] => fun w => (Ok [], setClock latest w)
  | m :: ms' =>
      (r <- (fun w => settle m (setClock start w)) ;;
       ended <- reads clock ;;
       rs <- allSettledFrom start (Z.max latest ended) ms' ;;
       ret (r :: rs))%world
  end.

Definition allSettled (ms : list (M unit)) : M (list Settled) :=
  fun w => allSettledFrom (clock w) (clock w) ms w.

(** The recipients of a broadcast. *)
Definition allRecipients (subscribers : list Z) (defaultChatId : Z) : list Z :=
  if includesId subscribers defaultChatId
  then subscribers
  else subscribers ++ [defaultChatId].

Definition isFulfilled (r : Settled) : bool :=
  match r with Fulfilled => true | Rejected _ => false end.

(** [sendMessageToAllSubscribers], returning the counts it logs
    ([successful], [failed]). *)
Definition sendMessageToAllSubscribers (message : jsstring) : M (nat * nat) :=
  (subscribers <- getSubscribers ;;
   cfg <- reads config ;;
   let defaultChatId := TELEGRAM_CHAT_ID cfg in
   let allRecipients := allRecipients subscribers defaultChatId in
   if (List.length allRecipients =? 0)%nat then ret (O, O)
   else
     (results <- allSettled
                   (map (fun chatId => sendTelegramMessage message (Some chatId))
                        allRecipients) ;;
      let successful := List.length (filter isFulfilled results) in
      let failed := List.length (filter (fun r => negb (isFulfilled r)) results) in
      ret (successful, failed)))%world.

(** ** src/providers/hoe.provider.ts: the request *)

Definition AppError (msg : jsstring) : Thrown :=
  ThrownError (mkError (js "AppError") msg).

(** What [fetchWithRetry] makes of the response text. *)
Definition interpretText (rt : Runtime) (text : jsstring) : result (list ShutdownEvent) :=
  if isHtmlResponse text then
    if isNoShutdownsAlert text then Ok []
    else
      let events := parseHtmlTable text in
      if (0 <? List.length events)%nat then Ok events
      else Ok []
  else
    match JSON_parse rt text with
    | None => Ok []
    | Some data => parseHoeResponse data
    end.

(** [fetchWithRetry]: one request. *)
Definition fetchWithRetry : M (list ShutdownEvent) :=
  fun w =>
    let w' := setRequests (S (requests w)) w in
    match upstream w (requests w) with
    | RequestFailed e => (Throw (ThrownError e), w')
    | Response ok httpStatus text =>
        if negb ok
        then (Throw (AppError (js "HOE API returned status " ++ decimal httpStatus)), w')
        else (interpretText (runtime w) text, w')
    end.

(** [fetchShutdownEvents()]; the callback only logs. *)
Definition fetchShutdownEvents : M (list ShutdownEvent) :=
  (cfg <- reads config ;;
   withRetry fetchWithRetry (RETRY_ATTEMPTS cfg) (RETRY_DELAY_MS cfg)
             (Some (fun _ _ => ret tt)))%world.

(** ** src/services/shutdown.service.ts *)

Record ShutdownCheckResult := {
  hasEvents : bool;
  events : list ShutdownEvent;
  formattedMessage : jsstring;
  contentHash : jsstring
}.

(** [checkShutdownEvents] *)
Definition checkShutdownEvents : M ShutdownCheckResult :=
  (events <- fetchShutdownEvents ;;
   rt <- reads runtime ;;
   let formattedMessage := formatShutdownMessage rt events in
   let contentHash := createContentHash formattedMessage in
   ret {| hasEvents := (0 <? List.length events)%nat;
          events := events;
          formattedMessage := formattedMessage;
          contentHash := contentHash |})%world.

(** ** src/services/notification.service.ts *)

(** [lastHash && hashesEqual(lastHash, contentHash)] *)
Definition unchanged (lastHash : option jsstring) (contentHash : jsstring) : bool :=
  match lastHash with
  | None => false
  | Some h => negb (jsEq h []) && hashesEqual h contentHash
  end.

(** [checkAndNotify] *)
Definition checkAndNotify : M unit :=
  tryCatch
    (result <- checkShutdownEvents ;;
     lastHash <- getLastMessageHash ;;
     if unchanged lastHash (contentHash result) then ret tt
     else
       (sendMessageToAllSubscribers (formattedMessage result) ;;
        updateLastMessageHash (contentHash result)))%world
    (fun error => (sendErrorNotification error ;; throw error)%world).

(** [forceNotify] *)
Definition forceNotify : M unit :=
  tryCatch
    (result <- checkShutdownEvents ;;
     sendMessageToAllSubscribers (formattedMessage result) ;;
     updateLastMessageHash (contentHash result))%world
    (fun error => (sendErrorNotification error ;; throw error)%world).

(** *** The retry contract as the specification reads it

    [FailedAttempts fn onRetry delayMs k w0 w]: started in [w0], the first
    [k] attempts have failed, each failure was handed to the callback
    together with its attempt number, the fixed delay was waited after
    each, and [w] is the world in which attempt [k + 1] starts. *)
Inductive FailedAttempts {T} (fn : M T) (onRetry : option (Error -> Z -> M unit))
  (delayMs : Z) : nat -> World -> World -> Prop :=
| FailedAttempts_none (w0 : World) :
    FailedAttempts fn onRetry delayMs 0 w0 w0
| FailedAttempts_more (k : nat) (w0 w w1 w2 : World) (failure : Thrown) :
    FailedAttempts fn onRetry delayMs k w0 w ->
    fn w = (Throw failure, w1) ->
    callOnRetry onRetry (toError failure) (Z.of_nat k + 1) w1 = (Ok tt, w2) ->
    FailedAttempts fn onRetry delayMs (S k) w0 (snd (delay delayMs w2)).

(** The callback returns normally (its type is [=> void]; the two callers
    pass a log line or nothing). *)
Definition callbackReturns (onRetry : option (Error -> Z -> M unit)) : Prop :=
  forall e a w, exists w', callOnRetry onRetry e a w = (Ok tt, w').

(** The state a call would load from the world. *)
Definition currentState (w : World) : StateData :=
  match fst (loadState w) with
  | Ok state => state
  | Throw _ => DEFAULT_STATE
  end.

(** What no operation of the bot changes: the runtime, the configuration,
    and how the disk, the upstream and Telegram will answer. *)
Definition sameEnvironment (w w' : World) : Prop :=
  runtime w' = runtime w /\ config w' = config w
  /\ diskWritable w' = diskWritable w /\ upstream w' = upstream w
  /\ telegram w' = telegram w.

(** [sentOnlyTo chats message w w']: from [w] to [w'] the only thing done
    was calling [sendMessage] with [message] for chats among [chats]
    (and letting time pass). *)
Definition sentOnlyTo (chats : list Z) (message : jsstring) (w w' : World) : Prop :=
  sameEnvironment w w'
  /\ stateFile w' = stateFile w
  /\ requests w' = requests w
  /\ exists ds, outbox w' = outbox w ++ ds
                /\ Forall (fun d => In (chat d) chats /\ text d = message) ds.

(** [onlyFetched w w']: from [w] to [w'] requests were made and time
    passed; nothing was sent and the state file was not touched. *)
Definition onlyFetched (w w' : World) : Prop :=
  sameEnvironment w w' /\ stateFile w' = stateFile w /\ outbox w' = outbox w.


(** [sameFor c wa wb]: two worlds that a send to chat [c] cannot tell
    apart: the same configuration, the same Telegram, the same calls made
    for [c] so far. *)
Definition sameFor (c : Z) (wa wb : World) : Prop :=
  config wa = config wb /\ telegram wa = telegram wb
  /\ deliveriesTo c (outbox wa) = deliveriesTo c (outbox wb).

(** ** Sample data

    Concrete inputs on which Part II evaluates the embedding. *)
Module Sample.

(** An outage table: an emergency row, a row of four cells, a planned
    row with markup inside a cell and a seventh cell. *)
Definition html : jsstring := js
"<div class='result'><table class='table table-shutdowns'>
<thead><tr><th>Work</th><th>Type</th></tr></thead>
<tbody>
<tr><td> <b>Ремонт</b> </td><td>Аварійне</td><td>1</td><td>2</td><td>15.01.2024 08:00</td><td>15.01.2024 12:00</td></tr>
<tr><td>a</td><td>b</td><td>c</td><td>d</td></tr>
<TR class='odd'><td>Заміна опори</td><td>Планове</td><td>-</td><td><a href='#'>3</a></td><td>16.01.2024 09:00</td><td>16.01.2024 17:00</td><td>note</td></TR>
</tbody></table></div>".

Definition tbody : jsstring :=
  match tbodyMatch html with Some t => t | None => [] end.

(** [{"id": 1, "date_start": "X", "date_end": "Y", "type": "T"}] *)
Definition raw : value :=
  VObject [(js "id", VNumber (js "1")); (js "date_start", VString (js "X"));
           (js "date_end", VString (js "Y")); (js "type", VString (js "T"))].

(** A JSON string literal. *)
Definition quoted (s : string) : jsstring := [34%N] ++ js s ++ [34%N].

(** [{"success": true}] and
    [{"data":[{"id":1,"date_start":"X","date_end":"Y","type":"T"}]}] *)
Definition successText : jsstring := js "{" ++ quoted "success" ++ js ": true}".

Definition dataText : jsstring :=
  js "{" ++ quoted "data" ++ js ":[{" ++ quoted "id" ++ js ":1,"
  ++ quoted "date_start" ++ js ":" ++ quoted "X" ++ js ","
  ++ quoted "date_end" ++ js ":" ++ quoted "Y" ++ js ","
  ++ quoted "type" ++ js ":" ++ quoted "T" ++ js "}]}".

(** [JSON.parse] on the sample bodies; any other text is taken not to be
    JSON. *)
Definition jsonReadings : list (jsstring * value) :=
  [(js "[null]", VArray [VNull]);
   (js "[]", VArray []);
   (successText, VObject [(js "success", VBool true)]);
   (dataText, VObject [(js "data", VArray [raw])])].

Definition json (text : jsstring) : option value := lookupProp text jsonReadings.

Definition utc : Runtime := fixedZone 0 json.
Definition kyivWinter : Runtime := fixedZone 120 json.

(** An event whose start is an instant in the ECMAScript format. *)
Definition isoEvent : ShutdownEvent :=
  {| id := IdString (js "1");
     dateStart := js "2024-01-15T23:30:00Z";
     dateEnd := js "";
     type := js "Ремонт";
     shutdownType := js "";
     queueGpv := js "-";
     queueGav := js "-";
     status := Planned;
     comment := None;
     address := None |}.

Definition cfg : Config :=
  {| TELEGRAM_CHAT_ID := 1000;
     RETRY_ATTEMPTS := 3;
     RETRY_DELAY_MS := 5000;
     REQUEST_TIMEOUT_MS := 30000 |}.

(** Chat 7 refuses every call; every other chat refuses the first call
    made for it and accepts the later ones. *)
Definition flakyTelegram (c : Z) (k : nat) : bool :=
  if c =? 7 then false else (1 <=? k)%nat.

(** First run: no state file; the upstream answers with the table. *)
Definition firstRun : World :=
  {| runtime := kyivWinter;
     config := cfg;
     stateFile := Missing;
     diskWritable := true;
     clock := 1705305600000;
     upstream := fun _ => Response true 200 html;
     requests := 0;
     telegram := flakyTelegram;
     outbox := [] |}.

(** Two subscribers, nothing broadcast yet. *)
Definition subscribed : World :=
  setStateFile
    (Stored {| stored_lastMessageHash := None;
               stored_lastCheckTime := None;
               stored_lastEventIds := None;
               stored_subscribers := Some [7; 42] |})
    firstRun.

(** The world after one completed cycle. *)
Definition afterFirstCycle : World := snd (checkAndNotify subscribed).

(** The upstream answers every request with the JSON text [[null]]. *)
Definition nullElement : World :=
  mkWorld kyivWinter cfg Missing true 1705305600000
          (fun _ => Response true 200 (js "[null]")) 0 flakyTelegram [].

(** Every request fails. *)
Definition fetchFailed : Error := mkError (js "TypeError") (js "fetch failed").

Definition offline : World :=
  mkWorld kyivWinter cfg Missing true 1705305600000
          (fun _ => RequestFailed fetchFailed) 0 flakyTelegram [].

(** The "no registered outage" banner. *)
Definition alert : jsstring := js
"<div class='alert alert-info'>За вказаною адресою відсутнє зареєстроване відключення</div>".

Definition checkOf (w : World) : ShutdownCheckResult :=
  match fst (checkShutdownEvents w) with
  | Ok res => res
  | Throw _ =>
      {| hasEvents := false; events := []; formattedMessage := []; contentHash := [] |}
  end.

End Sample.

(** *** A well-formed outage table

    The page the parser is written for, rendered from its rows: each row
    a list of cell texts without markup. *)
Module Render.

Definition cell (c : jsstring) : jsstring := js "<td>" ++ c ++ js "</td>".

Definition row (cells : list jsstring) : jsstring :=
  js "<tr>" ++ List.concat (map cell cells) ++ js "</tr>".

Definition body (rows : list (list jsstring)) : jsstring := List.concat (map row rows).

Definition table (rows : list (list jsstring)) : jsstring :=
  js "<table class='table table-shutdowns'><tbody>" ++ body rows
  ++ js "</tbody></table>".

(** A text without [<] and [>]. *)
Definition plainText (s : jsstring) : bool :=
  forallb (fun c => negb (c =? Regex.LT)%N && negb (c =? Regex.GT)%N) s.

(** Comparing the literal [p] with [s] finds a difference before [s]
    runs out: [p] matches no text that starts with [s]. *)
Fixpoint differsWithin (p s : jsstring) : bool :=
  match p, s with
  | a :: p', b :: s' =>
      if (Regex.canonicalize a =? Regex.canonicalize b)%N
      then differsWithin p' s' else true
  | _, _ => false
  end.

(** No match of [p] starts inside [s], whatever follows [s]. *)
Fixpoint noMatchInside (p s : jsstring) : bool :=
  match s with
  | [] => true
  | _ :: s' => differsWithin p s && noMatchInside p s'
  end.

(** Seven rows of six cells each. *)
Definition sevenRows : list (list jsstring) :=
  map (fun work => [js work; js "Планове"; js "1"; js "-";
                    js "15.01.2024 08:00"; js " 15.01.2024 12:00 "])
      ["A"; "B"; "C"; "D"; "E"; "F"; "G"]%string.

End Render.

(** ** src/providers/telegram.provider.ts: the command handlers

    The three callbacks that [initializeTelegramBot] hands to
    [bot.onText], as functions of [msg.chat.id] (the user name they also
    read goes to the log only).  Each answers with one direct call of
    [bot.sendMessage], without retry, and logs whatever is thrown instead
    of throwing it on.  A handler is run from start to end: two updates
    handled at once are not modelled. *)

Module Reply.

Definition subscribed : jsstring :=
  js "✅ Вы подписались на уведомления об отключениях электроэнергии." ++ NL ++ NL
  ++ js "Используйте /stop чтобы отписаться.".

Definition alreadySubscribed : jsstring :=
  js "ℹ️ Вы уже подписаны на уведомления." ++ NL ++ NL
  ++ js "Используйте /stop чтобы отписаться.".

Definition unsubscribed : jsstring :=
  js "🔕 Вы отписались от уведомлений." ++ NL ++ NL
  ++ js "Используйте /start чтобы подписаться снова.".

Definition notSubscribed : jsstring :=
  js "ℹ️ Вы не были подписаны на уведомления." ++ NL ++ NL
  ++ js "Используйте /start чтобы подписаться.".

Definition statusSubscribed : jsstring := js "✅ Вы подписаны на уведомления.".

Definition statusNotSubscribed : jsstring :=
  js "❌ Вы не подписаны на уведомления. Используйте /start".

End Reply.

(** The callback of [/\/start/]. *)
Definition onStart (chatId : Z) : M unit :=
  tryCatch
    (added <- addSubscriber chatId ;;
     if added
     then bot_sendMessage chatId Reply.subscribed
     else bot_sendMessage chatId Reply.alreadySubscribed)%world
    (fun _ => ret tt).

(** The callback of [/\/stop/]. *)
Definition onStop (chatId : Z) : M unit :=
  tryCatch
    (removed <- removeSubscriber chatId ;;
     if removed
     then bot_sendMessage chatId Reply.unsubscribed
     else bot_sendMessage chatId Reply.notSubscribed)%world
    (fun _ => ret tt).

(** The callback of [/\/status/]. *)
Definition onStatus (chatId : Z) : M unit :=
  tryCatch
    (subscribers <- getSubscribers ;;
     let isSubscribed := includesId subscribers chatId in
     bot_sendMessage chatId
       (if isSubscribed then Reply.statusSubscribed else Reply.statusNotSubscribed))%world
    (fun _ => ret tt).

(** ** src/index.ts: what the scheduler and the start-up run *)

(** The callback of [cron.schedule]: a failed check is logged. *)
Definition scheduledCheck : M unit :=
  tryCatch checkAndNotify (fun _ => ret tt).

(** [n] firings of the schedule, one after the other. *)
Fixpoint scheduledChecks (n : nat) : M unit :=
  match n with
  | O => ret tt
  | S n' => (scheduledCheck ;; scheduledChecks n')%world
  end.

(** The initial check of [main], run when [--check-now] is among the
    arguments. *)
Definition initialCheck (checkNow : bool) : M unit :=
  if checkNow then tryCatch forceNotify (fun _ => ret tt) else ret tt.
(** *** Attempts, one by one *)

(** The outcome of the attempt of [fetchWithRetry] that makes request
    number [j]. *)
Definition attemptAt (w : World) (j : nat) : result (list ShutdownEvent) :=
  fst (fetchWithRetry (setRequests j w)).

(** Will Telegram accept one of the next [RETRY_ATTEMPTS] calls made for
    chat [c]? *)
Definition willAccept (w : World) (c : Z) : bool :=
  existsb (fun i => telegram w c (callsTo c (outbox w) + i))
          (seq 0 (Z.to_nat (RETRY_ATTEMPTS (config w)))).

(** How the promise of a recipient settles. *)
Definition settledAs (w : World) (c : Z) : Settled :=
  if willAccept w c then Fulfilled else Rejected TelegramError.
(** *** The handlers' answers *)

(** The world after one call of [sendMessage] for a chat. *)
Definition answered (chatId : Z) (reply : jsstring) (w : World) : World :=
  setOutbox
    (outbox w ++ [mkDelivery chatId reply (telegram w chatId (callsTo chatId (outbox w)))])
    w.
(** *** Cycles *)

(** Telegram refuses every call. *)
Definition unreachable (w : World) : Prop := forall c k, telegram w c k = false.

(** [onlyRefused w w']: from [w] to [w'] calls of [sendMessage] were made
    and refused, and time passed; nothing else happened. *)
Definition onlyRefused (w w' : World) : Prop :=
  sameEnvironment w w' /\ stateFile w' = stateFile w /\ requests w' = requests w
  /\ exists ds, outbox w' = outbox w ++ ds /\ Forall (fun d => accepted d = false) ds.

(** The summary that [sendErrorNotification] sends for an error. *)
Definition errorSummary (e : Error) : jsstring :=
  js "⚠️ <b>Ошибка получения данных с hoe.com.ua</b>" ++ NL ++ NL ++ message e.
(** *** Clean cell texts *)

(** No complete tag: no [<] with a [>] somewhere after it. *)
Definition tagFree (s : jsstring) : Prop :=
  forall a b, s = a ++ Regex.LT :: b -> ~ In Regex.GT b.

(** A text that stripping the tags and trimming leave as it is. *)
Definition clean (s : jsstring) : Prop :=
  trim s = s /\ Regex.stripTags s = s.
(** *** Decimal numerals *)

Definition isDigit (c : N) : bool := ((48 <=? c) && (c <=? 57))%N.

(** The number a string of decimal digits denotes. *)
Definition numeral (s : jsstring) : Z :=
  fold_left (fun acc c => 10 * acc + (Z.of_N c - 48)) s 0.
(** ** src/providers/telegram.provider.ts: the bot instance

    The two module variables [botInstance] and [pollingEnabled] and the
    three functions that change them.  Of a [TelegramBot] object the
    sources use whether it polls and which command patterns have been
    registered with [onText]; whether [startPolling], [stopPolling] and
    [close] resolve or reject is up to the library and the network, and
    is given with each call. *)
Module Lifecycle.

Inductive Command := Start | Stop | Status.

Record Bot := mkBot {
  polling : bool;
  textHandlers : list Command
}.

Record Provider := mkProvider {
  botInstance : option Bot;
  pollingEnabled : bool
}.

(** Do [startPolling], [stopPolling] and [close] resolve? *)
Record Library := {
  startPolling_resolves : bool;
  stopPolling_resolves : bool;
  close_resolves : bool
}.

Definition initial : Provider := mkProvider None false.

(** [new TelegramBot(token, { polling: false })] *)
Definition newBot : Bot := mkBot false [].

(** [getTelegramBot] *)
Definition getTelegramBot (p : Provider) : Bot * Provider :=
  match botInstance p with
  | Some bot => (bot, p)
  | None => (newBot, mkProvider (Some newBot) (pollingEnabled p))
  end.

(** [initializeTelegramBot]: [bot] is the object [botInstance] refers to,
    so what is done to it is done to the instance. *)
Definition initializeTelegramBot (lib : Library) (p : Provider) : result unit * Provider :=
  let '(bot, p1) := getTelegramBot p in
  if pollingEnabled p1 then (Ok tt, p1)
  else if startPolling_resolves lib then
    (Ok tt,
     mkProvider (Some (mkBot true (textHandlers bot ++ [Start; Stop; Status]))) true)
  else (Throw TelegramError, p1).

(** [closeTelegramBot] *)
Definition closeTelegramBot (lib : Library) (p : Provider) : result unit * Provider :=
  match botInstance p with
  | None => (Ok tt, p)
  | Some bot =>
      if pollingEnabled p && negb (stopPolling_resolves lib)
      then (Throw TelegramError, p)
      else
        let bot1 := if pollingEnabled p then mkBot false (textHandlers bot) else bot in
        if close_resolves lib
        then (Ok tt, mkProvider None false)
        else (Throw TelegramError, mkProvider (Some bot1) false)
  end.

(** The two variables agree with the object: [pollingEnabled] holds
    exactly when there is an instance and it polls. *)
Definition consistent (p : Provider) : Prop :=
  match botInstance p with
  | Some bot => polling bot = pollingEnabled p
  | None => pollingEnabled p = false
  end.

End Lifecycle.
(** ** Further sample worlds *)
Module Scenario.

(** Two subscribers, and a Telegram that refuses every call. *)
Definition silent : World :=
  mkWorld (runtime Sample.subscribed) (config Sample.subscribed)
          (stateFile Sample.subscribed) true (clock Sample.subscribed)
          (upstream Sample.subscribed) 0 (fun _ _ => false) [].

(** Two subscribers, and a disk that refuses every write. *)
Definition readOnly : World :=
  mkWorld (runtime Sample.subscribed) (config Sample.subscribed)
          (stateFile Sample.subscribed) false (clock Sample.subscribed)
          (upstream Sample.subscribed) 0 (telegram Sample.subscribed) [].

(** The upstream answers 503, then fails, then answers with the table. *)
Definition recovering : World :=
  mkWorld (runtime Sample.firstRun) (config Sample.firstRun) Missing true
          (clock Sample.firstRun)
          (fun n => match n with
                    | O => Response false 503 (js "Service Unavailable")
                    | S O => RequestFailed Sample.fetchFailed
                    | _ => Response true 200 Sample.html
                    end)
          0 (telegram Sample.firstRun) [].

(** [stopPolling] resolves and [close] rejects; everything resolves. *)
Definition closeFails : Lifecycle.Library :=
  {| Lifecycle.startPolling_resolves := true;
     Lifecycle.stopPolling_resolves := true;
     Lifecycle.close_resolves := false |}.

Definition allResolve : Lifecycle.Library :=
  {| Lifecycle.startPolling_resolves := true;
     Lifecycle.stopPolling_resolves := true;
     Lifecycle.close_resolves := true |}.

End Scenario.
(** *** The elements of a JSON answer *)

(** The array a JSON answer carries: the answer itself, or the [data]
    property of an answer that is an object. *)
Definition elementsOf (data : value) : option (list value) :=
  match asArray data with
  | Some items => Some items
  | None =>
      if toBoolean data && typeofObject data
      then asArray (propOf data "data")
      else None
  end.

(* ===================================================================== *)
(** * Part II.  Properties                                                *)
(* ===================================================================== *)

#[local] Unset Implicit Arguments.

(** ** The HTML table parser *)

Section RegexFacts.

Import Regex.

Lemma literalCI_length (p s rest : jsstring) :
  literalCI p s = Some rest -> (List.length rest <= List.length s)%nat.
Proof.
  revert s; induction p as [|a p IH]; intros [|b s] H; simpl in H;
    try discriminate.
  - inversion H; auto.
  - inversion H; auto.
  - destruct (canonicalize a =? canonicalize b)%N; [|discriminate].
    apply IH in H. simpl. lia.
Qed.

Lemma closeTag_length (s rest : jsstring) :
  closeTag s = Some rest -> (List.length rest < List.length s)%nat.
Proof.
  induction s as [|c s IH]; simpl; [discriminate|].
  destruct (c =? GT)%N; intros H.
  - inversion H; subst. lia.
  - apply IH in H. lia.
Qed.

Lemma lazyUntil_length (cl s cap rest : jsstring) :
  lazyUntil cl s = Some (cap, rest) -> (List.length rest <= List.length s)%nat.
Proof.
  revert cap; induction s as [|c s IH]; intros cap; simpl.
  - destruct (literalCI cl []) eqn:E; [|discriminate].
    intros H; inversion H; subst. now apply literalCI_length in E.
  - destruct (literalCI cl (c :: s)) eqn:E.
    + intros H; inversion H; subst. now apply literalCI_length in E.
    + destruct (lazyUntil cl s) as [[cap' rest']|] eqn:E'; [|discriminate].
      intros H; inversion H; subst. specialize (IH _ eq_refl). lia.
Qed.

Lemma matchAt_length (re : element) (s cap rest : jsstring) :
  matchAt re s = Some (cap, rest) -> (List.length rest < List.length s)%nat.
Proof.
  unfold matchAt.
  destruct (literalCI (open re) s) as [s1|] eqn:E1; [|discriminate].
  destruct (closeTag s1) as [s2|] eqn:E2; [|discriminate].
  intros H. apply literalCI_length in E1. apply closeTag_length in E2.
  apply lazyUntil_length in H. lia.
Qed.

(** Every match consumes at least one character, so the two [while]
    loops of the parser terminate. *)
Lemma exec_length (re : element) (s cap rest : jsstring) :
  exec re s = Some (cap, rest) -> (List.length rest < List.length s)%nat.
Proof.
  induction s as [|c s IH]; simpl.
  - destruct (matchAt re []) as [[c0 r0]|] eqn:E; [|discriminate].
    intros H; inversion H; subst. now apply matchAt_length in E.
  - destruct (matchAt re (c :: s)) as [[c0 r0]|] eqn:E.
    + intros H; inversion H; subst. now apply matchAt_length in E.
    + intros H. apply IH in H. lia.
Qed.

End RegexFacts.

(** More fuel than the text is long changes nothing: [execAll] with the
    fuel used by [tableRows] and [rowCells] lists every match. *)
Lemma execAll_fuel (re : Regex.element) (f1 f2 : nat) (s : jsstring) :
  (List.length s < f1)%nat -> (List.length s < f2)%nat ->
  execAll f1 re s = execAll f2 re s.
Proof.
  revert f2 s; induction f1 as [|f1 IH]; intros f2 s H1 H2; [lia|].
  destruct f2 as [|f2]; [lia|]. simpl.
  destruct (Regex.exec re s) as [[cap rest]|] eqn:E; [|reflexivity].
  apply exec_length in E. f_equal. apply IH; lia.
Qed.

(** The inner loop pushes exactly the stripped and trimmed cells. *)
Lemma cellLoop_spec (fuel : nat) (rowHtml : jsstring) (cells : list jsstring) :
  cellLoop fuel rowHtml cells =
  cells ++ map (fun cell => trim (Regex.stripTags cell))
               (execAll fuel Regex.cellRegex rowHtml).
Proof.
  revert rowHtml cells; induction fuel as [|fuel IH]; intros rowHtml cells; simpl.
  - now rewrite app_nil_r.
  - destruct (Regex.exec Regex.cellRegex rowHtml) as [[cell rest]|]; simpl.
    + rewrite IH, <- app_assoc. reflexivity.
    + now rewrite app_nil_r.
Qed.

Lemma extractCells_rowCells (rowHtml : jsstring) :
  extractCells rowHtml = rowCells rowHtml.
Proof. unfold extractCells, rowCells. now rewrite cellLoop_spec. Qed.


Lemma idsFrom_length (start : Z) (n : nat) : List.length (idsFrom start n) = n.
Proof. revert start; induction n; intros; simpl; auto. Qed.

(** The outer loop, for any value of its two variables: it appends one
    event per qualifying row, numbered from [eventId] on. *)
Lemma rowLoop_spec (fuel : nat) (tbody : jsstring) (eventId : Z)
  (events : list ShutdownEvent) :
  let rows := filter hasSixCells (map rowCells (execAll fuel Regex.rowRegex tbody)) in
  rowLoop fuel tbody eventId events =
  events ++ map (fun p => rowEvent (fst p) (snd p))
                (combine (idsFrom eventId (List.length rows)) rows).
Proof.
  revert tbody eventId events; induction fuel as [|fuel IH];
    intros tbody eventId events; cbn [rowLoop execAll].
  - cbn. now rewrite app_nil_r.
  - destruct (Regex.exec Regex.rowRegex tbody) as [[rowHtml rest]|];
      cbn [map filter].
    + rewrite extractCells_rowCells.
      change (6 <=? List.length (rowCells rowHtml))%nat
        with (hasSixCells (rowCells rowHtml)).
      destruct (hasSixCells (rowCells rowHtml)).
      * rewrite IH, <- app_assoc. reflexivity.
      * apply IH.
    + cbn. now rewrite app_nil_r.
Qed.



(** ** The JSON path *)

Lemma rbind_Ok {A B} (r : result A) (k : A -> result B) (b : B) :
  rbind r k = Ok b -> exists a, r = Ok a /\ k a = Ok b.
Proof. destruct r as [a|t]; simpl; [eauto|discriminate]. Qed.

Ltac invert_binds H :=
  repeat (let a := fresh "v" in
          let Ha := fresh "Hv" in
          apply rbind_Ok in H; destruct H as (a & Ha & H)).

Lemma getProp_propOf (raw : value) (k : string) (v : value) :
  getProp raw k = Ok v -> v = propOf raw k.
Proof. unfold propOf. now intros ->. Qed.

Lemma coalesce_find (vs : list value) (d : value) :
  fold_right coalesce d vs =
  match find (fun v => negb (isNullish v)) vs with
  | Some v => v
  | None => d
  end.
Proof.
  induction vs as [|v vs IH]; simpl; [reflexivity|].
  unfold coalesce at 1. destruct (isNullish v); simpl; auto.
Qed.

Lemma toString_default (raw : value) (aliases : list string) (d s : jsstring) :
  toString (fold_right coalesce (VString d) (map (propOf raw) aliases)) = Ok s ->
  fieldFrom raw aliases d s.
Proof.
  rewrite coalesce_find. unfold fieldFrom, firstPresent.
  destruct (find _ _); simpl; [auto|congruence].
Qed.

(** The claim as written fails: an element without the fields normalizes
    to an event whose [dateStart] and [dateEnd] are empty. *)
Lemma normalizeEvent_empty_dates :
  exists e, normalizeEvent (VObject []) = Ok e
            /\ dateStart e = [] /\ dateEnd e = [].
Proof. eexists. split; [reflexivity|]. split; reflexivity. Qed.

(** So does [type], when upstream sends it empty. *)
Lemma normalizeEvent_empty_type :
  exists e, normalizeEvent (VObject [(js "type", VString [])]) = Ok e
            /\ type e = [].
Proof. eexists. split; [vm_compute; reflexivity|reflexivity]. Qed.

(** C2 (amended).  Whenever [normalizeEvent] returns an event, its
    [dateStart], [dateEnd] and [type] are strings obtained by [String]
    from the first alias that is present in the raw element; when every
    alias is absent or null the field is the default: the empty string for
    [dateStart] and [dateEnd], the "unknown" marker for [type].  The
    fields are never null or undefined, but they can be empty. *)
Theorem normalizeEvent_required_fields (raw : value) (e : ShutdownEvent) :
  normalizeEvent raw = Ok e ->
  fieldFrom raw ["dateStart"; "date_start"; "startDate"]%string [] (dateStart e)
  /\ fieldFrom raw ["dateEnd"; "date_end"; "endDate"]%string [] (dateEnd e)
  /\ fieldFrom raw ["type"; "eventType"]%string Unknown (type e).
Proof.
  unfold normalizeEvent. intros H. invert_binds H.
  inversion H; subst e; clear H. cbn [dateStart dateEnd type].
  repeat match goal with
         | G : getProp raw _ = Ok _ |- _ => apply getProp_propOf in G; subst
         end.
  repeat split; now apply toString_default.
Qed.

Lemma toString_primitive (v : value) :
  isPrimitive v = true -> toString v = Ok (render v).
Proof.
  unfold render. destruct v as [| |[|]| | | |]; simpl; intros H;
    try reflexivity; discriminate.
Qed.

Lemma lookupProp_primitive (k : jsstring) (props : list (jsstring * value)) (v : value) :
  forallb (fun p => isPrimitive (snd p)) props = true ->
  lookupProp k props = Some v -> isPrimitive v = true.
Proof.
  induction props as [|[k' v'] props IH]; simpl; [discriminate|].
  intros H. apply andb_prop in H. destruct H as [H1 H2].
  destruct (jsEq k k'); [intros E; inversion E; subst; exact H1 | auto].
Qed.

Lemma plainRecord_getProp (raw : value) (k : string) :
  plainRecord raw = true ->
  getProp raw k = Ok (propOf raw k) /\ isPrimitive (propOf raw k) = true.
Proof.
  unfold propOf. destruct raw as [| | | | | |props]; simpl; intros H;
    try discriminate; try (split; reflexivity).
  split; [reflexivity|].
  destruct (lookupProp (js k) props) eqn:E; [|reflexivity].
  eapply lookupProp_primitive; eauto.
Qed.

Lemma coalesce_primitive (a b : value) :
  isPrimitive a = true -> isPrimitive b = true -> isPrimitive (a ?? b) = true.
Proof. unfold coalesce. destruct (isNullish a); auto. Qed.

(** On an element of the expected kind [normalizeEvent] returns, and
    returns the event the specification describes. *)
Lemma normalizeEvent_plainRecord (raw : value) :
  plainRecord raw = true -> normalizeEvent raw = Ok (normalized raw).
Proof.
  intros H. unfold normalizeEvent, normalized, stringField, optionalField.
  assert (G : forall k, getProp raw k = Ok (propOf raw k))
    by (intros k; now apply plainRecord_getProp).
  assert (P : forall k, isPrimitive (propOf raw k) = true)
    by (intros k; now apply plainRecord_getProp).
  repeat (rewrite G; cbn [rbind]).
  repeat (rewrite toString_primitive;
          [cbn [rbind]
          |repeat apply coalesce_primitive; solve [apply P | reflexivity]]).
  cbn [map fold_right].
  destruct (toBoolean (propOf raw "comment")), (toBoolean (propOf raw "address"));
    repeat (rewrite toString_primitive by apply P; cbn [rbind]); reflexivity.
Qed.

Lemma mapR_Ok {A B} (f : A -> result B) (g : A -> B) (xs : list A) :
  Forall (fun x => f x = Ok (g x)) xs -> mapR f xs = Ok (map g xs).
Proof.
  induction 1 as [|x xs Hx _ IH]; simpl; [reflexivity|].
  now rewrite Hx, IH.
Qed.

Lemma normalizeEvent_all_plain (items : list value) :
  forallb plainRecord items = true ->
  mapR normalizeEvent items = Ok (map normalized items).
Proof.
  intros H. apply mapR_Ok. apply Forall_forall. intros x Hx.
  apply normalizeEvent_plainRecord.
  rewrite forallb_forall in H. now apply H.
Qed.

(** The shapes of [parseHoeResponse], one lemma each. *)

Lemma parseHoeResponse_array (items : list value) :
  forallb plainRecord items = true ->
  parseHoeResponse (VArray items) = Ok (map normalized items).
Proof. intros H. simpl. now apply normalizeEvent_all_plain. Qed.

Lemma parseHoeResponse_data_array (props : list (jsstring * value)) (items : list value) :
  lookupProp (js "data") props = Some (VArray items) ->
  forallb plainRecord items = true ->
  parseHoeResponse (VObject props) = Ok (map normalized items).
Proof.
  intros Hd H. unfold parseHoeResponse. cbn [asArray toBoolean typeofObject andb].
  unfold getProp at 1. rewrite Hd. cbn [rbind getProp asArray].
  now apply normalizeEvent_all_plain.
Qed.

Lemma parseHoeResponse_success_no_data (props : list (jsstring * value)) :
  lookupProp (js "success") props = Some (VBool true) ->
  lookupProp (js "data") props = None ->
  parseHoeResponse (VObject props) = Ok [].
Proof.
  intros Hs Hd. unfold parseHoeResponse. cbn [asArray toBoolean typeofObject andb].
  unfold getProp. rewrite Hd, Hs. reflexivity.
Qed.


Lemma parseHoeResponse_other_shape (data : value) :
  asArray data = None ->
  asArray (propOf data "data") = None ->
  parseHoeResponse data = Ok [].
Proof.
  intros Ha Hd. unfold parseHoeResponse. rewrite Ha.
  destruct (toBoolean data && typeofObject data) eqn:E; [|reflexivity].
  destruct data as [| | | | | |props]; simpl in E;
    try reflexivity; try discriminate.
  unfold propOf in Hd. simpl in *.
  destruct (lookupProp (js "data") props) as [d|]; simpl in *.
  - rewrite Hd. now destruct (_ && _).
  - now destruct (_ && _).
Qed.

(** C3 (the code departs from the claim).  The response body [[null]] is
    not classified as HTML and parses as a JSON array; [parseHoeResponse]
    then calls [normalizeEvent(null)], whose first property read throws a
    TypeError, where the claim promises a normalized or empty sequence and
    no throw. *)
Theorem interpretText_null_element_throws :
  isHtmlResponse (js "[null]") = false
  /\ JSON_parse Sample.utc (js "[null]") = Some (VArray [VNull])
  /\ interpretText Sample.utc (js "[null]")
     = Throw (TypeError "Cannot read properties of null (reading 'id')").
Proof. repeat split; vm_compute; reflexivity. Qed.

(** The same at the level of [parseHoeResponse], for an array and for a
    [data] array. *)
Lemma parseHoeResponse_null_element_throws :
  parseHoeResponse (VArray [VNull])
  = Throw (TypeError "Cannot read properties of null (reading 'id')")
  /\ parseHoeResponse (VObject [(js "data", VArray [VNull])])
     = Throw (TypeError "Cannot read properties of null (reading 'id')").
Proof. split; vm_compute; reflexivity. Qed.

(** For every runtime: a text that is not HTML and that [JSON.parse] reads
    as an array with a [null] element makes [interpretText] throw. *)
Lemma interpretText_null_throws (rt : Runtime) (text : jsstring) (items : list value) :
  isHtmlResponse text = false ->
  JSON_parse rt text = Some (VArray (VNull :: items)) ->
  interpretText rt text
  = Throw (TypeError "Cannot read properties of null (reading 'id')").
Proof. intros Hh Hj. unfold interpretText. rewrite Hh, Hj. reflexivity. Qed.

(** The other branches of the claim hold on the code: a text that is
    neither HTML nor JSON yields the empty sequence. *)
Lemma interpretText_not_json (rt : Runtime) (text : jsstring) :
  isHtmlResponse text = false ->
  JSON_parse rt text = None ->
  interpretText rt text = Ok [].
Proof. intros Hh Hj. unfold interpretText. now rewrite Hh, Hj. Qed.

(** ** The retry executor *)

Section Retry.

Context {T : Type} (fn : M T) (attempts delayMs : Z)
        (onRetry : option (Error -> Z -> M unit)).

Lemma retryLoop_step_ok (fuel : nat) (a : Z) (last : option Error)
  (w w' : World) (v : T) :
  a <= attempts -> fn w = (Ok v, w') ->
  retryLoop (S fuel) fn attempts delayMs onRetry a last w = (Ok v, w').
Proof.
  intros Ha Hfn. cbn [retryLoop].
  destruct (a <=? attempts) eqn:E; [|apply Z.leb_gt in E; lia].
  unfold tryCatch. now rewrite Hfn.
Qed.

Lemma retryLoop_step_retry (fuel : nat) (a : Z) (last : option Error)
  (w w1 w2 : World) (t : Thrown) :
  a < attempts -> fn w = (Throw t, w1) ->
  callOnRetry onRetry (toError t) a w1 = (Ok tt, w2) ->
  retryLoop (S fuel) fn attempts delayMs onRetry a last w
  = retryLoop fuel fn attempts delayMs onRetry (a + 1) (Some (toError t))
              (snd (delay delayMs w2)).
Proof.
  intros Ha Hfn Hcb. cbn [retryLoop].
  destruct (a <=? attempts) eqn:E; [|apply Z.leb_gt in E; lia].
  destruct (a <? attempts) eqn:E'; [|apply Z.ltb_ge in E'; lia].
  unfold tryCatch. rewrite Hfn. unfold bind at 1. unfold bind at 1.
  rewrite Hcb. reflexivity.
Qed.

Lemma retryLoop_step_last (a : Z) (last : option Error)
  (w w1 : World) (t : Thrown) :
  a = attempts -> fn w = (Throw t, w1) ->
  retryLoop 1 fn attempts delayMs onRetry a last w
  = (Throw (ThrownError (toError t)), w1).
Proof.
  intros Ha Hfn. cbn [retryLoop]. subst a. rewrite Z.leb_refl, Z.ltb_irrefl.
  unfold tryCatch. rewrite Hfn. reflexivity.
Qed.

(** The loop, entered at attempt [k + 1] after [k] failed attempts. *)
Lemma retryLoop_run (w0 : World) :
  callbackReturns onRetry ->
  forall (fuel k : nat) (w : World) (last : option Error),
    Z.of_nat k + Z.of_nat fuel = attempts -> (0 < fuel)%nat ->
    FailedAttempts fn onRetry delayMs k w0 w ->
    exists (k' : nat) (w' : World),
      FailedAttempts fn onRetry delayMs k' w0 w' /\ Z.of_nat k' < attempts
      /\ match fn w' with
         | (Ok v, w'') =>
             retryLoop fuel fn attempts delayMs onRetry (Z.of_nat k + 1) last w
             = (Ok v, w'')
         | (Throw failure, w'') =>
             Z.of_nat k' + 1 = attempts
             /\ retryLoop fuel fn attempts delayMs onRetry (Z.of_nat k + 1) last w
                = (Throw (ThrownError (toError failure)), w'')
         end.
Proof.
  intros Hcb fuel. induction fuel as [|fuel IH]; intros k w last Hsum Hpos HF; [lia|].
  destruct (fn w) as [[v|t] w1] eqn:Hfn.
  - exists k, w. split; [exact HF|]. split; [lia|]. rewrite Hfn.
    apply retryLoop_step_ok; [lia|exact Hfn].
  - destruct fuel as [|fuel].
    + exists k, w. split; [exact HF|]. split; [lia|]. rewrite Hfn.
      split; [lia|]. apply retryLoop_step_last; [lia|exact Hfn].
    + destruct (Hcb (toError t) (Z.of_nat k + 1) w1) as [w2 Hw2].
      assert (HF' : FailedAttempts fn onRetry delayMs (S k) w0 (snd (delay delayMs w2)))
        by (eapply FailedAttempts_more; eauto).
      destruct (IH (S k) _ (Some (toError t)) ltac:(lia) ltac:(lia) HF')
        as (k' & w' & HFk & Hlt & Hrun).
      exists k', w'. split; [exact HFk|]. split; [exact Hlt|].
      rewrite (retryLoop_step_retry (S fuel) (Z.of_nat k + 1) last w w1 w2 t ltac:(lia) Hfn Hw2).
      replace (Z.of_nat k + 1 + 1) with (Z.of_nat (S k) + 1) by lia.
      exact Hrun.
Qed.

(** A relation on worlds that every step of the loop respects is
    respected by the loop. *)
Lemma retryLoop_respects (R : World -> World -> Prop) :
  (forall w, R w w) ->
  (forall w1 w2 w3, R w1 w2 -> R w2 w3 -> R w1 w3) ->
  (forall w, R w (snd (fn w))) ->
  (forall e a w, R w (snd (callOnRetry onRetry e a w))) ->
  (forall w, R w (snd (delay delayMs w))) ->
  forall fuel a last w,
    R w (snd (retryLoop fuel fn attempts delayMs onRetry a last w)).
Proof.
  intros Hrefl Htrans Hfn Hcb Hdelay fuel.
  induction fuel as [|fuel IH]; intros a last w; cbn [retryLoop].
  - destruct last; apply Hrefl.
  - destruct (a <=? attempts); [|destruct last; apply Hrefl].
    unfold tryCatch. specialize (Hfn w).
    destruct (fn w) as [[v|t] w1]; [exact Hfn|]. simpl in Hfn.
    eapply Htrans; [exact Hfn|].
    destruct (a <? attempts).
    + unfold bind at 1. unfold bind at 1.
      specialize (Hcb (toError t) a w1).
      destruct (callOnRetry onRetry (toError t) a w1) as [[[]|t'] w2];
        simpl in Hcb; [|exact Hcb].
      eapply Htrans; [exact Hcb|].
      eapply Htrans; [apply Hdelay|]. apply IH.
    + unfold bind, ret. apply IH.
Qed.

End Retry.

(** One iteration of the loop, spelled out. *)
Lemma retryLoop_unfold {T} (fn : M T) (attempts delayMs : Z)
  (onRetry : option (Error -> Z -> M unit)) (fuel : nat) (a : Z)
  (last : option Error) (w : World) :
  retryLoop (S fuel) fn attempts delayMs onRetry a last w =
  if a <=? attempts then
    match fn w with
    | (Ok v, w1) => (Ok v, w1)
    | (Throw t, w1) =>
        if a <? attempts then
          match callOnRetry onRetry (toError t) a w1 with
          | (Ok _, w2) =>
              retryLoop fuel fn attempts delayMs onRetry (a + 1) (Some (toError t))
                        (snd (delay delayMs w2))
          | (Throw t', w2) => (Throw t', w2)
          end
        else retryLoop fuel fn attempts delayMs onRetry (a + 1) (Some (toError t)) w1
    end
  else throwLast last w.
Proof.
  cbn [retryLoop]. destruct (a <=? attempts); [|reflexivity].
  unfold tryCatch. destruct (fn w) as [[v|t] w1]; [reflexivity|].
  destruct (a <? attempts); unfold bind, ret; [|reflexivity].
  destruct (callOnRetry onRetry (toError t) a w1) as [[[]|t'] w2]; reflexivity.
Qed.

(** Two runs of the loop from worlds that the operation, the callback
    and the delay cannot tell apart end alike. *)
Lemma retryLoop_lockstep {T} (fn : M T) (attempts delayMs : Z)
  (onRetry : option (Error -> Z -> M unit)) (R : World -> World -> Prop) :
  (forall wa wb, R wa wb -> fst (fn wa) = fst (fn wb) /\ R (snd (fn wa)) (snd (fn wb))) ->
  (forall e a wa wb, R wa wb ->
      fst (callOnRetry onRetry e a wa) = fst (callOnRetry onRetry e a wb)
      /\ R (snd (callOnRetry onRetry e a wa)) (snd (callOnRetry onRetry e a wb))) ->
  (forall wa wb, R wa wb -> R (snd (delay delayMs wa)) (snd (delay delayMs wb))) ->
  forall fuel a last wa wb,
    R wa wb ->
    fst (retryLoop fuel fn attempts delayMs onRetry a last wa)
    = fst (retryLoop fuel fn attempts delayMs onRetry a last wb)
    /\ R (snd (retryLoop fuel fn attempts delayMs onRetry a last wa))
         (snd (retryLoop fuel fn attempts delayMs onRetry a last wb)).
Proof.
  intros Hfn Hcb Hdelay fuel.
  induction fuel as [|fuel IH]; intros a last wa wb HR.
  - cbn [retryLoop]. destruct last; simpl; auto.
  - rewrite !retryLoop_unfold.
    destruct (a <=? attempts); [|destruct last; simpl; auto].
    destruct (Hfn wa wb HR) as [E1 R1].
    destruct (fn wa) as [[va|ta] wa1], (fn wb) as [[vb|tb] wb1];
      simpl in E1, R1; try discriminate.
    + simpl. split; [exact E1|exact R1].
    + inversion E1; subst tb; clear E1.
      destruct (a <? attempts); [|now apply IH].
      destruct (Hcb (toError ta) a wa1 wb1 R1) as [E2 R2].
      destruct (callOnRetry onRetry (toError ta) a wa1) as [[[]|ca] wa2],
               (callOnRetry onRetry (toError ta) a wb1) as [[[]|cb] wb2];
        simpl in E2, R2; try discriminate.
      * apply IH. apply Hdelay. exact R2.
      * simpl. split; [congruence|exact R2].
Qed.


(** ** The state store *)

Lemma loadState_currentState (w : World) : loadState w = (Ok (currentState w), w).
Proof. unfold currentState, loadState. destruct (stateFile w); reflexivity. Qed.

Lemma currentState_stored (state : StateData) (w : World) :
  currentState (setStateFile (Stored (stringified state)) w) = state.
Proof. destruct state; reflexivity. Qed.

Lemma includesId_In (xs : list Z) (x : Z) : includesId xs x = true <-> In x xs.
Proof.
  unfold includesId. rewrite existsb_exists. split.
  - intros (y & Hy & E). apply Z.eqb_eq in E. now subst.
  - intros H. exists x. split; [exact H|apply Z.eqb_refl].
Qed.

Lemma includesId_false (xs : list Z) (x : Z) : includesId xs x = false <-> ~ In x xs.
Proof.
  rewrite <- includesId_In. destruct (includesId xs x); split; congruence.
Qed.

Lemma NoDup_snoc (xs : list Z) (x : Z) : NoDup xs -> ~ In x xs -> NoDup (xs ++ [x]).
Proof.
  induction xs as [|y xs IH]; simpl; intros Hnd Hin.
  - constructor; [auto|constructor].
  - inversion Hnd; subst. constructor.
    + rewrite in_app_iff. simpl. intros [H|[H|[]]]; [auto|subst; auto].
    + apply IH; auto.
Qed.

Lemma count_occ_snoc_absent (xs : list Z) (x : Z) :
  ~ In x xs -> count_occ Z.eq_dec (xs ++ [x]) x = 1%nat.
Proof.
  intros H. rewrite count_occ_app.
  apply (count_occ_not_In Z.eq_dec) in H. rewrite H. simpl.
  destruct (Z.eq_dec x x); [reflexivity|congruence].
Qed.

(** What one call of [addSubscriber] does. *)
Lemma addSubscriber_present (chatId : Z) (w : World) :
  includesId (subscribers (currentState w)) chatId = true ->
  addSubscriber chatId w = (Ok false, w).
Proof.
  intros H. unfold addSubscriber, bind. rewrite loadState_currentState, H.
  reflexivity.
Qed.

Lemma addSubscriber_absent (chatId : Z) (w : World) :
  includesId (subscribers (currentState w)) chatId = false ->
  diskWritable w = true ->
  exists w',
    addSubscriber chatId w = (Ok true, w')
    /\ subscribers (currentState w') = subscribers (currentState w) ++ [chatId]
    /\ diskWritable w' = true.
Proof.
  intros H Hd. unfold addSubscriber, bind. rewrite loadState_currentState, H.
  unfold saveState. rewrite Hd. eexists. split; [reflexivity|].
  rewrite currentState_stored. split; [reflexivity|exact Hd].
Qed.

Lemma addSubscriber_NoDup (chatId : Z) (w : World) :
  NoDup (subscribers (currentState w)) ->
  NoDup (subscribers (currentState (snd (addSubscriber chatId w)))).
Proof.
  intros Hnd. destruct (includesId (subscribers (currentState w)) chatId) eqn:E.
  - now rewrite addSubscriber_present.
  - unfold addSubscriber, bind. rewrite loadState_currentState, E.
    unfold saveState. destruct (diskWritable w); cbn [snd]; [|exact Hnd].
    unfold ret. cbn [snd]. rewrite currentState_stored. cbn [subscribers].
    apply NoDup_snoc; [exact Hnd|now apply includesId_false].
Qed.

(** C5.  From a state in which [chatId] is not subscribed (and with a disk
    that takes the write), [addSubscriber(chatId)] called twice returns
    [true], then [false]; the second call changes nothing, and the stored
    list holds [chatId] exactly once.  Whatever the id and the state, a
    call leaves a duplicate-free subscriber list duplicate-free. *)
Theorem addSubscriber_idempotent (chatId : Z) (w : World) :
  ~ In chatId (subscribers (currentState w)) ->
  diskWritable w = true ->
  (exists w1,
     addSubscriber chatId w = (Ok true, w1)
     /\ addSubscriber chatId w1 = (Ok false, w1)
     /\ count_occ Z.eq_dec (subscribers (currentState w1)) chatId = 1%nat)
  /\ (forall (anyId : Z) (anyWorld : World),
        NoDup (subscribers (currentState anyWorld)) ->
        NoDup (subscribers (currentState (snd (addSubscriber anyId anyWorld))))).
Proof.
  intros Habs Hd. split; [|intros; now apply addSubscriber_NoDup].
  destruct (addSubscriber_absent chatId w) as (w1 & H1 & Hs & Hd1);
    [now apply includesId_false|exact Hd|].
  exists w1. split; [exact H1|]. split.
  - apply addSubscriber_present. rewrite Hs. apply includesId_In.
    rewrite in_app_iff. right. now left.
  - rewrite Hs. now apply count_occ_snoc_absent.
Qed.

(** C10.  [updateLastMessageHash] leaves the subscribers and the last
    event ids of the persisted state as they were, whatever the prior
    state and whether or not the write succeeds; when it succeeds the
    state holds the new hash and the time of the call, and nothing but
    the state file has changed in the world. *)
Theorem updateLastMessageHash_frame (hash : jsstring) (w : World) :
  let w' := snd (updateLastMessageHash hash w) in
  subscribers (currentState w') = subscribers (currentState w)
  /\ lastEventIds (currentState w') = lastEventIds (currentState w)
  /\ (fst (updateLastMessageHash hash w) = Ok tt ->
      lastMessageHash (currentState w') = Some hash
      /\ lastCheckTime (currentState w') = Some (toISOString (clock w))
      /\ w' = setStateFile (stateFile w') w).
Proof.
  cbv zeta.
  unfold updateLastMessageHash, bind, now, reads. rewrite loadState_currentState.
  unfold saveState. destruct (diskWritable w); cbn [snd fst].
  - rewrite currentState_stored.
    cbn [subscribers lastEventIds lastMessageHash lastCheckTime].
    split; [reflexivity|]. split; [reflexivity|]. intros _.
    split; [reflexivity|]. split; reflexivity.
  - split; [reflexivity|]. split; [reflexivity|]. discriminate.
Qed.

(** ** The notification dispatcher *)

Lemma sameEnvironment_refl (w : World) : sameEnvironment w w.
Proof. unfold sameEnvironment. auto. Qed.

Lemma sameEnvironment_trans (w1 w2 w3 : World) :
  sameEnvironment w1 w2 -> sameEnvironment w2 w3 -> sameEnvironment w1 w3.
Proof.
  unfold sameEnvironment. intros (A1 & A2 & A3 & A4 & A5) (B1 & B2 & B3 & B4 & B5).
  repeat split; congruence.
Qed.

Lemma sentOnlyTo_refl (chats : list Z) (m : jsstring) (w : World) :
  sentOnlyTo chats m w w.
Proof.
  unfold sentOnlyTo. split; [apply sameEnvironment_refl|]. repeat split.
  exists []. now rewrite app_nil_r.
Qed.

Lemma sentOnlyTo_trans (chats : list Z) (m : jsstring) (w1 w2 w3 : World) :
  sentOnlyTo chats m w1 w2 -> sentOnlyTo chats m w2 w3 -> sentOnlyTo chats m w1 w3.
Proof.
  intros (E1 & S1 & R1 & ds1 & O1 & F1) (E2 & S2 & R2 & ds2 & O2 & F2).
  split; [eapply sameEnvironment_trans; eauto|].
  split; [congruence|]. split; [congruence|].
  exists (ds1 ++ ds2). split.
  - now rewrite O2, O1, app_assoc.
  - apply Forall_app. auto.
Qed.

Lemma sentOnlyTo_weaken (chats chats' : list Z) (m : jsstring) (w w' : World) :
  incl chats chats' -> sentOnlyTo chats m w w' -> sentOnlyTo chats' m w w'.
Proof.
  intros Hi (E & S & R & ds & O & F). split; [exact E|]. repeat split; auto.
  exists ds. split; [exact O|]. eapply Forall_impl; [|exact F].
  intros d [H1 H2]. auto.
Qed.

Lemma delay_sentOnlyTo (chats : list Z) (m : jsstring) (ms : Z) (w : World) :
  sentOnlyTo chats m w (snd (delay ms w)).
Proof.
  unfold sentOnlyTo, sameEnvironment, delay. simpl. repeat split.
  exists []. now rewrite app_nil_r.
Qed.

(** One call of [bot.sendMessage]: one more delivery, for that chat. *)
Lemma bot_sendMessage_outbox (c : Z) (m : jsstring) (w : World) :
  exists ok,
    outbox (snd (bot_sendMessage c m w)) = outbox w ++ [mkDelivery c m ok]
    /\ sentOnlyTo [c] m w (snd (bot_sendMessage c m w)).
Proof.
  unfold bot_sendMessage.
  exists (telegram w c (callsTo c (outbox w))).
  destruct (telegram w c (callsTo c (outbox w))); simpl;
    (split; [reflexivity|]);
    unfold sentOnlyTo, sameEnvironment; simpl; repeat split;
    eexists; (split; [reflexivity|]); repeat constructor.
Qed.

Lemma FailedAttempts_respects {T} (fn : M T) (onRetry : option (Error -> Z -> M unit))
  (delayMs : Z) (R : World -> World -> Prop) :
  (forall w, R w w) ->
  (forall w1 w2 w3, R w1 w2 -> R w2 w3 -> R w1 w3) ->
  (forall w, R w (snd (fn w))) ->
  (forall e a w, R w (snd (callOnRetry onRetry e a w))) ->
  (forall w, R w (snd (delay delayMs w))) ->
  forall k w0 w, FailedAttempts fn onRetry delayMs k w0 w -> R w0 w.
Proof.
  intros Hrefl Htrans Hfn Hcb Hdelay k w0 w H.
  induction H as [w0|k w0 w w1 w2 t _ IH Hf Hc]; [apply Hrefl|].
  eapply Htrans; [exact IH|].
  eapply Htrans; [|apply Hdelay].
  specialize (Hfn w). rewrite Hf in Hfn.
  specialize (Hcb (toError t) (Z.of_nat k + 1) w1). rewrite Hc in Hcb.
  eapply Htrans; eauto.
Qed.

(** With at least one attempt configured, [withRetry] ends in the world
    its last call of the operation left, reached through steps of the
    operation, the callback and the delay. *)
Lemma withRetry_last_call {T} (fn : M T) (attempts delayMs : Z)
  (onRetry : option (Error -> Z -> M unit)) (R : World -> World -> Prop)
  (w0 : World) :
  1 <= attempts -> callbackReturns onRetry ->
  (forall w, R w w) ->
  (forall w1 w2 w3, R w1 w2 -> R w2 w3 -> R w1 w3) ->
  (forall w, R w (snd (fn w))) ->
  (forall e a w, R w (snd (callOnRetry onRetry e a w))) ->
  (forall w, R w (snd (delay delayMs w))) ->
  exists w, R w0 w
            /\ snd (withRetry fn attempts delayMs onRetry w0) = snd (fn w)
            /\ (forall v, fst (fn w) = Ok v ->
                          fst (withRetry fn attempts delayMs onRetry w0) = Ok v).
Proof.
  intros Hn Hcb Hrefl Htrans Hfn Hc Hd.
  destruct (retryLoop_run fn attempts delayMs onRetry w0 Hcb
              (Z.to_nat attempts) 0%nat w0 None)
    as (k & w & HF & _ & Hrun).
  { rewrite Z2Nat.id; lia. } { lia. } { constructor. }
  exists w. split; [exact (FailedAttempts_respects fn onRetry delayMs R Hrefl Htrans Hfn Hc Hd k w0 w HF)|].
  unfold withRetry. change (Z.of_nat 0 + 1) with 1 in Hrun.
  revert Hrun. destruct (fn w) as [[v|t] w']; intros Hrun.
  - rewrite Hrun. split; [reflexivity|]. simpl. intros v' E. exact E.
  - destruct Hrun as [_ Hrun]. rewrite Hrun. split; [reflexivity|].
    simpl. discriminate.
Qed.

Lemma callbackReturns_none : callbackReturns None.
Proof. intros e a w. exists w. reflexivity. Qed.

Lemma tryCatch_rethrow {A} (m : M A) (w : World) :
  tryCatch m (fun error => throw error) w = m w.
Proof. unfold tryCatch, throw. now destruct (m w) as [[a|t] w']. Qed.

Lemma callsTo_app (c : Z) (o ds : list Delivery) :
  callsTo c (o ++ ds) = (callsTo c o + callsTo c ds)%nat.
Proof. unfold callsTo, deliveriesTo. now rewrite filter_app, length_app. Qed.

Lemma callsTo_others (c : Z) (chats : list Z) (m : jsstring) (ds : list Delivery) :
  Forall (fun d => In (chat d) chats /\ text d = m) ds ->
  ~ In c chats -> callsTo c ds = 0%nat.
Proof.
  unfold callsTo, deliveriesTo.
  induction 1 as [|d ds [Hd _] _ IH]; intros Hc; [reflexivity|].
  simpl. destruct (chat d =? c) eqn:E; [|auto].
  apply Z.eqb_eq in E. subst. contradiction.
Qed.

Lemma sentOnlyTo_callsTo_le (chats : list Z) (m : jsstring) (w w' : World) (c : Z) :
  sentOnlyTo chats m w w' -> (callsTo c (outbox w) <= callsTo c (outbox w'))%nat.
Proof. intros (_ & _ & _ & ds & O & _). rewrite O, callsTo_app. lia. Qed.

(** One recipient: [sendMessage] is called for it at least once, and for
    nobody else. *)
Lemma sendTelegramMessage_calls (m : jsstring) (c : Z) (w : World) :
  1 <= RETRY_ATTEMPTS (config w) ->
  sentOnlyTo [c] m w (snd (sendTelegramMessage m (Some c) w))
  /\ (callsTo c (outbox w) < callsTo c (outbox (snd (sendTelegramMessage m (Some c) w))))%nat.
Proof.
  intros Hn. unfold sendTelegramMessage, bind, reads. cbn [orElse].
  set (fn := tryCatch (bot_sendMessage c m) (fun error => throw error)).
  destruct (withRetry_last_call fn (RETRY_ATTEMPTS (config w))
              (RETRY_DELAY_MS (config w)) None
              (sentOnlyTo [c] m) w Hn callbackReturns_none)
    as (wk & Hk & Hlast & _).
  - apply sentOnlyTo_refl.
  - apply sentOnlyTo_trans.
  - intros w1. unfold fn. rewrite tryCatch_rethrow.
    now destruct (bot_sendMessage_outbox c m w1).
  - intros e a w1. apply sentOnlyTo_refl.
  - intros w1. apply delay_sentOnlyTo.
  - rewrite Hlast. unfold fn. rewrite tryCatch_rethrow.
    destruct (bot_sendMessage_outbox c m wk) as (ok & O & S).
    split; [eapply sentOnlyTo_trans; eauto|].
    rewrite O, callsTo_app. unfold callsTo at 3, deliveriesTo. simpl.
    rewrite Z.eqb_refl. simpl.
    pose proof (sentOnlyTo_callsTo_le [c] m w wk c Hk). lia.
Qed.

Lemma setClock_sentOnlyTo (chats : list Z) (m : jsstring) (t : Z) (w : World) :
  sentOnlyTo chats m w (setClock t w).
Proof.
  unfold sentOnlyTo, sameEnvironment. simpl. repeat split.
  exists []. now rewrite app_nil_r.
Qed.

(** The fan-out: every promise settles, [sendMessage] has been called for
    every recipient, and for nobody else. *)
Lemma allSettledFrom_sends (m : jsstring) (cs : list Z) (start : Z) :
  forall latest w, 1 <= RETRY_ATTEMPTS (config w) ->
  exists rs w',
    allSettledFrom start latest (map (fun c => sendTelegramMessage m (Some c)) cs) w
    = (Ok rs, w')
    /\ List.length rs = List.length cs
    /\ sentOnlyTo cs m w w'
    /\ forall c, In c cs -> (callsTo c (outbox w) < callsTo c (outbox w'))%nat.
Proof.
  induction cs as [|c cs IH]; intros latest w Hn; cbn [map allSettledFrom].
  - exists [], (setClock latest w). split; [reflexivity|]. split; [reflexivity|].
    split; [apply setClock_sentOnlyTo|]. intros c [].
  - destruct (sendTelegramMessage_calls m c (setClock start w) Hn) as [S1 C1].
    unfold bind at 1. unfold settle.
    destruct (sendTelegramMessage m (Some c) (setClock start w)) as [r1 w1].
    cbn [snd] in S1, C1. change (outbox (setClock start w)) with (outbox w) in C1.
    assert (S0 : sentOnlyTo [c] m w w1)
      by (eapply sentOnlyTo_trans; [apply setClock_sentOnlyTo|exact S1]).
    assert (Hn1 : 1 <= RETRY_ATTEMPTS (config w1)).
    { destruct S0 as ((_ & Hc & _) & _). now rewrite Hc. }
    destruct (IH (Z.max latest (clock w1)) w1 Hn1) as (rs & w' & Hrun & Hlen & S2 & C2).
    assert (S1' : sentOnlyTo (c :: cs) m w w1)
      by (eapply sentOnlyTo_weaken; [|exact S0]; intros x [-> | []]; now left).
    assert (S2' : sentOnlyTo (c :: cs) m w1 w')
      by (eapply sentOnlyTo_weaken; [|exact S2]; intros x Hx; now right).
    exists ((match r1 with Ok _ => Fulfilled | Throw t => Rejected t end) :: rs), w'.
    split.
    { destruct r1; unfold bind, reads, ret; rewrite Hrun; reflexivity. }
    split; [simpl; now rewrite Hlen|].
    split; [eapply sentOnlyTo_trans; eauto|].
    intros x [-> | Hx].
    + pose proof (sentOnlyTo_callsTo_le _ _ _ _ x S2). lia.
    + pose proof (sentOnlyTo_callsTo_le _ _ _ _ x S0). specialize (C2 x Hx). lia.
Qed.

Lemma allRecipients_spec (subs : list Z) (d : Z) :
  NoDup subs ->
  NoDup (allRecipients subs d)
  /\ forall c, In c (allRecipients subs d) <-> In c subs \/ c = d.
Proof.
  intros Hnd. unfold allRecipients.
  destruct (includesId subs d) eqn:E.
  - apply includesId_In in E. split; [exact Hnd|].
    intros c. split; [auto|]. intros [H | ->]; auto.
  - apply includesId_false in E. split; [now apply NoDup_snoc|].
    intros c. rewrite in_app_iff. simpl. intuition.
Qed.

Lemma filter_partition_length {A} (p : A -> bool) (l : list A) :
  (List.length (filter p l) + List.length (filter (fun x => negb (p x)) l)
   = List.length l)%nat.
Proof. induction l as [|x l IH]; simpl; [reflexivity|]. destruct (p x); simpl; lia. Qed.

(** What a broadcast does, for any list of subscribers. *)
Lemma sendMessageToAllSubscribers_run (message : jsstring) (w : World) :
  1 <= RETRY_ATTEMPTS (config w) ->
  let recipients :=
    allRecipients (subscribers (currentState w)) (TELEGRAM_CHAT_ID (config w)) in
  exists successful failed w',
    sendMessageToAllSubscribers message w = (Ok (successful, failed), w')
    /\ (successful + failed = List.length recipients)%nat
    /\ sentOnlyTo recipients message w w'
    /\ forall c, In c recipients -> (callsTo c (outbox w) < callsTo c (outbox w'))%nat.
Proof.
  intros Hn recipients.
  unfold sendMessageToAllSubscribers, getSubscribers, bind, reads, ret.
  rewrite loadState_currentState. fold recipients.
  destruct (List.length recipients =? 0)%nat eqn:E.
  - exfalso. apply Nat.eqb_eq in E. unfold recipients, allRecipients in E.
    destruct (includesId _ _) eqn:Hin.
    + apply includesId_In in Hin.
      destruct (subscribers (currentState w)); [destruct Hin|discriminate].
    + rewrite length_app in E. simpl in E. lia.
  - unfold allSettled.
    destruct (allSettledFrom_sends message recipients (clock w) (clock w) w Hn)
      as (rs & w' & Hrun & Hlen & S & C).
    rewrite Hrun. do 3 eexists. split; [reflexivity|].
    split; [rewrite filter_partition_length; exact Hlen|]. split; assumption.
Qed.

(** Whatever the configuration, a send only sends, and a broadcast only
    sends and returns normally. *)
Lemma sendTelegramMessage_sentOnlyTo (m : jsstring) (c : Z) (w : World) :
  sentOnlyTo [c] m w (snd (sendTelegramMessage m (Some c) w)).
Proof.
  unfold sendTelegramMessage, bind, reads, withRetry. cbn [orElse].
  apply retryLoop_respects.
  - apply sentOnlyTo_refl.
  - apply sentOnlyTo_trans.
  - intros w1. rewrite tryCatch_rethrow. now destruct (bot_sendMessage_outbox c m w1).
  - intros e a w1. apply sentOnlyTo_refl.
  - intros w1. apply delay_sentOnlyTo.
Qed.

Lemma allSettledFrom_sentOnlyTo (m : jsstring) (cs : list Z) (start : Z) :
  forall latest w, exists rs w',
    allSettledFrom start latest (map (fun c => sendTelegramMessage m (Some c)) cs) w
    = (Ok rs, w')
    /\ sentOnlyTo cs m w w'.
Proof.
  induction cs as [|c cs IH]; intros latest w; cbn [map allSettledFrom].
  - exists [], (setClock latest w). split; [reflexivity|apply setClock_sentOnlyTo].
  - pose proof (sendTelegramMessage_sentOnlyTo m c (setClock start w)) as S1.
    unfold bind at 1. unfold settle.
    destruct (sendTelegramMessage m (Some c) (setClock start w)) as [r1 w1].
    cbn [snd] in S1.
    assert (S0 : sentOnlyTo [c] m w w1)
      by (eapply sentOnlyTo_trans; [apply setClock_sentOnlyTo|exact S1]).
    destruct (IH (Z.max latest (clock w1)) w1) as (rs & w' & Hrun & S2).
    exists ((match r1 with Ok _ => Fulfilled | Throw t => Rejected t end) :: rs), w'.
    split.
    { destruct r1; unfold bind, reads, ret; rewrite Hrun; reflexivity. }
    eapply sentOnlyTo_trans.
    + eapply sentOnlyTo_weaken; [|exact S0]. intros x [-> | []]. now left.
    + eapply sentOnlyTo_weaken; [|exact S2]. intros x Hx. now right.
Qed.

Lemma sendMessageToAllSubscribers_returns (message : jsstring) (w : World) :
  exists counts w',
    sendMessageToAllSubscribers message w = (Ok counts, w')
    /\ sentOnlyTo (allRecipients (subscribers (currentState w))
                                 (TELEGRAM_CHAT_ID (config w))) message w w'.
Proof.
  unfold sendMessageToAllSubscribers, getSubscribers, bind, reads, ret.
  rewrite loadState_currentState.
  destruct (List.length _ =? 0)%nat.
  - do 2 eexists. split; [reflexivity|apply sentOnlyTo_refl].
  - unfold allSettled.
    destruct (allSettledFrom_sentOnlyTo message
                (allRecipients (subscribers (currentState w))
                               (TELEGRAM_CHAT_ID (config w))) (clock w) (clock w) w)
      as (rs & w' & Hrun & S).
    rewrite Hrun. do 2 eexists. split; [reflexivity|exact S].
Qed.

Lemma deliveriesTo_app (c : Z) (o ds : list Delivery) :
  deliveriesTo c (o ++ ds) = deliveriesTo c o ++ deliveriesTo c ds.
Proof. unfold deliveriesTo. apply filter_app. Qed.

Lemma deliveriesTo_others (c : Z) (chats : list Z) (m : jsstring) (ds : list Delivery) :
  Forall (fun d => In (chat d) chats /\ text d = m) ds ->
  ~ In c chats -> deliveriesTo c ds = [].
Proof.
  unfold deliveriesTo.
  induction 1 as [|d ds [Hd _] _ IH]; intros Hc; [reflexivity|].
  simpl. destruct (chat d =? c) eqn:E; [|auto].
  apply Z.eqb_eq in E. subst. contradiction.
Qed.

Lemma sentOnlyTo_deliveriesTo (chats : list Z) (m : jsstring) (w w' : World) (c : Z) :
  sentOnlyTo chats m w w' -> ~ In c chats ->
  deliveriesTo c (outbox w') = deliveriesTo c (outbox w).
Proof.
  intros (_ & _ & _ & ds & O & F) Hc.
  rewrite O, deliveriesTo_app, (deliveriesTo_others c chats m ds F Hc).
  apply app_nil_r.
Qed.

Lemma sentOnlyTo_sameFor (chats : list Z) (m : jsstring) (w0 w w' : World) (c : Z) :
  sentOnlyTo chats m w w' -> ~ In c chats -> sameFor c w0 w -> sameFor c w0 w'.
Proof.
  intros S Hc (A & B & D).
  pose proof (sentOnlyTo_deliveriesTo chats m w w' c S Hc) as Hd.
  destruct S as ((_ & Ecfg & _ & _ & Etg) & _).
  unfold sameFor. rewrite Ecfg, Etg, Hd. auto.
Qed.

(** Sends to a chat from two worlds that are the same for it: the same
    result, and worlds that are still the same for it. *)
Lemma bot_sendMessage_sameFor (c : Z) (m : jsstring) (wa wb : World) :
  sameFor c wa wb ->
  fst (bot_sendMessage c m wa) = fst (bot_sendMessage c m wb)
  /\ sameFor c (snd (bot_sendMessage c m wa)) (snd (bot_sendMessage c m wb)).
Proof.
  intros (A & B & D). unfold bot_sendMessage, callsTo. rewrite B, D.
  destruct (telegram wb c _); simpl; (split; [reflexivity|]);
    unfold sameFor; simpl; rewrite !deliveriesTo_app, D; auto.
Qed.

Lemma sendTelegramMessage_sameFor (c : Z) (m : jsstring) (wa wb : World) :
  sameFor c wa wb ->
  fst (sendTelegramMessage m (Some c) wa) = fst (sendTelegramMessage m (Some c) wb)
  /\ sameFor c (snd (sendTelegramMessage m (Some c) wa))
               (snd (sendTelegramMessage m (Some c) wb)).
Proof.
  intros HR. unfold sendTelegramMessage, bind, reads, withRetry. cbn [orElse].
  destruct HR as (A & B & D) eqn:E. rewrite A. clear E.
  apply retryLoop_lockstep.
  - intros w1 w2 H12. rewrite !tryCatch_rethrow. now apply bot_sendMessage_sameFor.
  - intros e a w1 w2 H12. simpl. auto.
  - intros w1 w2 (A1 & B1 & D1). unfold sameFor, delay. simpl. auto.
  - unfold sameFor. auto.
Qed.

Lemma setClock_sameFor (c : Z) (t : Z) (w0 w : World) :
  sameFor c w0 w -> sameFor c w0 (setClock t w).
Proof. unfold sameFor. simpl. auto. Qed.

(** In the fan-out every recipient sees exactly the calls it would see if
    the message were sent to it alone. *)
Lemma allSettledFrom_independent (m : jsstring) (w0 : World) (cs : list Z) (start : Z) :
  NoDup cs ->
  forall latest w,
    (forall c, In c cs -> sameFor c w0 w) ->
    forall c, In c cs ->
      deliveriesTo c
        (outbox (snd (allSettledFrom start latest
                        (map (fun c => sendTelegramMessage m (Some c)) cs) w)))
      = deliveriesTo c (outbox (snd (sendTelegramMessage m (Some c) w0))).
Proof.
  induction 1 as [|c1 cs Hnotin Hnd IH]; intros latest w Hsame c Hc; [destruct Hc|].
  cbn [map allSettledFrom].
  pose proof (sendTelegramMessage_sentOnlyTo m c1 (setClock start w)) as S1.
  destruct (sendTelegramMessage_sameFor c1 m w0 (setClock start w)
              (setClock_sameFor c1 start w0 w (Hsame c1 (or_introl eq_refl))))
    as [_ R1].
  unfold bind at 1. unfold settle.
  destruct (sendTelegramMessage m (Some c1) (setClock start w)) as [r1 w1].
  cbn [snd] in S1, R1.
  assert (S0 : sentOnlyTo [c1] m w w1)
    by (eapply sentOnlyTo_trans; [apply setClock_sentOnlyTo|exact S1]).
  destruct (allSettledFrom_sentOnlyTo m cs start (Z.max latest (clock w1)) w1)
    as (rs & w' & Hrun & S2).
  destruct Hc as [<- | Hc].
  - replace (deliveriesTo c1 (outbox (snd _))) with (deliveriesTo c1 (outbox w')).
    + rewrite (sentOnlyTo_deliveriesTo cs m w1 w' c1 S2 Hnotin).
      destruct R1 as (_ & _ & D). now rewrite D.
    + destruct r1; unfold bind, reads, ret; rewrite Hrun; reflexivity.
  - assert (Hne : ~ In c [c1]).
    { intros [<- | []]. contradiction. }
    specialize (IH (Z.max latest (clock w1)) w1).
    rewrite <- IH with (c := c); [|intros c' Hc'|exact Hc].
    + destruct r1; unfold bind, reads, ret; rewrite Hrun; reflexivity.
    + eapply sentOnlyTo_sameFor; [exact S0| |apply Hsame; now right].
      intros [<- | []]. contradiction.
Qed.

Lemma sameFor_refl (c : Z) (w : World) : sameFor c w w.
Proof. unfold sameFor. auto. Qed.

(** C7.  For a duplicate-free subscriber list and any default recipient,
    the recipients of a broadcast are the subscribers and the default
    recipient, each once.  However Telegram answers each call (the answers
    are part of the world, and arbitrary), the broadcast returns normally
    with one settled result per recipient; [sendMessage] is called at
    least once for every recipient, and only for recipients and with the
    message; and the calls made
    for a recipient, with their outcomes, are exactly those that sending
    the message to that recipient alone would make: what happens to the
    other recipients changes nothing for it. *)
Theorem broadcast_fan_out (message : jsstring) (w : World) :
  NoDup (subscribers (currentState w)) ->
  1 <= RETRY_ATTEMPTS (config w) ->
  let recipients :=
    allRecipients (subscribers (currentState w)) (TELEGRAM_CHAT_ID (config w)) in
  NoDup recipients
  /\ (forall c, In c recipients <->
                In c (subscribers (currentState w)) \/ c = TELEGRAM_CHAT_ID (config w))
  /\ exists successful failed w',
       sendMessageToAllSubscribers message w = (Ok (successful, failed), w')
       /\ (successful + failed = List.length recipients)%nat
       /\ (forall c, In c recipients ->
                     (callsTo c (outbox w) < callsTo c (outbox w'))%nat)
       /\ (exists ds, outbox w' = outbox w ++ ds
                       /\ Forall (fun d => In (chat d) recipients /\ text d = message) ds)
       /\ (forall c, In c recipients ->
                     deliveriesTo c (outbox w')
                     = deliveriesTo c (outbox (snd (sendTelegramMessage message (Some c) w)))).
Proof.
  intros Hnd Hn recipients.
  destruct (allRecipients_spec _ (TELEGRAM_CHAT_ID (config w)) Hnd) as [H1 H2].
  split; [exact H1|]. split; [exact H2|].
  destruct (sendMessageToAllSubscribers_run message w Hn)
    as (s & f & w' & Hrun & Hcount & S & C).
  exists s, f, w'. split; [exact Hrun|]. split; [exact Hcount|].
  split; [exact C|]. split.
  - destruct S as (_ & _ & _ & ds & O & F). exists ds. auto.
  - intros c Hc.
    rewrite <- (allSettledFrom_independent message w recipients (clock w) H1
                  (clock w) w (fun c' _ => sameFor_refl c' w) c Hc).
    f_equal. f_equal.
    revert Hrun. unfold sendMessageToAllSubscribers, getSubscribers, bind, reads, ret.
    rewrite loadState_currentState. fold recipients.
    destruct (List.length recipients =? 0)%nat eqn:E.
    + apply Nat.eqb_eq in E. destruct recipients; [destruct Hc|discriminate].
    + unfold allSettled.
      destruct (allSettledFrom _ _ _ w) as [[rs|t] w2]; intros Hrun;
        inversion Hrun; reflexivity.
Qed.

(** ** The message formatter *)

Lemma mapIndexed_ext {A B} (f g : A -> nat -> B) (xs : list A) :
  (forall x i, In x xs -> f x i = g x i) ->
  forall i, mapIndexed f i xs = mapIndexed g i xs.
Proof.
  induction xs as [|x xs IH]; intros H i; simpl; [reflexivity|].
  rewrite H by now left. f_equal. apply IH. intros y j Hy. apply H. now right.
Qed.

Lemma formatEvent_dates (rt1 rt2 : Runtime) (e : ShutdownEvent) (i : nat) :
  formatDateTime rt1 (dateStart e) = formatDateTime rt2 (dateStart e) ->
  formatDateTime rt1 (dateEnd e) = formatDateTime rt2 (dateEnd e) ->
  formatEvent rt1 e i = formatEvent rt2 e i.
Proof. intros H1 H2. unfold formatEvent. now rewrite H1, H2. Qed.

(** A date string that no runtime is asked about, or that the runtime
    cannot parse, is shown as it is. *)
Lemma formatDateTime_unparsed (rt : Runtime) (dateStr : jsstring) :
  Date_parse rt dateStr = None ->
  formatDateTime rt dateStr = if jsEq dateStr [] then Unknown else dateStr.
Proof. intros H. unfold formatDateTime. now rewrite H. Qed.

(** The claim as written fails: the same event sequence is rendered
    differently by a process whose time zone is UTC and by one whose time
    zone is two hours east of it. *)
Lemma formatShutdownMessage_time_zone :
  formatShutdownMessage Sample.utc [Sample.isoEvent]
  <> formatShutdownMessage Sample.kyivWinter [Sample.isoEvent].
Proof. vm_compute. discriminate. Qed.

(** What the two processes show for that start time. *)
Example formatDateTime_time_zone :
  formatDateTime Sample.utc (js "2024-01-15T23:30:00Z") = js "15.01.2024, 23:30"
  /\ formatDateTime Sample.kyivWinter (js "2024-01-15T23:30:00Z") = js "16.01.2024, 01:30".
Proof. split; vm_compute; reflexivity. Qed.

(** C8 (amended).  Formatting is a function of the event sequence and of
    how the runtime renders the [dateStart] and [dateEnd] strings, and of
    nothing else: on equal sequences, two invocations whose runtimes render
    every date of the sequence alike (the same process, or any two
    processes when the dates are empty or are not parsed as dates) return
    the same string. *)
Theorem formatShutdownMessage_deterministic (rt1 rt2 : Runtime)
  (events1 events2 : list ShutdownEvent) :
  events1 = events2 ->
  (forall e, In e events1 ->
             formatDateTime rt1 (dateStart e) = formatDateTime rt2 (dateStart e)
             /\ formatDateTime rt1 (dateEnd e) = formatDateTime rt2 (dateEnd e)) ->
  formatShutdownMessage rt1 events1 = formatShutdownMessage rt2 events2.
Proof.
  intros <- Hdates. unfold formatShutdownMessage.
  destruct (List.length events1 =? 0)%nat; [reflexivity|].
  do 3 f_equal. apply mapIndexed_ext. intros e i He.
  destruct (Hdates e He) as [H1 H2]. now apply formatEvent_dates.
Qed.

(** ** The check-and-notify cycle *)

Lemma hexWord_length (w : Z) : List.length (Sha256.hexWord w) = 8%nat.
Proof. reflexivity. Qed.

Lemma createContentHash_length (content : jsstring) :
  List.length (createContentHash content) = 64%nat.
Proof.
  unfold createContentHash, Sha256.hex.
  destruct (Sha256.hash _) as [[[[[[[a b] c] d] e] f] g] h].
  repeat rewrite length_app. repeat rewrite hexWord_length. reflexivity.
Qed.

Lemma jsEq_refl (s : jsstring) : jsEq s s = true.
Proof. unfold jsEq. destruct (list_eq_dec N.eq_dec s s); congruence. Qed.

Lemma jsEq_true (a b : jsstring) : jsEq a b = true <-> a = b.
Proof. unfold jsEq. destruct (list_eq_dec N.eq_dec a b); split; congruence. Qed.

(** The comparison of [checkAndNotify] is "the stored hash is the fresh
    one": a content hash is never the empty string. *)
Lemma unchanged_iff (lastHash : option jsstring) (content : jsstring) :
  unchanged lastHash (createContentHash content) = true
  <-> lastHash = Some (createContentHash content).
Proof.
  unfold unchanged, hashesEqual. destruct lastHash as [h|]; [|split; discriminate].
  rewrite andb_true_iff, jsEq_true, negb_true_iff. split.
  - intros [_ ->]. reflexivity.
  - intros E. inversion E; subst. split; [|reflexivity].
    pose proof (createContentHash_length content) as L.
    destruct (createContentHash content); [discriminate|reflexivity].
Qed.

Lemma onlyFetched_refl (w : World) : onlyFetched w w.
Proof. unfold onlyFetched. split; [apply sameEnvironment_refl|auto]. Qed.

Lemma onlyFetched_trans (w1 w2 w3 : World) :
  onlyFetched w1 w2 -> onlyFetched w2 w3 -> onlyFetched w1 w3.
Proof.
  intros (E1 & S1 & O1) (E2 & S2 & O2).
  split; [eapply sameEnvironment_trans; eauto|]. split; congruence.
Qed.

Lemma fetchWithRetry_onlyFetched (w : World) : onlyFetched w (snd (fetchWithRetry w)).
Proof.
  unfold fetchWithRetry.
  destruct (upstream w (requests w)) as [e|ok st body]; [|destruct (negb ok)];
    unfold onlyFetched, sameEnvironment; simpl; auto 10.
Qed.

Lemma fetchShutdownEvents_onlyFetched (w : World) :
  onlyFetched w (snd (fetchShutdownEvents w)).
Proof.
  unfold fetchShutdownEvents, bind, reads, withRetry.
  apply retryLoop_respects.
  - apply onlyFetched_refl.
  - apply onlyFetched_trans.
  - apply fetchWithRetry_onlyFetched.
  - intros e a w1. apply onlyFetched_refl.
  - intros w1. unfold onlyFetched, sameEnvironment, delay. simpl. auto 10.
Qed.

(** A check sends nothing and writes nothing; its message and hash are
    those of the events it fetched, rendered by the runtime. *)
Lemma checkShutdownEvents_result (w wf : World) (res : ShutdownCheckResult) :
  checkShutdownEvents w = (Ok res, wf) ->
  onlyFetched w wf
  /\ formattedMessage res = formatShutdownMessage (runtime w) (events res)
  /\ contentHash res = createContentHash (formattedMessage res).
Proof.
  unfold checkShutdownEvents. unfold bind at 1.
  pose proof (fetchShutdownEvents_onlyFetched w) as F.
  destruct (fetchShutdownEvents w) as [[evs|t] w1]; [|discriminate].
  cbn [snd] in F. unfold bind, reads, ret. intros H. inversion H; subst; clear H.
  cbn [formattedMessage contentHash events].
  split; [exact F|]. destruct F as ((Hrt & _) & _). rewrite Hrt.
  split; reflexivity.
Qed.

Lemma currentState_stateFile (w w' : World) :
  stateFile w' = stateFile w -> currentState w' = currentState w.
Proof.
  unfold currentState, loadState. intros E. rewrite E.
  now destruct (stateFile w).
Qed.

Lemma getLastMessageHash_run (w : World) :
  getLastMessageHash w = (Ok (lastMessageHash (currentState w)), w).
Proof. unfold getLastMessageHash, bind, ret. now rewrite loadState_currentState. Qed.

(** A cycle whose fresh hash is the stored one ends right after the
    check. *)
Lemma checkAndNotify_skips (w wf : World) (res : ShutdownCheckResult) :
  checkShutdownEvents w = (Ok res, wf) ->
  lastMessageHash (currentState wf) = Some (contentHash res) ->
  checkAndNotify w = (Ok tt, wf).
Proof.
  intros Hcheck Hstored. unfold checkAndNotify, tryCatch. unfold bind at 1.
  rewrite Hcheck. unfold bind at 1. rewrite getLastMessageHash_run.
  destruct (checkShutdownEvents_result w wf res Hcheck) as (_ & _ & Hh).
  rewrite Hstored, Hh. rewrite (proj2 (unchanged_iff _ _) eq_refl). reflexivity.
Qed.

(** The write of [updateLastMessageHash] on a writable disk. *)
Lemma updateLastMessageHash_run (hash : jsstring) (w : World) :
  diskWritable w = true ->
  exists w',
    updateLastMessageHash hash w = (Ok tt, w')
    /\ lastMessageHash (currentState w') = Some hash
    /\ outbox w' = outbox w /\ sameEnvironment w w'.
Proof.
  intros Hd. unfold updateLastMessageHash, bind, now, reads.
  rewrite loadState_currentState. unfold saveState. rewrite Hd.
  eexists. split; [reflexivity|]. rewrite currentState_stored.
  unfold sameEnvironment. simpl. auto 10.
Qed.

Lemma updateLastMessageHash_throws (hash : jsstring) (w : World) :
  diskWritable w = false ->
  updateLastMessageHash hash w = (Throw WriteFailed, w).
Proof.
  intros Hd. unfold updateLastMessageHash, bind, now, reads.
  rewrite loadState_currentState. unfold saveState. now rewrite Hd.
Qed.


Lemma updateLastMessageHash_ok (hash : jsstring) (w w' : World) :
  updateLastMessageHash hash w = (Ok tt, w') ->
  lastMessageHash (currentState w') = Some hash
  /\ outbox w' = outbox w /\ sameEnvironment w w'.
Proof.
  destruct (diskWritable w) eqn:Hd.
  - destruct (updateLastMessageHash_run hash w Hd) as (w2 & Hrun & H).
    rewrite Hrun. intros E. inversion E; subst. exact H.
  - rewrite (updateLastMessageHash_throws hash w Hd). discriminate.
Qed.

Lemma then_throw_never_returns {A B} (m : M A) (t : Thrown) (w : World) (b : B) (w' : World) :
  (m ;; throw t)%world w <> (Ok b, w').
Proof.
  unfold bind, throw. destruct (m w) as [[a|t'] w1]; discriminate.
Qed.

(** A cycle that finds new content and returns normally has made one
    broadcast of the fresh message and then stored the fresh hash. *)
Lemma checkAndNotify_notifies (w wf w1 : World) (res : ShutdownCheckResult) :
  checkShutdownEvents w = (Ok res, wf) ->
  lastMessageHash (currentState wf) <> Some (contentHash res) ->
  checkAndNotify w = (Ok tt, w1) ->
  exists counts ws,
    sendMessageToAllSubscribers (formattedMessage res) wf = (Ok counts, ws)
    /\ updateLastMessageHash (contentHash res) ws = (Ok tt, w1).
Proof.
  intros Hcheck Hnew. unfold checkAndNotify, tryCatch. unfold bind at 1.
  rewrite Hcheck. unfold bind at 1. rewrite getLastMessageHash_run.
  destruct (checkShutdownEvents_result w wf res Hcheck) as (_ & _ & Hh).
  destruct (unchanged _ _) eqn:U.
  { rewrite Hh in U. apply unchanged_iff in U. rewrite <- Hh in U. contradiction. }
  destruct (sendMessageToAllSubscribers_returns (formattedMessage res) wf)
    as (counts & ws & Hsend & _).
  unfold bind at 1. rewrite Hsend.
  destruct (updateLastMessageHash (contentHash res) ws) as [[[]|t] w2] eqn:Hup.
  - intros E. inversion E; subst. exists counts, ws. auto.
  - intros E. exfalso. exact (then_throw_never_returns _ _ _ _ _ E).
Qed.

(** A check whose first request is answered with a readable body. *)
Lemma checkShutdownEvents_first_attempt (w : World) (st : Z) (body : jsstring)
  (evs : list ShutdownEvent) :
  upstream w (requests w) = Response true st body ->
  interpretText (runtime w) body = Ok evs ->
  1 <= RETRY_ATTEMPTS (config w) ->
  checkShutdownEvents w
  = (Ok {| hasEvents := (0 <? List.length evs)%nat;
           events := evs;
           formattedMessage := formatShutdownMessage (runtime w) evs;
           contentHash := createContentHash (formatShutdownMessage (runtime w) evs) |},
     setRequests (S (requests w)) w).
Proof.
  intros Hup Hint Hn.
  unfold checkShutdownEvents, fetchShutdownEvents, withRetry.
  unfold bind at 1. unfold bind at 1. unfold reads at 1.
  destruct (Z.to_nat (RETRY_ATTEMPTS (config w))) as [|fuel] eqn:E; [lia|].
  rewrite (retryLoop_step_ok fetchWithRetry _ _ _ fuel 1 None w
             (setRequests (S (requests w)) w) evs Hn).
  - reflexivity.
  - unfold fetchWithRetry. rewrite Hup. cbn [negb]. now rewrite Hint.
Qed.

(** A cycle that finds new content, on a disk that takes the write: one
    broadcast, then the fresh hash is stored. *)
Lemma checkAndNotify_runs (w wf : World) (res : ShutdownCheckResult) :
  checkShutdownEvents w = (Ok res, wf) ->
  lastMessageHash (currentState wf) <> Some (contentHash res) ->
  diskWritable w = true ->
  exists counts ws w1,
    sendMessageToAllSubscribers (formattedMessage res) wf = (Ok counts, ws)
    /\ checkAndNotify w = (Ok tt, w1)
    /\ outbox w1 = outbox ws
    /\ lastMessageHash (currentState w1) = Some (contentHash res)
    /\ sameEnvironment w w1 /\ requests w1 = requests wf.
Proof.
  intros Hcheck Hnew Hd.
  destruct (checkShutdownEvents_result w wf res Hcheck) as ((Ef & _ & _) & _ & Hh).
  destruct (sendMessageToAllSubscribers_returns (formattedMessage res) wf)
    as (counts & ws & Hsend & (Es & _ & Rs & _)).
  assert (Hd' : diskWritable ws = true).
  { destruct Ef as (_ & _ & A & _), Es as (_ & _ & B & _). congruence. }
  destruct (updateLastMessageHash_run (contentHash res) ws Hd')
    as (w1 & Hup & Hstored & Oup & Eup).
  exists counts, ws, w1. split; [exact Hsend|]. split.
  - unfold checkAndNotify, tryCatch. unfold bind at 1. rewrite Hcheck.
    unfold bind at 1. rewrite getLastMessageHash_run.
    destruct (unchanged _ _) eqn:U.
    { rewrite Hh in U. apply unchanged_iff in U. rewrite <- Hh in U. contradiction. }
    unfold bind at 1. rewrite Hsend, Hup. reflexivity.
  - split; [exact Oup|]. split; [exact Hstored|]. split.
    + eapply sameEnvironment_trans; [exact Ef|].
      eapply sameEnvironment_trans; [exact Es|exact Eup].
    + rewrite <- Rs. revert Hup. unfold updateLastMessageHash, bind, now, reads.
      rewrite loadState_currentState. unfold saveState. rewrite Hd'.
      intros E. inversion E. reflexivity.
Qed.

(** C6.  (1) When the stored last-message hash is the freshly computed
    content hash, [checkAndNotify] returns right after the check: no
    [sendMessage] call is made and the state file is not written.
    (2) Consequently, of two consecutive cycles that fetch the same
    events, the first of which found new content and completed (so it
    stored its hash), only the first notifies: it makes exactly one
    broadcast of the message, and the second cycle sends nothing and
    writes nothing.  (3) In particular, when the upstream answers every
    request with the same readable response, the content is new and the
    disk takes the write, the two cycles complete and make that one
    broadcast between them. *)
Theorem checkAndNotify_skips_unchanged :
  (forall (w wf : World) (res : ShutdownCheckResult),
      checkShutdownEvents w = (Ok res, wf) ->
      lastMessageHash (currentState wf) = Some (contentHash res) ->
      checkAndNotify w = (Ok tt, wf)
      /\ outbox wf = outbox w /\ stateFile wf = stateFile w)
  /\ (forall (w wf w1 wf' : World) (res res' : ShutdownCheckResult),
         checkShutdownEvents w = (Ok res, wf) ->
         lastMessageHash (currentState wf) <> Some (contentHash res) ->
         checkAndNotify w = (Ok tt, w1) ->
         checkShutdownEvents w1 = (Ok res', wf') ->
         events res' = events res ->
         (exists counts ws,
             outbox wf = outbox w
             /\ sendMessageToAllSubscribers (formattedMessage res) wf = (Ok counts, ws)
             /\ outbox w1 = outbox ws)
         /\ checkAndNotify w1 = (Ok tt, wf')
         /\ outbox wf' = outbox w1 /\ stateFile wf' = stateFile w1)
  /\ (forall (w : World) (st : Z) (body : jsstring) (evs : list ShutdownEvent),
         (forall n, upstream w n = Response true st body) ->
         interpretText (runtime w) body = Ok evs ->
         1 <= RETRY_ATTEMPTS (config w) ->
         diskWritable w = true ->
         lastMessageHash (currentState w)
         <> Some (createContentHash (formatShutdownMessage (runtime w) evs)) ->
         exists counts ws w1 w2,
           sendMessageToAllSubscribers (formatShutdownMessage (runtime w) evs)
                                       (setRequests (S (requests w)) w)
           = (Ok counts, ws)
           /\ checkAndNotify w = (Ok tt, w1)
           /\ outbox w1 = outbox ws
           /\ checkAndNotify w1 = (Ok tt, w2)
           /\ outbox w2 = outbox w1 /\ stateFile w2 = stateFile w1).
Proof.
  split; [|split].
  - intros w wf res Hcheck Hstored.
    split; [now apply checkAndNotify_skips with (res := res)|].
    destruct (checkShutdownEvents_result w wf res Hcheck) as ((_ & S & O) & _).
    auto.
  - intros w wf w1 wf' res res' Hcheck Hnew Hrun Hcheck' Hsame.
    destruct (checkAndNotify_notifies w wf w1 res Hcheck Hnew Hrun)
      as (counts & ws & Hsend & Hup).
    destruct (checkShutdownEvents_result w wf res Hcheck)
      as ((Ef & _ & Of) & Hmsg & Hhash).
    destruct (checkShutdownEvents_result w1 wf' res' Hcheck')
      as ((_ & S' & O') & Hmsg' & Hhash').
    destruct (updateLastMessageHash_ok _ _ _ Hup) as (Hstored & Oup & Eup).
    destruct (sendMessageToAllSubscribers_returns (formattedMessage res) wf)
      as (counts2 & ws2 & Hsend2 & (Es & _)).
    rewrite Hsend in Hsend2. inversion Hsend2; subst counts2 ws2; clear Hsend2.
    split; [exists counts, ws; auto|].
    assert (Hrt : runtime w1 = runtime w).
    { destruct Ef as (A & _), Es as (B & _), Eup as (C & _). congruence. }
    assert (Heq : contentHash res' = contentHash res).
    { rewrite Hhash', Hhash, Hmsg', Hmsg, Hrt, Hsame. reflexivity. }
    split; [|auto].
    apply checkAndNotify_skips with (res := res'); [exact Hcheck'|].
    rewrite (currentState_stateFile w1 wf' S'), Heq. exact Hstored.
  - intros w st body evs Hup Hint Hn Hd Hnew.
    pose proof (checkShutdownEvents_first_attempt w st body evs (Hup _) Hint Hn) as Hc.
    set (res := {| hasEvents := (0 <? List.length evs)%nat; events := evs;
                   formattedMessage := formatShutdownMessage (runtime w) evs;
                   contentHash := createContentHash (formatShutdownMessage (runtime w) evs) |})
      in Hc.
    assert (Hnew' : lastMessageHash (currentState (setRequests (S (requests w)) w))
                    <> Some (contentHash res))
      by (rewrite (currentState_stateFile w (setRequests (S (requests w)) w) eq_refl);
          exact Hnew).
    destruct (checkAndNotify_runs w (setRequests (S (requests w)) w) res Hc Hnew' Hd)
      as (counts & ws & w1 & Hsend & Hrun & O1 & Hstored & (Ert & Ecfg & _ & Eup & _) & _).
    assert (Hc' : checkShutdownEvents w1 = (Ok res, setRequests (S (requests w1)) w1)).
    { unfold res. rewrite <- Ert.
      apply (checkShutdownEvents_first_attempt w1 st body evs).
      - rewrite Eup. apply Hup.
      - now rewrite Ert.
      - now rewrite Ecfg. }
    exists counts, ws, w1, (setRequests (S (requests w1)) w1).
    split; [exact Hsend|]. split; [exact Hrun|]. split; [exact O1|].
    split; [|split; reflexivity].
    apply checkAndNotify_skips with (res := res); [exact Hc'|].
    rewrite (currentState_stateFile w1 (setRequests (S (requests w1)) w1) eq_refl).
    exact Hstored.
Qed.

(** C9.  Whenever the check succeeds and the disk takes the write,
    [forceNotify] broadcasts the fresh message ([sendMessage] is called
    for every recipient, and only for recipients and with that message)
    and stores the fresh hash; nothing is asked of the stored hash, so
    this holds as well when it already equals the fresh one. *)
Theorem forceNotify_ignores_stored_hash (w wf : World) (res : ShutdownCheckResult) :
  checkShutdownEvents w = (Ok res, wf) ->
  diskWritable w = true ->
  1 <= RETRY_ATTEMPTS (config w) ->
  exists successful failed ws w',
    sendMessageToAllSubscribers (formattedMessage res) wf = (Ok (successful, failed), ws)
    /\ forceNotify w = (Ok tt, w')
    /\ outbox w' = outbox ws
    /\ (forall c,
           In c (allRecipients (subscribers (currentState w)) (TELEGRAM_CHAT_ID (config w))) ->
           (callsTo c (outbox w) < callsTo c (outbox w'))%nat)
    /\ (exists ds,
           outbox w' = outbox w ++ ds
           /\ Forall (fun d =>
                        In (chat d) (allRecipients (subscribers (currentState w))
                                                   (TELEGRAM_CHAT_ID (config w)))
                        /\ text d = formattedMessage res) ds)
    /\ lastMessageHash (currentState w') = Some (contentHash res).
Proof.
  intros Hcheck Hd Hn.
  destruct (checkShutdownEvents_result w wf res Hcheck)
    as (((Ert & Ecfg & Edw & _) & Sf & Of) & _).
  assert (Hn' : 1 <= RETRY_ATTEMPTS (config wf)) by now rewrite Ecfg.
  destruct (sendMessageToAllSubscribers_run (formattedMessage res) wf Hn')
    as (s & f & ws & Hsend & _ & ((_ & _ & Edw' & _) & _ & _ & ds & Ods & Fds) & Hcalls).
  assert (Hd' : diskWritable ws = true) by congruence.
  destruct (updateLastMessageHash_run (contentHash res) ws Hd')
    as (w' & Hup & Hstored & Oup & _).
  exists s, f, ws, w'. split; [exact Hsend|]. split.
  - unfold forceNotify, tryCatch. unfold bind at 1. rewrite Hcheck.
    unfold bind at 1. rewrite Hsend, Hup. reflexivity.
  - rewrite (currentState_stateFile w wf Sf), Ecfg in *.
    split; [exact Oup|]. split; [|split; [|exact Hstored]].
    + intros c Hc. rewrite Oup, <- Of. now apply Hcalls.
    + exists ds. split; [congruence|exact Fds].
Qed.

(** ** The properties at the sample data *)

Lemma run_throws {A} (m : M A) (w : World) (t : Thrown) :
  fst (m w) = Throw t -> m w = (Throw t, snd (m w)).
Proof. destruct (m w) as [r w']. simpl. now intros ->. Qed.

(** A run whose result is known, written as a pair. *)
Lemma run_returns {A} (m : M A) (w : World) (a : A) :
  fst (m w) = Ok a -> m w = (Ok a, snd (m w)).
Proof. destruct (m w) as [r w']. simpl. now intros ->. Qed.


(** The sample table has three rows; the one with four cells is dropped
    and the two others become events 1 and 2. *)
Example parseHtmlTable_sample :
  List.length (tableRows Sample.tbody) = 3%nat
  /\ map (fun e => (id e, type e, shutdownType e, queueGpv e, queueGav e,
                    dateStart e, dateEnd e, status e))
         (parseHtmlTable Sample.html)
     = [(IdNumber 1, js "Ремонт", js "Аварійне", js "1", js "2",
         js "15.01.2024 08:00", js "15.01.2024 12:00", js "Аварійне");
        (IdNumber 2, js "Заміна опори", js "Планове", js "-", js "3",
         js "16.01.2024 09:00", js "16.01.2024 17:00", js "Заплановано")].
Proof. split; vm_compute; reflexivity. Qed.

Lemma normalizeEvent_required_fields_sample :
  fieldFrom Sample.raw ["dateStart"; "date_start"; "startDate"]%string [] (js "X")
  /\ fieldFrom Sample.raw ["dateEnd"; "date_end"; "endDate"]%string [] (js "Y")
  /\ fieldFrom Sample.raw ["type"; "eventType"]%string Unknown (js "T").
Proof.
  apply (normalizeEvent_required_fields Sample.raw (normalized Sample.raw)).
  vm_compute. reflexivity.
Defined.


(** Three attempts, all refused: two delays, the last failure thrown. *)
Example withRetry_exhausted_sample :
  let run := withRetry (bot_sendMessage 7 (js "hello")) 3 5000 None Sample.firstRun in
  fst run = Throw TelegramError
  /\ map accepted (outbox (snd run)) = [false; false; false]
  /\ clock (snd run) = clock Sample.firstRun + 2 * 5000.
Proof. vm_compute. repeat split; reflexivity. Qed.

(** Refused once, then accepted: two attempts, one delay. *)
Example withRetry_second_attempt_sample :
  let run := withRetry (bot_sendMessage 42 (js "hello")) 3 5000 None Sample.firstRun in
  fst run = Ok tt
  /\ map accepted (outbox (snd run)) = [false; true]
  /\ clock (snd run) = clock Sample.firstRun + 5000.
Proof. vm_compute. repeat split; reflexivity. Qed.

Lemma addSubscriber_idempotent_sample :
  (exists w1,
     addSubscriber 42 Sample.firstRun = (Ok true, w1)
     /\ addSubscriber 42 w1 = (Ok false, w1)
     /\ count_occ Z.eq_dec (subscribers (currentState w1)) 42 = 1%nat)
  /\ (forall (anyId : Z) (anyWorld : World),
        NoDup (subscribers (currentState anyWorld)) ->
        NoDup (subscribers (currentState (snd (addSubscriber anyId anyWorld))))).
Proof.
  apply (addSubscriber_idempotent 42 Sample.firstRun).
  - simpl. tauto.
  - reflexivity.
Defined.

Lemma broadcast_fan_out_sample :
  NoDup (allRecipients (subscribers (currentState Sample.subscribed)) 1000)
  /\ (forall c, In c (allRecipients (subscribers (currentState Sample.subscribed)) 1000) <->
                In c (subscribers (currentState Sample.subscribed)) \/ c = 1000)
  /\ exists successful failed w',
       sendMessageToAllSubscribers (js "hello") Sample.subscribed
       = (Ok (successful, failed), w')
       /\ (successful + failed
           = List.length (allRecipients (subscribers (currentState Sample.subscribed)) 1000))%nat
       /\ (forall c, In c (allRecipients (subscribers (currentState Sample.subscribed)) 1000) ->
                     (callsTo c (outbox Sample.subscribed) < callsTo c (outbox w'))%nat)
       /\ (exists ds, outbox w' = outbox Sample.subscribed ++ ds
                       /\ Forall (fun d =>
                                    In (chat d) (allRecipients (subscribers (currentState Sample.subscribed)) 1000)
                                    /\ text d = js "hello") ds)
       /\ (forall c, In c (allRecipients (subscribers (currentState Sample.subscribed)) 1000) ->
                     deliveriesTo c (outbox w')
                     = deliveriesTo c
                         (outbox (snd (sendTelegramMessage (js "hello") (Some c)
                                                           Sample.subscribed)))).
Proof.
  apply (broadcast_fan_out (js "hello") Sample.subscribed).
  - simpl. repeat constructor; simpl; lia.
  - simpl. lia.
Defined.

(** The broadcast to [7; 42; 1000]: chat 7 is tried three times in vain,
    and the two others are still served. *)
Example broadcast_sample :
  let run := sendMessageToAllSubscribers (js "hello") Sample.subscribed in
  fst run = Ok (2%nat, 1%nat)
  /\ map (fun d => (chat d, accepted d)) (outbox (snd run))
     = [(7, false); (7, false); (7, false);
        (42, false); (42, true); (1000, false); (1000, true)].
Proof. vm_compute. split; reflexivity. Qed.

(** The events of the sample table carry dates that are not in the
    ECMAScript format: both processes show them as they are. *)
Lemma formatShutdownMessage_deterministic_sample :
  formatShutdownMessage Sample.utc (parseHtmlTable Sample.html)
  = formatShutdownMessage Sample.kyivWinter (parseHtmlTable Sample.html).
Proof.
  apply (formatShutdownMessage_deterministic Sample.utc Sample.kyivWinter
           (parseHtmlTable Sample.html) (parseHtmlTable Sample.html)).
  - reflexivity.
  - intros e He. vm_compute in He.
    destruct He as [<- | [<- | []]]; split; vm_compute; reflexivity.
Defined.

(** The message for the sample table. *)
Example formatShutdownMessage_sample :
  formatShutdownMessage Sample.kyivWinter (parseHtmlTable Sample.html) = js
"⚡ <b>Заплановані відключення (2)</b>

<b>1. Ремонт</b>
📅 Початок: 15.01.2024 08:00
📅 Кінець: 15.01.2024 12:00
📋 Статус: Аварійне

<b>2. Заміна опори</b>
📅 Початок: 16.01.2024 09:00
📅 Кінець: 16.01.2024 17:00
📋 Статус: Заплановано".
Proof. vm_compute. reflexivity. Qed.

(** No events: the fixed sentence, and its fingerprint. *)
Example formatShutdownMessage_empty :
  formatShutdownMessage Sample.utc [] = PowerIsOn
  /\ createContentHash PowerIsOn
     = js "ed10cad59c67ed3967cd6d159aaab4202dee8df882416b800b579640729524bc".
Proof. split; vm_compute; reflexivity. Qed.

Example createContentHash_abc :
  createContentHash (js "abc")
  = js "ba7816bf8f01cfea414140de5dae2223b00361a396177a9cb410ff61f20015ad".
Proof. vm_compute. reflexivity. Qed.

(** The first cycle on the sample world completes and stores the hash of
    its message. *)
Example checkAndNotify_first_cycle_sample :
  fst (checkAndNotify Sample.subscribed) = Ok tt
  /\ lastMessageHash (currentState Sample.afterFirstCycle)
     = Some (contentHash (Sample.checkOf Sample.subscribed))
  /\ lastCheckTime (currentState Sample.afterFirstCycle)
     = Some (js "2024-01-15T08:00:10.000Z")
  /\ subscribers (currentState Sample.afterFirstCycle) = [7; 42]
  /\ map (fun d => (chat d, accepted d)) (outbox Sample.afterFirstCycle)
     = [(7, false); (7, false); (7, false);
        (42, false); (42, true); (1000, false); (1000, true)].
Proof. vm_compute. repeat split; reflexivity. Qed.

Lemma checkAndNotify_skips_unchanged_sample :
  (checkAndNotify Sample.afterFirstCycle
   = (Ok tt, snd (checkShutdownEvents Sample.afterFirstCycle))
   /\ outbox (snd (checkShutdownEvents Sample.afterFirstCycle))
      = outbox Sample.afterFirstCycle
   /\ stateFile (snd (checkShutdownEvents Sample.afterFirstCycle))
      = stateFile Sample.afterFirstCycle)
  /\ exists counts ws w1 w2,
       sendMessageToAllSubscribers
         (formatShutdownMessage (runtime Sample.subscribed) (parseHtmlTable Sample.html))
         (setRequests (S (requests Sample.subscribed)) Sample.subscribed)
       = (Ok counts, ws)
       /\ checkAndNotify Sample.subscribed = (Ok tt, w1)
       /\ outbox w1 = outbox ws
       /\ checkAndNotify w1 = (Ok tt, w2)
       /\ outbox w2 = outbox w1 /\ stateFile w2 = stateFile w1.
Proof.
  split.
  - apply (proj1 checkAndNotify_skips_unchanged Sample.afterFirstCycle
             (snd (checkShutdownEvents Sample.afterFirstCycle))
             (Sample.checkOf Sample.afterFirstCycle)).
    + apply run_returns. vm_compute. reflexivity.
    + vm_compute. reflexivity.
  - apply (proj2 (proj2 checkAndNotify_skips_unchanged) Sample.subscribed 200
             Sample.html (parseHtmlTable Sample.html)).
    + intros n. reflexivity.
    + vm_compute. reflexivity.
    + vm_compute. discriminate.
    + reflexivity.
    + vm_compute. discriminate.
Defined.

(** [forceNotify] in the world where the stored hash already is the fresh
    one. *)
Lemma forceNotify_ignores_stored_hash_sample :
  lastMessageHash (currentState Sample.afterFirstCycle)
  = Some (contentHash (Sample.checkOf Sample.afterFirstCycle))
  /\ exists successful failed ws w',
       sendMessageToAllSubscribers
         (formattedMessage (Sample.checkOf Sample.afterFirstCycle))
         (snd (checkShutdownEvents Sample.afterFirstCycle))
       = (Ok (successful, failed), ws)
       /\ forceNotify Sample.afterFirstCycle = (Ok tt, w')
       /\ outbox w' = outbox ws
       /\ (forall c,
              In c (allRecipients (subscribers (currentState Sample.afterFirstCycle))
                                  (TELEGRAM_CHAT_ID (config Sample.afterFirstCycle))) ->
              (callsTo c (outbox Sample.afterFirstCycle) < callsTo c (outbox w'))%nat)
       /\ (exists ds,
              outbox w' = outbox Sample.afterFirstCycle ++ ds
              /\ Forall (fun d =>
                           In (chat d)
                              (allRecipients (subscribers (currentState Sample.afterFirstCycle))
                                             (TELEGRAM_CHAT_ID (config Sample.afterFirstCycle)))
                           /\ text d = formattedMessage (Sample.checkOf Sample.afterFirstCycle)) ds)
       /\ lastMessageHash (currentState w')
          = Some (contentHash (Sample.checkOf Sample.afterFirstCycle)).
Proof.
  split; [vm_compute; reflexivity|].
  apply (forceNotify_ignores_stored_hash Sample.afterFirstCycle
           (snd (checkShutdownEvents Sample.afterFirstCycle))
           (Sample.checkOf Sample.afterFirstCycle)).
  - apply run_returns. vm_compute. reflexivity.
  - vm_compute. reflexivity.
  - vm_compute. discriminate.
Defined.

(** Two cycles and a forced one, counted in calls of [sendMessage]: the
    second cycle adds none, the forced one adds a full broadcast. *)
Example two_cycles_then_force_sample :
  let w1 := Sample.afterFirstCycle in
  let w2 := snd (checkAndNotify w1) in
  let w3 := snd (forceNotify w2) in
  List.length (outbox w1) = 7%nat
  /\ List.length (outbox w2) = 7%nat
  /\ map (fun d => (chat d, accepted d)) (skipn 7 (outbox w3))
     = [(7, false); (7, false); (7, false); (42, true); (1000, true)].
Proof. vm_compute. repeat split; reflexivity. Qed.

(** The parser examples of the specification. *)
Example interpretText_samples :
  interpretText Sample.utc Sample.successText = Ok []
  /\ interpretText Sample.utc (js "[]") = Ok []
  /\ interpretText Sample.utc (js "not json") = Ok []
  /\ (exists e, interpretText Sample.utc Sample.dataText = Ok [e]
                /\ dateStart e = js "X" /\ dateEnd e = js "Y" /\ type e = js "T"
                /\ id e = IdString (js "1") /\ status e = Planned
                /\ queueGpv e = js "-" /\ comment e = None).
Proof.
  split; [vm_compute; reflexivity|]. split; [vm_compute; reflexivity|].
  split; [vm_compute; reflexivity|].
  eexists. split; [vm_compute; reflexivity|]. repeat split.
Qed.

(** An HTML answer with the "no registered outage" alert is the valid
    empty answer. *)
Example interpretText_no_outage_alert :
  interpretText Sample.utc Sample.alert = Ok [].
Proof. vm_compute. reflexivity. Qed.

(** A cycle over the body [[null]]: three requests, each throwing the
    TypeError; the error notification goes to the default chat and the
    cycle fails with the TypeError; nothing is stored. *)
Example checkAndNotify_null_element_sample :
  let run := checkAndNotify Sample.nullElement in
  fst run = Throw (TypeError "Cannot read properties of null (reading 'id')")
  /\ requests (snd run) = 3%nat
  /\ map (fun d => (chat d, accepted d)) (outbox (snd run)) = [(1000, false); (1000, true)]
  /\ lastMessageHash (currentState (snd run)) = None.
Proof. vm_compute. repeat split; reflexivity. Qed.

(** ** Further properties of the sources *)

(** The fingerprint of the message for no events is the fingerprint of
    the fixed sentence, in every runtime. *)
Theorem empty_message_hash (rt : Runtime) :
  formatShutdownMessage rt [] = PowerIsOn
  /\ createContentHash (formatShutdownMessage rt [])
     = js "ed10cad59c67ed3967cd6d159aaab4202dee8df882416b800b579640729524bc".
Proof. split; [reflexivity|]. vm_compute. reflexivity. Qed.

(** A content hash is 64 lowercase hexadecimal digits. *)
Theorem createContentHash_hex (content : jsstring) :
  List.length (createContentHash content) = 64%nat
  /\ Forall (fun c => (48 <= c <= 57)%N \/ (97 <= c <= 102)%N) (createContentHash content).
Proof.
  split; [apply createContentHash_length|].
  unfold createContentHash, Sha256.hex.
  destruct (Sha256.hash _) as [[[[[[[a b] c] d] e] f] g] h].
  assert (Hd : forall x, 0 <= x < 16 ->
                         (48 <= Sha256.hexDigit x <= 57)%N \/ (97 <= Sha256.hexDigit x <= 102)%N).
  { intros x Hx. unfold Sha256.hexDigit. destruct (x <? 10) eqn:E.
    - apply Z.ltb_lt in E. left. lia.
    - apply Z.ltb_ge in E. right. lia. }
  assert (Hw : forall w, Forall (fun c => (48 <= c <= 57)%N \/ (97 <= c <= 102)%N)
                                (Sha256.hexWord w)).
  { intros w. unfold Sha256.hexWord. apply Forall_forall. intros x Hx.
    apply in_map_iff in Hx. destruct Hx as (i & <- & _). apply Hd.
    change 15 with (Z.ones 4). rewrite Z.land_ones by lia.
    apply Z.mod_pos_bound. reflexivity. }
  repeat (apply Forall_app; split); apply Hw.
Qed.

(** [removeSubscriber]: [false] and no change when the id is not
    subscribed; otherwise (the disk taking the write) [true], the id is
    gone and the other subscribers stay, in their order. *)
Theorem removeSubscriber_spec (chatId : Z) (w : World) :
  diskWritable w = true ->
  (~ In chatId (subscribers (currentState w)) ->
   removeSubscriber chatId w = (Ok false, w))
  /\ (In chatId (subscribers (currentState w)) ->
      exists w',
        removeSubscriber chatId w = (Ok true, w')
        /\ subscribers (currentState w')
           = filter (fun c => negb (c =? chatId)) (subscribers (currentState w))
        /\ ~ In chatId (subscribers (currentState w'))
        /\ forall c, c <> chatId ->
                     (In c (subscribers (currentState w')) <->
                      In c (subscribers (currentState w)))).
Proof.
  intros Hd. unfold removeSubscriber, bind. rewrite loadState_currentState. split.
  - intros H. apply includesId_false in H. now rewrite H.
  - intros H. apply includesId_In in H. rewrite H. cbn [negb].
    unfold saveState. rewrite Hd. eexists. split; [reflexivity|].
    rewrite currentState_stored. cbn [subscribers]. split; [reflexivity|].
    split.
    + rewrite filter_In. intros [_ E]. rewrite Z.eqb_refl in E. discriminate.
    + intros c Hc. rewrite filter_In. split; [tauto|]. intros Hin.
      split; [exact Hin|]. apply negb_true_iff, Z.eqb_neq. exact Hc.
Qed.



(** A payload that is not HTML and whose JSON reading is an array, or an
    object with a [data] array, of elements of the expected kind yields
    these elements normalized, in order. *)
Theorem interpretText_json_records (rt : Runtime) (text : jsstring)
  (data : value) (items : list value) :
  isHtmlResponse text = false ->
  JSON_parse rt text = Some data ->
  data = VArray items
  \/ (exists props, data = VObject props
                    /\ lookupProp (js "data") props = Some (VArray items)) ->
  forallb plainRecord items = true ->
  interpretText rt text = Ok (map normalized items).
Proof.
  intros Hh Hj Hshape Hplain. unfold interpretText. rewrite Hh, Hj.
  destruct Hshape as [-> | (props & -> & Hd)].
  - now apply parseHoeResponse_array.
  - now apply parseHoeResponse_data_array.
Qed.

Lemma sendErrorNotification_run (e : Error) (w : World) :
  exists w', sendErrorNotification (ThrownError e) w = (Ok tt, w')
             /\ sentOnlyTo [TELEGRAM_CHAT_ID (config w)]
                  (js "⚠️ <b>Ошибка получения данных с hoe.com.ua</b>" ++ NL ++ NL ++ message e)
                  w w'.
Proof.
  unfold sendErrorNotification, bind, liftResult. cbn [messageOf].
  set (msg := js "⚠️ <b>Ошибка получения данных с hoe.com.ua</b>" ++ NL ++ NL ++ message e).
  unfold tryCatch.
  assert (S : sentOnlyTo [TELEGRAM_CHAT_ID (config w)] msg w
                (snd (sendTelegramMessage msg None w))).
  { unfold sendTelegramMessage, bind, reads, withRetry. cbn [orElse].
    apply (retryLoop_respects _ _ _ _ (sentOnlyTo [TELEGRAM_CHAT_ID (config w)] msg)).
    - apply sentOnlyTo_refl.
    - apply sentOnlyTo_trans.
    - intros w1. rewrite tryCatch_rethrow.
      now destruct (bot_sendMessage_outbox (TELEGRAM_CHAT_ID (config w)) msg w1).
    - intros e' a w1. apply sentOnlyTo_refl.
    - intros w1. apply delay_sentOnlyTo. }
  destruct (sendTelegramMessage msg None w) as [[[]|t] w1]; cbn [snd] in S;
    eexists; split; try reflexivity; exact S.
Qed.

(** A cycle whose check fails with an error tries to tell the default
    chat (and nobody else), and fails with the same error; it sends no
    outage message and does not touch the state file. *)
Theorem checkAndNotify_failure (w wf : World) (e : Error) :
  checkShutdownEvents w = (Throw (ThrownError e), wf) ->
  exists w',
    checkAndNotify w = (Throw (ThrownError e), w')
    /\ stateFile w' = stateFile w
    /\ exists ds, outbox w' = outbox w ++ ds
                  /\ Forall (fun d => chat d = TELEGRAM_CHAT_ID (config w)
                                      /\ text d = js "⚠️ <b>Ошибка получения данных с hoe.com.ua</b>"
                                                  ++ NL ++ NL ++ message e) ds.
Proof.
  intros Hcheck.
  assert (F : onlyFetched w wf).
  { unfold checkShutdownEvents in Hcheck. unfold bind at 1 in Hcheck.
    pose proof (fetchShutdownEvents_onlyFetched w) as F.
    destruct (fetchShutdownEvents w) as [[evs|t] w1]; cbn [snd] in F.
    - unfold bind, reads, ret in Hcheck. discriminate.
    - inversion Hcheck; subst. exact F. }
  destruct (sendErrorNotification_run e wf) as (w' & Hsend & S).
  exists w'. unfold checkAndNotify, tryCatch. unfold bind at 1. rewrite Hcheck.
  unfold bind at 1. rewrite Hsend. split; [reflexivity|].
  destruct F as ((_ & Ecfg & _) & Sf & Of).
  destruct S as (_ & Ss & _ & ds & O & Fa).
  split; [congruence|]. exists ds. split; [congruence|].
  eapply Forall_impl; [|exact Fa]. intros d [[<- | []] Ht].
  split; [now rewrite Ecfg|exact Ht].
Qed.

Lemma removeSubscriber_spec_sample :
  (~ In 42 (subscribers (currentState Sample.subscribed)) ->
   removeSubscriber 42 Sample.subscribed = (Ok false, Sample.subscribed))
  /\ (In 42 (subscribers (currentState Sample.subscribed)) ->
      exists w',
        removeSubscriber 42 Sample.subscribed = (Ok true, w')
        /\ subscribers (currentState w')
           = filter (fun c => negb (c =? 42)) (subscribers (currentState Sample.subscribed))
        /\ ~ In 42 (subscribers (currentState w'))
        /\ forall c, c <> 42 ->
                     (In c (subscribers (currentState w')) <->
                      In c (subscribers (currentState Sample.subscribed)))).
Proof. apply (removeSubscriber_spec 42 Sample.subscribed). reflexivity. Defined.

Example removeSubscriber_sample :
  fst (removeSubscriber 42 Sample.subscribed) = Ok true
  /\ subscribers (currentState (snd (removeSubscriber 42 Sample.subscribed))) = [7]
  /\ fst (removeSubscriber 5 Sample.subscribed) = Ok false.
Proof. vm_compute. repeat split; reflexivity. Qed.


Lemma interpretText_json_records_sample :
  interpretText Sample.utc Sample.dataText = Ok (map normalized [Sample.raw]).
Proof.
  apply (interpretText_json_records Sample.utc Sample.dataText
           (VObject [(js "data", VArray [Sample.raw])]) [Sample.raw]).
  - vm_compute. reflexivity.
  - vm_compute. reflexivity.
  - right. eexists. split; [reflexivity|]. vm_compute. reflexivity.
  - vm_compute. reflexivity.
Defined.

Lemma checkAndNotify_failure_sample :
  exists w',
    checkAndNotify Sample.offline = (Throw (ThrownError Sample.fetchFailed), w')
    /\ stateFile w' = stateFile Sample.offline
    /\ exists ds, outbox w' = outbox Sample.offline ++ ds
                  /\ Forall (fun d => chat d = TELEGRAM_CHAT_ID (config Sample.offline)
                                      /\ text d = js "⚠️ <b>Ошибка получения данных с hoe.com.ua</b>"
                                                  ++ NL ++ NL ++ message Sample.fetchFailed) ds.
Proof.
  apply (checkAndNotify_failure Sample.offline (snd (checkShutdownEvents Sample.offline))
           Sample.fetchFailed).
  apply run_throws. vm_compute. reflexivity.
Defined.

(** The failed cycle in numbers: three requests, two waits, then the
    error message, refused once and accepted on the second call. *)
Example checkAndNotify_offline_sample :
  let run := checkAndNotify Sample.offline in
  fst run = Throw (ThrownError Sample.fetchFailed)
  /\ requests (snd run) = 3%nat
  /\ map (fun d => (chat d, accepted d)) (outbox (snd run)) = [(1000, false); (1000, true)]
  /\ clock (snd run) = clock Sample.offline + 3 * 5000.
Proof. vm_compute. repeat split; reflexivity. Qed.

Example decimal_samples :
  decimal 0 = js "0" /\ decimal 7 = js "7" /\ decimal 10 = js "10"
  /\ decimal 1024 = js "1024" /\ decimal 200 = js "200" /\ decimal (-45) = js "-45"
  /\ pad0 2 7 = js "07" /\ pad0 4 2024 = js "2024" /\ pad0 3 0 = js "000".
Proof. vm_compute. repeat split; reflexivity. Qed.

(** ** The parser on well-formed tables *)

Section RenderedTables.

Import Regex Render.

Lemma differsWithin_literalCI (p s tail : jsstring) :
  differsWithin p s = true -> literalCI p (s ++ tail) = None.
Proof.
  revert s; induction p as [|a p IH]; intros [|b s]; simpl; try discriminate.
  destruct (canonicalize a =? canonicalize b)%N; [apply IH|reflexivity].
Qed.

Lemma noMatchInside_app (p a b : jsstring) :
  noMatchInside p a = true -> noMatchInside p b = true ->
  (forall x y, differsWithin p x = true -> differsWithin p (x ++ y) = true) ->
  noMatchInside p (a ++ b) = true.
Proof.
  intros Ha Hb Hext. induction a as [|c a IH]; simpl in *; [exact Hb|].
  apply andb_prop in Ha. destruct Ha as [H1 H2].
  rewrite IH by exact H2. rewrite andb_true_r.
  apply (Hext (c :: a) b H1).
Qed.

Lemma differsWithin_app (p x y : jsstring) :
  differsWithin p x = true -> differsWithin p (x ++ y) = true.
Proof.
  revert x; induction p as [|a p IH]; intros [|b x]; simpl; try discriminate.
  destruct (canonicalize a =? canonicalize b)%N; [apply IH|reflexivity].
Qed.

Lemma noMatchInside_append (p a b : jsstring) :
  noMatchInside p a = true -> noMatchInside p b = true ->
  noMatchInside p (a ++ b) = true.
Proof. intros Ha Hb. apply noMatchInside_app; auto using differsWithin_app. Qed.

Lemma noMatchInside_concat (p : jsstring) (pieces : list jsstring) :
  Forall (fun s => noMatchInside p s = true) pieces ->
  noMatchInside p (List.concat pieces) = true.
Proof.
  induction 1 as [|s pieces Hs _ IH]; simpl; [reflexivity|].
  now apply noMatchInside_append.
Qed.

Lemma canonicalize_LT (c : N) :
  c <> LT -> (canonicalize LT =? canonicalize c)%N = false.
Proof.
  intros Hc. apply N.eqb_neq. unfold canonicalize.
  change ((97 <=? LT) && (LT <=? 122))%N with false. cbv iota.
  destruct ((97 <=? c) && (c <=? 122))%N eqn:Ec; [|congruence].
  apply andb_prop in Ec. destruct Ec as [E1 E2].
  apply N.leb_le in E1. unfold LT in *. lia.
Qed.

Lemma noMatchInside_plainText (p s : jsstring) :
  plainText s = true -> noMatchInside (LT :: p) s = true.
Proof.
  unfold plainText.
  induction s as [|c s IH]; cbn [forallb noMatchInside differsWithin]; [reflexivity|].
  intros H. apply andb_prop in H. destruct H as [Hc Hs].
  rewrite IH by exact Hs. rewrite andb_true_r.
  apply andb_prop in Hc. destruct Hc as [Hlt _].
  apply negb_true_iff, N.eqb_neq in Hlt.
  now rewrite canonicalize_LT.
Qed.

Lemma literalCI_self (p rest : jsstring) : literalCI p (p ++ rest) = Some rest.
Proof.
  induction p as [|a p IH]; simpl; [reflexivity|].
  now rewrite N.eqb_refl.
Qed.

(** The lazy capture stops at the first occurrence of the closing
    literal. *)
Lemma lazyUntil_first (cl cap rest : jsstring) :
  cl <> [] ->
  noMatchInside cl cap = true ->
  lazyUntil cl (cap ++ cl ++ rest) = Some (cap, rest).
Proof.
  intros Hne. induction cap as [|c cap IH]; intros H.
  - simpl app. destruct cl as [|a cl]; [congruence|].
    change (lazyUntil (a :: cl) ((a :: cl) ++ rest)) with
      (match literalCI (a :: cl) ((a :: cl) ++ rest) with
       | Some r => Some ([], r)
       | None => match lazyUntil (a :: cl) (cl ++ rest) with
                 | Some (cap, r) => Some (a :: cap, r)
                 | None => None
                 end
       end).
    now rewrite literalCI_self.
  - simpl in H. apply andb_prop in H. destruct H as [H1 H2].
    simpl app. cbn [lazyUntil].
    change (c :: cap ++ cl ++ rest) with ((c :: cap) ++ (cl ++ rest)).
    rewrite (differsWithin_literalCI cl (c :: cap) (cl ++ rest) H1).
    now rewrite (IH H2).
Qed.

(** A search passes over a text inside which the opening literal finds
    no match. *)
Lemma exec_skip (re : element) (pre s : jsstring) :
  noMatchInside (open re) pre = true -> exec re (pre ++ s) = exec re s.
Proof.
  induction pre as [|c pre IH]; intros H; [reflexivity|].
  simpl in H. apply andb_prop in H. destruct H as [H1 H2].
  simpl app. cbn [exec]. unfold matchAt at 1.
  change (c :: pre ++ s) with ((c :: pre) ++ s).
  rewrite (differsWithin_literalCI (open re) (c :: pre) s H1). now apply IH.
Qed.

Lemma matchAt_element (re : element) (cap rest : jsstring) :
  close re <> [] ->
  noMatchInside (close re) cap = true ->
  matchAt re (open re ++ [GT] ++ cap ++ close re ++ rest) = Some (cap, rest).
Proof.
  intros Hne Hcap. unfold matchAt. rewrite literalCI_self.
  cbn [app closeTag]. rewrite N.eqb_refl. now apply lazyUntil_first.
Qed.

Lemma exec_element (re : element) (cap rest : jsstring) :
  close re <> [] ->
  noMatchInside (close re) cap = true ->
  exec re (open re ++ [GT] ++ cap ++ close re ++ rest) = Some (cap, rest).
Proof.
  intros Hne Hcap.
  pose proof (matchAt_element re cap rest Hne Hcap) as H.
  destruct (open re ++ [GT] ++ cap ++ close re ++ rest); cbn [exec]; now rewrite H.
Qed.

Lemma exec_nil (re : element) : open re <> [] -> exec re [] = None.
Proof.
  intros H. cbn [exec]. unfold matchAt.
  destruct (open re) as [|a p]; [congruence|reflexivity].
Qed.

Lemma stripTags_plainText (s : jsstring) : plainText s = true -> stripTags s = s.
Proof.
  unfold stripTags, plainText.
  induction s as [|c s IH]; cbn [forallb stripFrom]; [reflexivity|].
  intros H. apply andb_prop in H. destruct H as [Hc Hs].
  apply andb_prop in Hc. destruct Hc as [Hlt _].
  apply negb_true_iff in Hlt. rewrite Hlt. cbn [andb]. now rewrite IH.
Qed.

(** The shape of the rendered elements, as the patterns see them. *)
Lemma cell_shape (c rest : jsstring) :
  cell c ++ rest = open cellRegex ++ [GT] ++ c ++ close cellRegex ++ rest.
Proof.
  unfold cell. change (js "<td>") with (open cellRegex ++ [GT]).
  change (js "</td>") with (close cellRegex). now rewrite <- !app_assoc.
Qed.

Lemma row_shape (cells : list jsstring) (rest : jsstring) :
  row cells ++ rest
  = open rowRegex ++ [GT] ++ List.concat (map cell cells) ++ close rowRegex ++ rest.
Proof.
  unfold row. change (js "<tr>") with (open rowRegex ++ [GT]).
  change (js "</tr>") with (close rowRegex). now rewrite <- !app_assoc.
Qed.

Lemma cells_found (cells : list jsstring) :
  Forall (fun c => plainText c = true) cells ->
  forall fuel, (List.length cells < fuel)%nat ->
  execAll fuel cellRegex (List.concat (map cell cells)) = cells.
Proof.
  induction 1 as [|c cells Hc _ IH]; intros fuel Hf.
  - destruct fuel; [lia|]. cbn [map List.concat execAll].
    now rewrite exec_nil by discriminate.
  - destruct fuel; [simpl in Hf; lia|]. cbn [map List.concat execAll].
    rewrite cell_shape, exec_element.
    + f_equal. apply IH. simpl in Hf. lia.
    + discriminate.
    + now apply (noMatchInside_plainText (tl (close cellRegex))).
Qed.

Lemma length_concat_cells (cells : list jsstring) :
  (List.length cells <= List.length (List.concat (map cell cells)))%nat.
Proof.
  induction cells as [|c cells IH]; simpl; [lia|].
  rewrite !length_app. simpl. lia.
Qed.

(** The cells the parser reads back from a rendered row. *)
Lemma rowCells_rendered (cells : list jsstring) :
  Forall (fun c => plainText c = true) cells ->
  rowCells (List.concat (map cell cells)) = map trim cells.
Proof.
  intros H. unfold rowCells.
  rewrite (cells_found cells H) by (pose proof (length_concat_cells cells); lia).
  apply map_ext_in. intros c Hc. rewrite Forall_forall in H.
  now rewrite stripTags_plainText by auto.
Qed.

Lemma noMatchInside_cells (p : jsstring) (cells : list jsstring) :
  noMatchInside (LT :: p) (js "<td>") = true ->
  noMatchInside (LT :: p) (js "</td>") = true ->
  Forall (fun c => plainText c = true) cells ->
  noMatchInside (LT :: p) (List.concat (map cell cells)) = true.
Proof.
  intros Ho Hc H. apply noMatchInside_concat. apply Forall_map.
  eapply Forall_impl; [|exact H]. intros c Hp. unfold cell.
  apply noMatchInside_append; [exact Ho|].
  apply noMatchInside_append; [now apply noMatchInside_plainText|exact Hc].
Qed.

Lemma rows_found (rows : list (list jsstring)) :
  Forall (Forall (fun c => plainText c = true)) rows ->
  forall fuel, (List.length rows < fuel)%nat ->
  execAll fuel rowRegex (body rows)
  = map (fun cells => List.concat (map cell cells)) rows.
Proof.
  unfold body.
  induction 1 as [|cells rows Hc _ IH]; intros fuel Hf.
  - destruct fuel; [lia|]. cbn [map List.concat execAll].
    now rewrite exec_nil by discriminate.
  - destruct fuel; [simpl in Hf; lia|]. cbn [map List.concat execAll].
    rewrite row_shape, exec_element.
    + f_equal. apply IH. simpl in Hf. lia.
    + discriminate.
    + apply (noMatchInside_cells (tl (close rowRegex))); [reflexivity|reflexivity|exact Hc].
Qed.

Lemma length_body (rows : list (list jsstring)) :
  (List.length rows <= List.length (body rows))%nat.
Proof.
  unfold body. induction rows as [|r rows IH]; cbn [map List.concat List.length]; [lia|].
  unfold row at 1. rewrite !length_app.
  change (List.length (js "<tr>")) with 4%nat. lia.
Qed.

Lemma noMatchInside_body (p : jsstring) (rows : list (list jsstring)) :
  noMatchInside (LT :: p) (js "<tr>") = true ->
  noMatchInside (LT :: p) (js "</tr>") = true ->
  noMatchInside (LT :: p) (js "<td>") = true ->
  noMatchInside (LT :: p) (js "</td>") = true ->
  Forall (Forall (fun c => plainText c = true)) rows ->
  noMatchInside (LT :: p) (body rows) = true.
Proof.
  intros H1 H2 H3 H4 H. apply noMatchInside_concat. apply Forall_map.
  eapply Forall_impl; [|exact H]. intros cells Hp. unfold row.
  apply noMatchInside_append; [exact H1|].
  apply noMatchInside_append; [now apply noMatchInside_cells|exact H2].
Qed.

Lemma tbodyMatch_table (rows : list (list jsstring)) :
  Forall (Forall (fun c => plainText c = true)) rows ->
  tbodyMatch (table rows) = Some (body rows).
Proof.
  intros H. unfold tbodyMatch, table.
  change (js "<table class='table table-shutdowns'><tbody>")
    with (js "<table class='table table-shutdowns'>" ++ open tbodyRe ++ [GT]).
  change (js "</tbody></table>") with (close tbodyRe ++ js "</table>").
  rewrite <- !app_assoc. rewrite exec_skip by reflexivity.
  rewrite exec_element; [reflexivity|discriminate|].
  now apply (noMatchInside_body (tl (close tbodyRe))).
Qed.

Lemma stripPrefix_app (p a b r : jsstring) :
  stripPrefix p a = Some r -> stripPrefix p (a ++ b) = Some (r ++ b).
Proof.
  revert a; induction p as [|x p IH]; intros a; simpl.
  - intros E. inversion E. reflexivity.
  - destruct a as [|y a]; [discriminate|]. simpl.
    destruct (x =? y)%N; [apply IH|discriminate].
Qed.

Lemma includes_app (needle a b : jsstring) :
  includes needle a = true -> includes needle (a ++ b) = true.
Proof.
  induction a as [|c a IH]; simpl.
  - destruct needle as [|x p]; [|discriminate]. intros _. now destruct b.
  - intros H. apply orb_prop in H. destruct H as [H|H].
    + unfold startsWith in *. destruct (stripPrefix needle (c :: a)) eqn:E; [|discriminate].
      change (c :: a ++ b) with ((c :: a) ++ b).
      now rewrite (stripPrefix_app needle (c :: a) b _ E).
    + rewrite (IH H). apply orb_true_r.
Qed.

(** Round trip.  A table rendered from rows of plain cell texts parses
    back to its rows of six or more cells, trimmed, numbered from 1. *)
Theorem parseHtmlTable_rendered (rows : list (list jsstring)) :
  Forall (Forall (fun c => plainText c = true)) rows ->
  let kept := filter hasSixCells (map (map trim) rows) in
  parseHtmlTable (table rows)
  = map (fun p => rowEvent (fst p) (snd p))
        (combine (idsFrom 1 (List.length kept)) kept).
Proof.
  intros H kept. unfold parseHtmlTable.
  assert (Hm : includes (js "table-shutdowns") (table rows) = true).
  { unfold table. apply includes_app. vm_compute. reflexivity. }
  rewrite Hm, (tbodyMatch_table rows H). cbn [negb].
  rewrite rowLoop_spec.
  rewrite (rows_found rows H) by (pose proof (length_body rows); lia).
  rewrite map_map.
  assert (E : map (fun cells => rowCells (List.concat (map cell cells))) rows
              = map (map trim) rows).
  { apply map_ext_in. intros cells Hc. apply rowCells_rendered.
    rewrite Forall_forall in H. now apply H. }
  rewrite E. reflexivity.
Qed.

End RenderedTables.

Lemma parseHtmlTable_rendered_sample :
  parseHtmlTable (Render.table Render.sevenRows)
  = map (fun p => rowEvent (fst p) (snd p))
        (combine (idsFrom 1 (List.length (filter hasSixCells (map (map trim) Render.sevenRows))))
                 (filter hasSixCells (map (map trim) Render.sevenRows))).
Proof.
  apply (parseHtmlTable_rendered Render.sevenRows).
  repeat constructor.
Defined.

(** Seven rows of six cells: seven events, numbered 1 to 7, in row
    order. *)
Example parseHtmlTable_seven_rows :
  map (fun e => (id e, type e)) (parseHtmlTable (Render.table Render.sevenRows))
  = [(IdNumber 1, js "A"); (IdNumber 2, js "B"); (IdNumber 3, js "C");
     (IdNumber 4, js "D"); (IdNumber 5, js "E"); (IdNumber 6, js "F");
     (IdNumber 7, js "G")].
Proof. vm_compute. reflexivity. Qed.
(** ** Retried calls, attempt by attempt *)






Lemma callsTo_repeat (c : Z) (m : jsstring) (ok : bool) (k : nat) :
  callsTo c (repeat (mkDelivery c m ok) k) = k.
Proof.
  unfold callsTo, deliveriesTo. induction k as [|k IH]; [reflexivity|].
  cbn [repeat filter chat]. rewrite Z.eqb_refl. cbn [List.length]. now rewrite IH.
Qed.

Lemma bot_sendMessage_run (c : Z) (m : jsstring) (w : World) :
  bot_sendMessage c m w
  = (if telegram w c (callsTo c (outbox w)) then Ok tt else Throw TelegramError,
     setOutbox (outbox w ++ [mkDelivery c m (telegram w c (callsTo c (outbox w)))]) w).
Proof. unfold bot_sendMessage. destruct (telegram w c _); reflexivity. Qed.

(** After [k] refused calls for a chat: [k] refused deliveries, [k] delays. *)
Lemma FailedAttempts_send (c : Z) (m : jsstring) (delayMs : Z) (k : nat) (w0 w : World) :
  FailedAttempts (tryCatch (bot_sendMessage c m) (fun error => throw error)) None
                 delayMs k w0 w ->
  outbox w = outbox w0 ++ repeat (mkDelivery c m false) k
  /\ clock w = clock w0 + Z.of_nat k * delayMs
  /\ sameEnvironment w0 w /\ stateFile w = stateFile w0 /\ requests w = requests w0
  /\ forall i, (i < k)%nat -> telegram w0 c (callsTo c (outbox w0) + i) = false.
Proof.
  induction 1 as [w0|k w0 w w1 w2 failure HF IH Hfn Hcb].
  - rewrite app_nil_r. split; [reflexivity|]. split; [cbn; lia|].
    split; [apply sameEnvironment_refl|]. split; [reflexivity|]. split; [reflexivity|].
    intros i Hi. exfalso. lia.
  - destruct IH as (Ho & Hc & He & Hs & Hr & Hprev).
    rewrite tryCatch_rethrow, bot_sendMessage_run in Hfn.
    assert (Hcalls : callsTo c (outbox w) = (callsTo c (outbox w0) + k)%nat).
    { rewrite Ho, callsTo_app, callsTo_repeat. reflexivity. }
    assert (Htg : telegram w = telegram w0) by apply He.
    rewrite Hcalls, Htg in Hfn.
    destruct (telegram w0 c (callsTo c (outbox w0) + k)) eqn:Hk; [discriminate|].
    inversion Hfn as [[Hfail Hw1]]; clear Hfn.
    cbn in Hcb. inversion Hcb; subst w2; clear Hcb. subst w1.
    cbn [delay snd setClock setOutbox outbox clock stateFile requests].
    rewrite Nat2Z.inj_succ.
    split.
    { rewrite Ho, <- app_assoc. f_equal.
      change (S k) with (1 + k)%nat. rewrite Nat.add_comm, repeat_app. reflexivity. }
    split; [lia|]. split; [exact He|]. split; [exact Hs|]. split; [exact Hr|].
    intros i Hi. destruct (Nat.eq_dec i k) as [->|Hne]; [exact Hk|apply Hprev; lia].
Qed.

(** A send, call by call: [k] refused calls, each followed by the delay,
    and one more call that decides. *)
Lemma sendTelegramMessage_run (message : jsstring) (chatId : option Z) (w : World) :
  1 <= RETRY_ATTEMPTS (config w) ->
  let c := orElse chatId (TELEGRAM_CHAT_ID (config w)) in
  let made := callsTo c (outbox w) in
  exists k : nat,
    Z.of_nat k < RETRY_ATTEMPTS (config w)
    /\ (forall i, (i < k)%nat -> telegram w c (made + i) = false)
    /\ outbox (snd (sendTelegramMessage message chatId w))
       = outbox w ++ repeat (mkDelivery c message false) k
                  ++ [mkDelivery c message (telegram w c (made + k))]
    /\ clock (snd (sendTelegramMessage message chatId w))
       = clock w + Z.of_nat k * RETRY_DELAY_MS (config w)
    /\ sameEnvironment w (snd (sendTelegramMessage message chatId w))
    /\ stateFile (snd (sendTelegramMessage message chatId w)) = stateFile w
    /\ requests (snd (sendTelegramMessage message chatId w)) = requests w
    /\ if telegram w c (made + k)
       then fst (sendTelegramMessage message chatId w) = Ok tt
       else Z.of_nat k + 1 = RETRY_ATTEMPTS (config w)
            /\ fst (sendTelegramMessage message chatId w) = Throw TelegramError.
Proof.
  intros Hn c made.
  pose (fn := tryCatch (bot_sendMessage c message) (fun error => throw error)).
  destruct (retryLoop_run fn (RETRY_ATTEMPTS (config w))
              (RETRY_DELAY_MS (config w)) None w
              callbackReturns_none (Z.to_nat (RETRY_ATTEMPTS (config w))) 0%nat w None)
    as (k & wk & HF & Hlt & Hrun).
  { rewrite Z2Nat.id; lia. }
  { lia. }
  { constructor. }
  destruct (FailedAttempts_send c message _ k w wk HF) as (Ho & Hc & He & Hs & Hr & Hprev).
  exists k. split; [exact Hlt|]. split; [exact Hprev|].
  assert (Hcalls : callsTo c (outbox wk) = (made + k)%nat).
  { rewrite Ho, callsTo_app, callsTo_repeat. reflexivity. }
  assert (Htg : telegram wk = telegram w) by apply He.
  unfold sendTelegramMessage, bind, reads. fold c. fold fn. unfold withRetry.
  unfold fn at 1 in Hrun. rewrite tryCatch_rethrow, bot_sendMessage_run in Hrun.
  rewrite Hcalls, Htg in Hrun. cbn [Z.of_nat Z.add] in Hrun.
  destruct (telegram w c (made + k)).
  - rewrite Hrun. cbn [fst snd setOutbox outbox clock stateFile requests].
    rewrite Ho, <- app_assoc.
    split; [reflexivity|]. split; [exact Hc|]. split; [exact He|].
    split; [exact Hs|]. split; [exact Hr|reflexivity].
  - destruct Hrun as [Hk Hrun]. rewrite Hrun.
    cbn [fst snd setOutbox outbox clock stateFile requests].
    rewrite Ho, <- app_assoc.
    split; [reflexivity|]. split; [exact Hc|]. split; [exact He|].
    split; [exact Hs|]. split; [exact Hr|]. split; [exact Hk|reflexivity].
Qed.

Lemma willAccept_false (w : World) (c : Z) :
  willAccept w c = false <->
  forall i, Z.of_nat i < RETRY_ATTEMPTS (config w) ->
            telegram w c (callsTo c (outbox w) + i) = false.
Proof.
  unfold willAccept. split.
  - intros H i Hi.
    destruct (telegram w c (callsTo c (outbox w) + i)) eqn:E; [|reflexivity].
    rewrite <- H. symmetry. apply existsb_exists. exists i. split; [|exact E].
    apply in_seq. lia.
  - intros H. destruct (existsb _ _) eqn:E; [|reflexivity].
    apply existsb_exists in E. destruct E as (i & Hi & E). apply in_seq in Hi.
    rewrite H in E; [discriminate|lia].
Qed.

Lemma willAccept_true (w : World) (c : Z) (k : nat) :
  Z.of_nat k < RETRY_ATTEMPTS (config w) ->
  telegram w c (callsTo c (outbox w) + k) = true -> willAccept w c = true.
Proof.
  intros Hk E. apply existsb_exists. exists k. split; [|exact E]. apply in_seq. lia.
Qed.

(** [sendTelegramMessage], call by call.  With [RETRY_ATTEMPTS >= 1] the
    target chat (the given one, or the default chat when none is given)
    is called until Telegram accepts a call, with the fixed delay after
    each refused one.  If one of the next [RETRY_ATTEMPTS] calls will be
    accepted, the send returns after it: [k] refused calls, the accepted
    one, [k] delays.  If not, the send throws the Telegram error after
    exactly [RETRY_ATTEMPTS] refused calls and [RETRY_ATTEMPTS - 1]
    delays.  Nothing else changes. *)
Theorem sendTelegramMessage_outcome (message : jsstring) (chatId : option Z) (w : World) :
  1 <= RETRY_ATTEMPTS (config w) ->
  let c := orElse chatId (TELEGRAM_CHAT_ID (config w)) in
  let made := callsTo c (outbox w) in
  let run := sendTelegramMessage message chatId w in
  (willAccept w c = true ->
   exists k : nat,
     Z.of_nat k < RETRY_ATTEMPTS (config w)
     /\ (forall i, (i < k)%nat -> telegram w c (made + i) = false)
     /\ telegram w c (made + k) = true
     /\ fst run = Ok tt
     /\ outbox (snd run)
        = outbox w ++ repeat (mkDelivery c message false) k ++ [mkDelivery c message true]
     /\ clock (snd run) = clock w + Z.of_nat k * RETRY_DELAY_MS (config w))
  /\ (willAccept w c = false ->
      fst run = Throw TelegramError
      /\ outbox (snd run)
         = outbox w ++ repeat (mkDelivery c message false)
                              (Z.to_nat (RETRY_ATTEMPTS (config w)))
      /\ clock (snd run)
         = clock w + (RETRY_ATTEMPTS (config w) - 1) * RETRY_DELAY_MS (config w))
  /\ sameEnvironment w (snd run)
  /\ stateFile (snd run) = stateFile w
  /\ requests (snd run) = requests w.
Proof.
  intros Hn c made run.
  destruct (sendTelegramMessage_run message chatId w Hn)
    as (k & Hlt & Hprev & Ho & Hc & He & Hs & Hr & Hres).
  fold c made run in Hprev, Ho, Hc, He, Hs, Hr, Hres.
  split; [|split; [|auto]].
  - intros Hw. destruct (telegram w c (made + k)) eqn:E.
    + exists k. repeat split; assumption.
    + exfalso. destruct Hres as [Hk _].
      assert (F : willAccept w c = false).
      { apply willAccept_false. intros i Hi. fold made.
        destruct (Nat.eq_dec i k) as [->|Hne]; [exact E|apply Hprev; lia]. }
      congruence.
  - intros Hw. destruct (telegram w c (made + k)) eqn:E.
    + exfalso. rewrite (willAccept_true w c k Hlt E) in Hw. discriminate.
    + destruct Hres as [Hk Hres]. split; [exact Hres|].
      replace (Z.to_nat (RETRY_ATTEMPTS (config w))) with (k + 1)%nat by lia.
      rewrite repeat_app. split; [exact Ho|].
      rewrite Hc. f_equal. f_equal. lia.
Qed.

Lemma sendTelegramMessage_result (m : jsstring) (c : Z) (w : World) :
  1 <= RETRY_ATTEMPTS (config w) ->
  fst (sendTelegramMessage m (Some c) w)
  = if willAccept w c then Ok tt else Throw TelegramError.
Proof.
  intros Hn.
  destruct (sendTelegramMessage_run m (Some c) w Hn)
    as (k & Hlt & Hprev & _ & _ & _ & _ & _ & Hres).
  cbn [orElse] in Hprev, Hres.
  destruct (telegram w c (callsTo c (outbox w) + k)) eqn:E.
  - now rewrite (willAccept_true w c k Hlt E).
  - destruct Hres as [Hk Hres]. rewrite Hres.
    replace (willAccept w c) with false; [reflexivity|].
    symmetry. apply willAccept_false. intros i Hi.
    destruct (Nat.eq_dec i k) as [->|Hne]; [exact E|apply Hprev; lia].
Qed.

Lemma sendTelegramMessage_clock (m : jsstring) (c : Z) (w : World) :
  1 <= RETRY_ATTEMPTS (config w) -> 0 <= RETRY_DELAY_MS (config w) ->
  clock w <= clock (snd (sendTelegramMessage m (Some c) w))
  <= clock w + (RETRY_ATTEMPTS (config w) - 1) * RETRY_DELAY_MS (config w).
Proof.
  intros Hn Hd.
  destruct (sendTelegramMessage_run m (Some c) w Hn)
    as (k & Hlt & _ & _ & Hc & _).
  rewrite Hc. nia.
Qed.

Lemma willAccept_sameFor (c : Z) (wa wb : World) :
  sameFor c wa wb -> willAccept wa c = willAccept wb c.
Proof.
  intros (A & B & D). unfold willAccept, callsTo. now rewrite A, B, D.
Qed.

(** The results of the fan-out, recipient by recipient. *)
Lemma allSettledFrom_results (m : jsstring) (w0 : World) (cs : list Z) (start : Z) :
  NoDup cs ->
  forall latest w,
    1 <= RETRY_ATTEMPTS (config w) ->
    (forall c, In c cs -> sameFor c w0 w) ->
    fst (allSettledFrom start latest (map (fun c => sendTelegramMessage m (Some c)) cs) w)
    = Ok (map (settledAs w0) cs).
Proof.
  induction 1 as [|c1 cs Hnotin Hnd IH]; intros latest w Hn Hsame; [reflexivity|].
  cbn [map allSettledFrom].
  pose proof (sendTelegramMessage_sentOnlyTo m c1 (setClock start w)) as S1.
  pose proof (sendTelegramMessage_result m c1 (setClock start w) Hn) as R1.
  rewrite <- (willAccept_sameFor c1 w0 (setClock start w)
                (setClock_sameFor c1 start w0 w (Hsame c1 (or_introl eq_refl)))) in R1.
  unfold bind at 1. unfold settle.
  destruct (sendTelegramMessage m (Some c1) (setClock start w)) as [r1 w1].
  cbn [snd] in S1. cbn [fst] in R1.
  assert (S0 : sentOnlyTo [c1] m w w1)
    by (eapply sentOnlyTo_trans; [apply setClock_sentOnlyTo|exact S1]).
  assert (Hn1 : 1 <= RETRY_ATTEMPTS (config w1)).
  { destruct S0 as ((_ & Hc & _) & _). now rewrite Hc. }
  specialize (IH (Z.max latest (clock w1)) w1 Hn1).
  assert (Hsame1 : forall c, In c cs -> sameFor c w0 w1).
  { intros c Hc. eapply sentOnlyTo_sameFor; [exact S0| |apply Hsame; now right].
    intros [<- | []]. contradiction. }
  specialize (IH Hsame1).
  subst r1. unfold settledAs at 1.
  destruct (willAccept w0 c1); unfold bind, reads, ret;
    destruct (allSettledFrom start (Z.max latest (clock w1)) _ w1) as [rs w'];
    cbn [fst] in IH |- *; now subst rs.
Qed.

Lemma allSettledFrom_clock (m : jsstring) (cs : list Z) (start : Z) :
  forall latest w r w',
    allSettledFrom start latest (map (fun c => sendTelegramMessage m (Some c)) cs) w
    = (r, w') ->
    1 <= RETRY_ATTEMPTS (config w) -> 0 <= RETRY_DELAY_MS (config w) ->
    latest <= clock w'
    <= Z.max latest
             (start + (RETRY_ATTEMPTS (config w) - 1) * RETRY_DELAY_MS (config w)).
Proof.
  induction cs as [|c1 cs IH]; intros latest w r w' Hrun Hn Hd;
    cbn [map allSettledFrom] in Hrun.
  - inversion Hrun. cbn [setClock clock]. lia.
  - pose proof (sendTelegramMessage_sentOnlyTo m c1 (setClock start w)) as S1.
    pose proof (sendTelegramMessage_clock m c1 (setClock start w) Hn Hd) as C1.
    unfold bind at 1 in Hrun. unfold settle in Hrun.
    destruct (sendTelegramMessage m (Some c1) (setClock start w)) as [r1 w1].
    cbn [snd] in S1, C1. cbn [setClock clock config] in C1.
    assert (Hcfg : config w1 = config w) by apply S1.
    specialize (IH (Z.max latest (clock w1)) w1).
    rewrite Hcfg in IH.
    destruct (allSettledFrom start (Z.max latest (clock w1))
                (map (fun c => sendTelegramMessage m (Some c)) cs) w1)
      as [rs w2] eqn:E.
    specialize (IH rs w2 eq_refl Hn Hd).
    assert (w' = w2).
    { destruct r1; unfold bind, reads, ret in Hrun; rewrite E in Hrun;
        destruct rs; now inversion Hrun. }
    subst w'. lia.
Qed.

Lemma filter_map_settled (w : World) (cs : list Z) :
  List.length (filter isFulfilled (map (settledAs w) cs))
  = List.length (filter (willAccept w) cs)
  /\ List.length (filter (fun r => negb (isFulfilled r)) (map (settledAs w) cs))
     = List.length (filter (fun c => negb (willAccept w c)) cs).
Proof.
  induction cs as [|c cs [IH1 IH2]]; [split; reflexivity|].
  cbn [map].
  change (settledAs w c) with (if willAccept w c then Fulfilled else Rejected TelegramError).
  destruct (willAccept w c) eqn:E; cbn [filter isFulfilled negb List.length];
    rewrite E; cbn [negb List.length]; split; congruence.
Qed.

(** The counts of a broadcast.  For a duplicate-free subscriber list,
    [RETRY_ATTEMPTS >= 1] and a delay that is not negative, a recipient is
    counted as successful exactly when Telegram accepts one of the next
    [RETRY_ATTEMPTS] calls made for it, whatever happens to the other
    recipients; and the broadcast takes no longer than one send with all
    its retries, however many recipients there are. *)
Theorem broadcast_counts (message : jsstring) (w : World) :
  NoDup (subscribers (currentState w)) ->
  1 <= RETRY_ATTEMPTS (config w) ->
  0 <= RETRY_DELAY_MS (config w) ->
  let recipients :=
    allRecipients (subscribers (currentState w)) (TELEGRAM_CHAT_ID (config w)) in
  let run := sendMessageToAllSubscribers message w in
  fst run = Ok (List.length (filter (willAccept w) recipients),
                List.length (filter (fun c => negb (willAccept w c)) recipients))
  /\ clock w <= clock (snd run)
     <= clock w + (RETRY_ATTEMPTS (config w) - 1) * RETRY_DELAY_MS (config w).
Proof.
  intros Hnd Hn Hd recipients run.
  destruct (allRecipients_spec _ (TELEGRAM_CHAT_ID (config w)) Hnd) as [Hnd' _].
  fold recipients in Hnd'.
  pose proof (allSettledFrom_results message w recipients (clock w) Hnd' (clock w) w Hn
                (fun c _ => sameFor_refl c w)) as Hres.
  unfold run, sendMessageToAllSubscribers, getSubscribers, bind, reads, ret.
  rewrite loadState_currentState. fold recipients.
  destruct (List.length recipients =? 0)%nat eqn:E.
  - apply Nat.eqb_eq, length_zero_iff_nil in E. rewrite E. cbn. split; [reflexivity|nia].
  - unfold allSettled.
    destruct (allSettledFrom (clock w) (clock w) _ w) as [[rs|t] w'] eqn:Erun;
      cbn [fst snd] in Hres |- *; [|discriminate].
    pose proof (allSettledFrom_clock message recipients (clock w) (clock w) w _ w'
                  Erun Hn Hd) as Hclk.
    inversion Hres; subst rs.
    destruct (filter_map_settled w recipients) as [-> ->].
    assert (0 <= (RETRY_ATTEMPTS (config w) - 1) * RETRY_DELAY_MS (config w)) by nia.
    split; [reflexivity|lia].
Qed.
(** ** The command handlers *)

Lemma filter_snoc_absent (xs : list Z) (x : Z) :
  ~ In x xs -> filter (fun id => negb (id =? x)) (xs ++ [x]) = xs.
Proof.
  intros H. rewrite filter_app. cbn [filter]. rewrite Z.eqb_refl. cbn [negb].
  rewrite app_nil_r. induction xs as [|y xs IH]; [reflexivity|].
  cbn [filter]. destruct (Z.eqb_spec y x) as [->|Hne].
  - exfalso. apply H. now left.
  - cbn [negb]. f_equal. apply IH. intros Hin. apply H. now right.
Qed.

(** A handler's run, written out. *)
Lemma onStart_run (chatId : Z) (w : World) :
  onStart chatId w =
  (Ok tt,
   if includesId (subscribers (currentState w)) chatId
   then answered chatId Reply.alreadySubscribed w
   else if diskWritable w
        then answered chatId Reply.subscribed
               (setStateFile
                  (Stored (stringified
                     {| lastMessageHash := lastMessageHash (currentState w);
                        lastCheckTime := lastCheckTime (currentState w);
                        lastEventIds := lastEventIds (currentState w);
                        subscribers := subscribers (currentState w) ++ [chatId] |})) w)
        else w).
Proof.
  unfold onStart, tryCatch, addSubscriber. unfold bind at 1. unfold bind at 1.
  rewrite loadState_currentState.
  destruct (includesId (subscribers (currentState w)) chatId).
  - unfold bind, ret. rewrite bot_sendMessage_run. unfold answered.
    now destruct (telegram w chatId _).
  - unfold saveState, bind, ret. destruct (diskWritable w); [|reflexivity].
    rewrite bot_sendMessage_run. unfold answered.
    cbn [setStateFile telegram outbox]. now destruct (telegram w chatId _).
Qed.

Lemma onStop_run (chatId : Z) (w : World) :
  onStop chatId w =
  (Ok tt,
   if negb (includesId (subscribers (currentState w)) chatId)
   then answered chatId Reply.notSubscribed w
   else if diskWritable w
        then answered chatId Reply.unsubscribed
               (setStateFile
                  (Stored (stringified
                     {| lastMessageHash := lastMessageHash (currentState w);
                        lastCheckTime := lastCheckTime (currentState w);
                        lastEventIds := lastEventIds (currentState w);
                        subscribers := filter (fun id => negb (id =? chatId))
                                              (subscribers (currentState w)) |})) w)
        else w).
Proof.
  unfold onStop, tryCatch, removeSubscriber. unfold bind at 1. unfold bind at 1.
  rewrite loadState_currentState.
  destruct (includesId (subscribers (currentState w)) chatId); cbn [negb].
  - unfold saveState, bind, ret. destruct (diskWritable w); [|reflexivity].
    rewrite bot_sendMessage_run. unfold answered.
    cbn [setStateFile telegram outbox]. now destruct (telegram w chatId _).
  - unfold bind, ret. rewrite bot_sendMessage_run. unfold answered.
    now destruct (telegram w chatId _).
Qed.

Lemma onStatus_run (chatId : Z) (w : World) :
  onStatus chatId w =
  (Ok tt,
   answered chatId
     (if includesId (subscribers (currentState w)) chatId
      then Reply.statusSubscribed else Reply.statusNotSubscribed) w).
Proof.
  unfold onStatus, tryCatch, getSubscribers. unfold bind at 1. unfold bind at 1.
  rewrite loadState_currentState. unfold bind, ret.
  rewrite bot_sendMessage_run. unfold answered. now destruct (telegram w chatId _).
Qed.

Lemma currentState_answered (chatId : Z) (reply : jsstring) (w : World) :
  currentState (answered chatId reply w) = currentState w.
Proof. now apply currentState_stateFile. Qed.

(** [/start].  The handler never throws.  With a disk that takes the
    write it leaves the chat subscribed (appended when it was not) and
    the rest of the state as it was, and it answers with exactly one
    call for that chat: the welcome when the chat is new, the "already
    subscribed" notice otherwise.  When the chat is new and the write
    fails, nothing is stored and nothing is answered. *)
Theorem onStart_subscribes (chatId : Z) (w : World) :
  let w' := snd (onStart chatId w) in
  let was := includesId (subscribers (currentState w)) chatId in
  fst (onStart chatId w) = Ok tt
  /\ (diskWritable w = true ->
      subscribers (currentState w')
      = (if was then subscribers (currentState w)
         else subscribers (currentState w) ++ [chatId])
      /\ In chatId (subscribers (currentState w'))
      /\ lastMessageHash (currentState w') = lastMessageHash (currentState w)
      /\ lastCheckTime (currentState w') = lastCheckTime (currentState w)
      /\ lastEventIds (currentState w') = lastEventIds (currentState w)
      /\ outbox w'
         = outbox w
           ++ [mkDelivery chatId
                 (if was then Reply.alreadySubscribed else Reply.subscribed)
                 (telegram w chatId (callsTo chatId (outbox w)))])
  /\ (diskWritable w = false -> was = false -> w' = w).
Proof.
  cbv zeta. rewrite onStart_run. cbn [fst snd].
  split; [reflexivity|].
  destruct (includesId (subscribers (currentState w)) chatId) eqn:E.
  - split; [|discriminate]. intros _. rewrite currentState_answered.
    split; [reflexivity|]. split; [now apply includesId_In|].
    repeat split.
  - split.
    + intros ->. rewrite currentState_answered, currentState_stored.
      cbn [subscribers lastMessageHash lastCheckTime lastEventIds].
      split; [reflexivity|]. split; [apply in_app_iff; right; now left|].
      repeat split.
    + now intros ->.
Qed.

(** [/stop].  The handler never throws.  With a disk that takes the
    write it leaves the chat unsubscribed, the other subscribers in
    their order and the rest of the state as it was, and it answers with
    exactly one call for that chat: the farewell when the chat was
    subscribed, the "were not subscribed" notice otherwise.  When the
    chat was subscribed and the write fails, nothing is stored and
    nothing is answered. *)
Theorem onStop_unsubscribes (chatId : Z) (w : World) :
  let w' := snd (onStop chatId w) in
  let was := includesId (subscribers (currentState w)) chatId in
  fst (onStop chatId w) = Ok tt
  /\ (diskWritable w = true ->
      subscribers (currentState w')
      = filter (fun id => negb (id =? chatId)) (subscribers (currentState w))
      /\ ~ In chatId (subscribers (currentState w'))
      /\ lastMessageHash (currentState w') = lastMessageHash (currentState w)
      /\ lastCheckTime (currentState w') = lastCheckTime (currentState w)
      /\ lastEventIds (currentState w') = lastEventIds (currentState w)
      /\ outbox w'
         = outbox w
           ++ [mkDelivery chatId
                 (if was then Reply.unsubscribed else Reply.notSubscribed)
                 (telegram w chatId (callsTo chatId (outbox w)))])
  /\ (diskWritable w = false -> was = true -> w' = w).
Proof.
  cbv zeta. rewrite onStop_run. cbn [fst snd].
  split; [reflexivity|].
  assert (Hgone : forall xs, ~ In chatId (filter (fun id => negb (id =? chatId)) xs)).
  { intros xs H. apply filter_In in H. destruct H as [_ H].
    rewrite Z.eqb_refl in H. discriminate. }
  destruct (includesId (subscribers (currentState w)) chatId) eqn:E; cbn [negb].
  - split.
    + intros ->. rewrite currentState_answered, currentState_stored.
      cbn [subscribers lastMessageHash lastCheckTime lastEventIds].
      split; [reflexivity|]. split; [apply Hgone|]. repeat split.
    + now intros ->.
  - split; [|discriminate]. intros _. rewrite currentState_answered.
    apply includesId_false in E.
    assert (Hsame : filter (fun id => negb (id =? chatId)) (subscribers (currentState w))
                    = subscribers (currentState w)).
    { apply forallb_filter_id. apply forallb_forall. intros x Hx.
      apply negb_true_iff, Z.eqb_neq. intros ->. contradiction. }
    rewrite Hsame. split; [reflexivity|]. split; [exact E|]. repeat split.
Qed.

Lemma status_replies_differ : Reply.statusSubscribed <> Reply.statusNotSubscribed.
Proof. intros H. vm_compute in H. discriminate H. Qed.

(** [/status].  The handler never throws and changes nothing but the
    outbox: it makes exactly one call for the chat, and the text it sends
    is the "subscribed" one exactly when the chat is in the stored
    subscriber list and the "not subscribed" one otherwise. *)
Theorem onStatus_reports (chatId : Z) (w : World) :
  let w' := snd (onStatus chatId w) in
  fst (onStatus chatId w) = Ok tt
  /\ stateFile w' = stateFile w
  /\ sameEnvironment w w'
  /\ exists reply,
       outbox w'
       = outbox w ++ [mkDelivery chatId reply (telegram w chatId (callsTo chatId (outbox w)))]
       /\ (reply = Reply.statusSubscribed <-> In chatId (subscribers (currentState w)))
       /\ (reply = Reply.statusNotSubscribed <-> ~ In chatId (subscribers (currentState w))).
Proof.
  cbv zeta. rewrite onStatus_run. cbn [fst snd]. unfold answered.
  cbn [stateFile outbox setOutbox]. split; [reflexivity|]. split; [reflexivity|].
  split; [unfold sameEnvironment; cbn; auto 10|].
  eexists. split; [reflexivity|].
  pose proof status_replies_differ as Hne.
  destruct (includesId (subscribers (currentState w)) chatId) eqn:E.
  - apply includesId_In in E. split; split.
    + intros _. exact E.
    + intros _. reflexivity.
    + intros H _. exact (Hne H).
    + intros H. contradiction.
  - apply includesId_false in E. split; split.
    + intros H. exfalso. apply Hne. symmetry. exact H.
    + intros H. contradiction.
    + intros _. exact E.
    + intros _. reflexivity.
Qed.

Lemma onStart_environment (chatId : Z) (w : World) :
  config (snd (onStart chatId w)) = config w.
Proof.
  rewrite onStart_run. cbn [snd].
  destruct (includesId _ _); [reflexivity|]. now destruct (diskWritable w).
Qed.

Lemma onStop_environment (chatId : Z) (w : World) :
  config (snd (onStop chatId w)) = config w.
Proof.
  rewrite onStop_run. cbn [snd].
  destruct (negb (includesId _ _)); [reflexivity|]. now destruct (diskWritable w).
Qed.

Lemma In_allRecipients (subs : list Z) (d c : Z) :
  In c (allRecipients subs d) <-> In c subs \/ c = d.
Proof.
  unfold allRecipients. destruct (includesId subs d) eqn:E.
  - apply includesId_In in E. split; [auto|]. intros [H | ->]; auto.
  - rewrite in_app_iff. simpl. intuition.
Qed.

Lemma onStart_subscribed (chatId : Z) (w : World) :
  diskWritable w = true ->
  In chatId (subscribers (currentState (snd (onStart chatId w)))).
Proof.
  intros Hd. rewrite onStart_run, Hd. cbn [snd].
  destruct (includesId (subscribers (currentState w)) chatId) eqn:E;
    rewrite currentState_answered.
  - now apply includesId_In.
  - rewrite currentState_stored. cbn [subscribers]. apply in_app_iff. right. now left.
Qed.

Lemma onStop_unsubscribed (chatId : Z) (w : World) :
  diskWritable w = true ->
  ~ In chatId (subscribers (currentState (snd (onStop chatId w)))).
Proof.
  intros Hd. rewrite onStop_run, Hd. cbn [snd].
  destruct (includesId (subscribers (currentState w)) chatId) eqn:E; cbn [negb];
    rewrite currentState_answered.
  - rewrite currentState_stored. cbn [subscribers]. intros H.
    apply filter_In in H. destruct H as [_ H]. rewrite Z.eqb_refl in H. discriminate.
  - now apply includesId_false.
Qed.

(** Subscriptions and broadcasts.  With a disk that takes the write and
    [RETRY_ATTEMPTS >= 1]: the broadcast that follows a [/start] of a
    chat calls [sendMessage] for that chat; the broadcast that follows a
    [/stop] of a chat other than the default chat makes no call for it;
    and the default chat is called by every broadcast, also right after
    its own [/stop]. *)
Theorem broadcast_follows_subscription (chatId : Z) (message : jsstring) (w : World) :
  diskWritable w = true ->
  1 <= RETRY_ATTEMPTS (config w) ->
  (let w1 := snd (onStart chatId w) in
   (callsTo chatId (outbox w1)
    < callsTo chatId (outbox (snd (sendMessageToAllSubscribers message w1))))%nat)
  /\ (let w1 := snd (onStop chatId w) in
      chatId <> TELEGRAM_CHAT_ID (config w) ->
      deliveriesTo chatId (outbox (snd (sendMessageToAllSubscribers message w1)))
      = deliveriesTo chatId (outbox w1))
  /\ (let w1 := snd (onStop (TELEGRAM_CHAT_ID (config w)) w) in
      (callsTo (TELEGRAM_CHAT_ID (config w)) (outbox w1)
       < callsTo (TELEGRAM_CHAT_ID (config w))
                 (outbox (snd (sendMessageToAllSubscribers message w1))))%nat).
Proof.
  intros Hd Hn. split; [|split]; cbv zeta.
  - pose proof (onStart_subscribed chatId w Hd) as Hin.
    pose proof (onStart_environment chatId w) as Hcfg.
    destruct (sendMessageToAllSubscribers_run message (snd (onStart chatId w)))
      as (s & f & w2 & Hrun & _ & _ & Hcalls); [now rewrite Hcfg|].
    rewrite Hrun. cbn [snd]. apply Hcalls. apply In_allRecipients. now left.
  - intros Hne.
    pose proof (onStop_unsubscribed chatId w Hd) as Hout.
    pose proof (onStop_environment chatId w) as Hcfg.
    destruct (sendMessageToAllSubscribers_returns message (snd (onStop chatId w)))
      as (counts & w2 & Hrun & Hsent).
    rewrite Hrun. cbn [snd].
    apply (sentOnlyTo_deliveriesTo _ _ _ _ chatId Hsent).
    rewrite In_allRecipients, Hcfg. tauto.
  - pose proof (onStop_environment (TELEGRAM_CHAT_ID (config w)) w) as Hcfg.
    destruct (sendMessageToAllSubscribers_run message
                (snd (onStop (TELEGRAM_CHAT_ID (config w)) w)))
      as (s & f & w2 & Hrun & _ & _ & Hcalls); [now rewrite Hcfg|].
    rewrite Hrun. cbn [snd]. apply Hcalls. apply In_allRecipients. right.
    now rewrite Hcfg.
Qed.
(** ** Cycles that go wrong, and cycles in a row *)

Lemma onlyRefused_refl (w : World) : onlyRefused w w.
Proof.
  split; [apply sameEnvironment_refl|]. split; [reflexivity|]. split; [reflexivity|].
  exists []. split; [now rewrite app_nil_r|constructor].
Qed.

Lemma onlyRefused_trans (w1 w2 w3 : World) :
  onlyRefused w1 w2 -> onlyRefused w2 w3 -> onlyRefused w1 w3.
Proof.
  intros (E1 & S1 & R1 & ds1 & O1 & F1) (E2 & S2 & R2 & ds2 & O2 & F2).
  split; [eapply sameEnvironment_trans; eauto|]. split; [congruence|].
  split; [congruence|]. exists (ds1 ++ ds2). split.
  - now rewrite O2, O1, app_assoc.
  - apply Forall_app. auto.
Qed.

Lemma unreachable_environment (w w' : World) :
  sameEnvironment w w' -> unreachable w -> unreachable w'.
Proof. intros (_ & _ & _ & _ & Ht) H c k. rewrite Ht. apply H. Qed.

(** With Telegram refusing every call, a send leaves refused calls only. *)
Lemma sendTelegramMessage_refused (m : jsstring) (c : Z) (w : World) :
  unreachable w -> onlyRefused w (snd (sendTelegramMessage m (Some c) w)).
Proof.
  revert w. unfold sendTelegramMessage, bind, reads, withRetry. cbn [orElse].
  intros w. generalize (RETRY_ATTEMPTS (config w)) (RETRY_DELAY_MS (config w)).
  intros attempts delayMs.
  apply (retryLoop_respects
           (tryCatch (bot_sendMessage c m) (fun error => throw error))
           attempts delayMs None
           (fun w w' => unreachable w -> onlyRefused w w')).
  - intros w1 _. apply onlyRefused_refl.
  - intros w1 w2 w3 H12 H23 H1. specialize (H12 H1).
    eapply onlyRefused_trans; [exact H12|]. apply H23.
    eapply unreachable_environment; [|exact H1]. apply H12.
  - intros w1 H1. rewrite tryCatch_rethrow, bot_sendMessage_run, H1. cbn [snd].
    split; [unfold sameEnvironment; cbn; auto 10|].
    split; [reflexivity|]. split; [reflexivity|].
    eexists. split; [reflexivity|]. repeat constructor.
  - intros e a w1 _. apply onlyRefused_refl.
  - intros w1 _. split; [unfold sameEnvironment; cbn; auto 10|]. split; [reflexivity|].
    split; [reflexivity|]. exists []. split; [now rewrite app_nil_r|constructor].
Qed.

Lemma setClock_onlyRefused (t : Z) (w : World) : onlyRefused w (setClock t w).
Proof.
  split; [unfold sameEnvironment; cbn; auto 10|]. split; [reflexivity|]. split; [reflexivity|].
  exists []. split; [now rewrite app_nil_r|constructor].
Qed.

Lemma allSettledFrom_refused (m : jsstring) (cs : list Z) (start : Z) :
  forall latest w,
    unreachable w ->
    onlyRefused w (snd (allSettledFrom start latest
                          (map (fun c => sendTelegramMessage m (Some c)) cs) w)).
Proof.
  induction cs as [|c cs IH]; intros latest w Hw; cbn [map allSettledFrom].
  - apply setClock_onlyRefused.
  - pose proof (sendTelegramMessage_refused m c (setClock start w) Hw) as S1.
    unfold bind at 1. unfold settle.
    destruct (sendTelegramMessage m (Some c) (setClock start w)) as [r1 w1].
    cbn [snd] in S1.
    assert (S0 : onlyRefused w w1)
      by (eapply onlyRefused_trans; [apply setClock_onlyRefused|exact S1]).
    assert (Hw1 : unreachable w1)
      by (eapply unreachable_environment; [apply S0|exact Hw]).
    specialize (IH (Z.max latest (clock w1)) w1 Hw1).
    eapply onlyRefused_trans; [exact S0|].
    destruct r1; unfold bind, reads, ret;
      destruct (allSettledFrom start (Z.max latest (clock w1)) _ w1) as [[rs|t'] w'];
      exact IH.
Qed.

Lemma sendMessageToAllSubscribers_refused (message : jsstring) (w : World) :
  unreachable w ->
  onlyRefused w (snd (sendMessageToAllSubscribers message w)).
Proof.
  intros Hw. unfold sendMessageToAllSubscribers, getSubscribers, bind, reads, ret.
  rewrite loadState_currentState.
  destruct (List.length _ =? 0)%nat; [apply onlyRefused_refl|].
  unfold allSettled.
  pose proof (allSettledFrom_refused message
                (allRecipients (subscribers (currentState w)) (TELEGRAM_CHAT_ID (config w)))
                (clock w) (clock w) w Hw) as H.
  destruct (allSettledFrom (clock w) (clock w) _ w) as [[rs|t] w']; exact H.
Qed.

(** A broadcast that reaches nobody is recorded as made.  When the check
    of a cycle finds new content, the disk takes the write and Telegram
    refuses every call, [checkAndNotify] still returns normally and
    stores the fresh hash: calls were made, all of them were refused, and
    the state says the message has been sent. *)
Theorem checkAndNotify_unreachable (w wf : World) (res : ShutdownCheckResult) :
  checkShutdownEvents w = (Ok res, wf) ->
  lastMessageHash (currentState wf) <> Some (contentHash res) ->
  diskWritable w = true ->
  1 <= RETRY_ATTEMPTS (config w) ->
  unreachable w ->
  exists w1 ds,
    checkAndNotify w = (Ok tt, w1)
    /\ outbox w1 = outbox w ++ ds
    /\ ds <> []
    /\ Forall (fun d => accepted d = false) ds
    /\ lastMessageHash (currentState w1) = Some (contentHash res).
Proof.
  intros Hcheck Hnew Hd Hn Hw.
  destruct (checkShutdownEvents_result w wf res Hcheck) as ((Ef & Sf & Of) & _).
  destruct (checkAndNotify_runs w wf res Hcheck Hnew Hd)
    as (counts & ws & w1 & Hsend & Hrun & O1 & Hstored & _).
  assert (Hwf : unreachable wf) by (eapply unreachable_environment; eauto).
  pose proof (sendMessageToAllSubscribers_refused (formattedMessage res) wf Hwf) as R.
  assert (Hn' : 1 <= RETRY_ATTEMPTS (config wf)).
  { destruct Ef as (_ & Hc & _). now rewrite Hc. }
  destruct (sendMessageToAllSubscribers_run (formattedMessage res) wf Hn')
    as (s & f & ws' & Hsend' & _ & _ & Hcalls).
  rewrite Hsend in Hsend'. inversion Hsend'; subst ws'; clear Hsend'.
  rewrite Hsend in R. cbn [snd] in R.
  destruct R as (_ & _ & _ & ds & Ods & Fds).
  exists w1, ds. split; [exact Hrun|]. split; [now rewrite O1, Ods, Of|].
  split; [|split; [exact Fds|exact Hstored]].
  intros ->. rewrite app_nil_r in Ods.
  specialize (Hcalls (TELEGRAM_CHAT_ID (config wf))).
  rewrite Ods in Hcalls. apply (Nat.lt_irrefl _ (Hcalls ltac:(apply In_allRecipients; now right))).
Qed.

(** The error notification is one send of the summary to the default
    chat, whose failure is swallowed; it makes at least one call. *)
Lemma sendErrorNotification_send (e : Error) (w : World) :
  snd (sendErrorNotification (ThrownError e) w)
  = snd (sendTelegramMessage (errorSummary e) None w).
Proof.
  unfold sendErrorNotification, errorSummary, bind, liftResult, tryCatch.
  cbn [messageOf].
  now destruct (sendTelegramMessage _ None w) as [[[]|t] w1].
Qed.

Lemma sendTelegramMessage_default_call (m : jsstring) (w : World) :
  1 <= RETRY_ATTEMPTS (config w) ->
  exists ok,
    In (mkDelivery (TELEGRAM_CHAT_ID (config w)) m ok)
       (outbox (snd (sendTelegramMessage m None w))).
Proof.
  intros Hn.
  destruct (sendTelegramMessage_run m None w Hn) as (k & _ & _ & Ho & _).
  cbn [orElse] in Ho.
  eexists. rewrite Ho, !in_app_iff. right. right. left. reflexivity.
Qed.

Lemma sendErrorNotification_calls (e : Error) (w : World) :
  1 <= RETRY_ATTEMPTS (config w) ->
  exists ok,
    In (mkDelivery (TELEGRAM_CHAT_ID (config w)) (errorSummary e) ok)
       (outbox (snd (sendErrorNotification (ThrownError e) w))).
Proof.
  intros Hn. rewrite sendErrorNotification_send.
  now apply sendTelegramMessage_default_call.
Qed.

(** One cycle on a disk that refuses the write: the broadcast is made,
    the write fails, the error summary goes to the default chat, and the
    failure is thrown; the state file is as it was. *)
Lemma checkAndNotify_write_fails (w wf : World) (res : ShutdownCheckResult) :
  checkShutdownEvents w = (Ok res, wf) ->
  lastMessageHash (currentState wf) <> Some (contentHash res) ->
  diskWritable w = false ->
  1 <= RETRY_ATTEMPTS (config w) ->
  exists counts ws w1,
    sendMessageToAllSubscribers (formattedMessage res) wf = (Ok counts, ws)
    /\ checkAndNotify w = (Throw WriteFailed, w1)
    /\ sentOnlyTo [TELEGRAM_CHAT_ID (config w)] (errorSummary (toError WriteFailed)) ws w1
    /\ (exists ok, In (mkDelivery (TELEGRAM_CHAT_ID (config w))
                                  (errorSummary (toError WriteFailed)) ok) (outbox w1))
    /\ sameEnvironment w w1
    /\ stateFile w1 = stateFile w
    /\ requests w1 = requests wf
    /\ forall c,
         In c (allRecipients (subscribers (currentState w)) (TELEGRAM_CHAT_ID (config w))) ->
         (callsTo c (outbox w) < callsTo c (outbox w1))%nat.
Proof.
  intros Hcheck Hnew Hd Hn.
  destruct (checkShutdownEvents_result w wf res Hcheck) as ((Ef & Sf & Of) & _ & Hh).
  assert (Hn' : 1 <= RETRY_ATTEMPTS (config wf)).
  { destruct Ef as (_ & Hc & _). now rewrite Hc. }
  destruct (sendMessageToAllSubscribers_run (formattedMessage res) wf Hn')
    as (s & f & ws & Hsend & _ & Ss & Hcalls).
  assert (Hd' : diskWritable ws = false).
  { destruct Ef as (_ & _ & A & _), Ss as ((_ & _ & B & _) & _). congruence. }
  destruct (sendErrorNotification_run (toError WriteFailed) ws) as (w1 & Herr & Se).
  assert (Hcfg : config ws = config w).
  { destruct Ef as (_ & A & _), Ss as ((_ & B & _) & _). congruence. }
  destruct (sendErrorNotification_calls (toError WriteFailed) ws) as (ok & Hcall);
    [now rewrite Hcfg|].
  rewrite Herr in Hcall. cbn [snd] in Hcall.
  rewrite Hcfg in Se, Hcall.
  exists (s, f), ws, w1. split; [exact Hsend|]. split.
  - unfold checkAndNotify, tryCatch. unfold bind at 1. rewrite Hcheck.
    unfold bind at 1. rewrite getLastMessageHash_run.
    destruct (unchanged _ _) eqn:U.
    { rewrite Hh in U. apply unchanged_iff in U. rewrite <- Hh in U. contradiction. }
    unfold bind at 1. rewrite Hsend, (updateLastMessageHash_throws _ ws Hd').
    unfold bind. change (ThrownError (toError WriteFailed)) with WriteFailed in Herr.
    rewrite Herr. reflexivity.
  - split; [exact Se|]. split; [exists ok; exact Hcall|].
    destruct Ss as (Es & Sts & Rs & Os), Se as (Ee & Ste & Re & Oe).
    split; [eapply sameEnvironment_trans; [exact Ef|];
            eapply sameEnvironment_trans; [exact Es|exact Ee]|].
    split; [congruence|]. split; [congruence|].
    intros c Hc. rewrite (currentState_stateFile w wf Sf) in Hcalls.
    assert (A : config wf = config w) by apply Ef. rewrite A in Hcalls.
    specialize (Hcalls c Hc). rewrite Of in Hcalls.
    destruct Oe as (ds & Ods & _). rewrite Ods, callsTo_app. lia.
Qed.

(** A disk that refuses the write makes every cycle broadcast again.
    When the upstream answers every request with the same readable
    response, the content is new and the write of the state fails, a
    cycle broadcasts the message, sends the error summary to the default
    chat and throws the write error, leaving the state file as it was;
    so the next cycle does the same, and every recipient is called again. *)
Theorem checkAndNotify_disk_failure (w : World) (st : Z) (body : jsstring)
  (evs : list ShutdownEvent) :
  (forall n, upstream w n = Response true st body) ->
  interpretText (runtime w) body = Ok evs ->
  1 <= RETRY_ATTEMPTS (config w) ->
  diskWritable w = false ->
  lastMessageHash (currentState w)
  <> Some (createContentHash (formatShutdownMessage (runtime w) evs)) ->
  let recipients :=
    allRecipients (subscribers (currentState w)) (TELEGRAM_CHAT_ID (config w)) in
  exists w1 w2,
    checkAndNotify w = (Throw WriteFailed, w1)
    /\ checkAndNotify w1 = (Throw WriteFailed, w2)
    /\ stateFile w1 = stateFile w /\ stateFile w2 = stateFile w
    /\ (exists ok, In (mkDelivery (TELEGRAM_CHAT_ID (config w))
                                  (errorSummary (toError WriteFailed)) ok) (outbox w1))
    /\ forall c, In c recipients ->
                 (callsTo c (outbox w) < callsTo c (outbox w1))%nat
                 /\ (callsTo c (outbox w1) < callsTo c (outbox w2))%nat.
Proof.
  intros Hup Hint Hn Hd Hnew recipients.
  assert (step : forall v,
             (forall n, upstream v n = Response true st body) ->
             runtime v = runtime w -> config v = config w ->
             diskWritable v = false -> stateFile v = stateFile w ->
             exists v1,
               checkAndNotify v = (Throw WriteFailed, v1)
               /\ sameEnvironment v v1 /\ stateFile v1 = stateFile v
               /\ (exists ok, In (mkDelivery (TELEGRAM_CHAT_ID (config w))
                                             (errorSummary (toError WriteFailed)) ok)
                                 (outbox v1))
               /\ forall c, In c recipients ->
                            (callsTo c (outbox v) < callsTo c (outbox v1))%nat).
  { intros v Hupv Hrt Hcfg Hdv Hsv.
    pose proof (checkShutdownEvents_first_attempt v st body evs (Hupv _)) as Hc.
    rewrite Hrt, Hcfg in Hc. specialize (Hc Hint Hn).
    set (res := {| hasEvents := (0 <? List.length evs)%nat; events := evs;
                   formattedMessage := formatShutdownMessage (runtime w) evs;
                   contentHash := createContentHash (formatShutdownMessage (runtime w) evs) |})
      in Hc.
    assert (Hnew' : lastMessageHash (currentState (setRequests (S (requests v)) v))
                    <> Some (contentHash res)).
    { rewrite (currentState_stateFile v (setRequests (S (requests v)) v) eq_refl).
      rewrite (currentState_stateFile w v Hsv). exact Hnew. }
    destruct (checkAndNotify_write_fails v _ res Hc Hnew' Hdv)
      as (counts & ws & v1 & _ & Hrun & _ & Herr & Ev & Sv & _ & Hcalls);
      [now rewrite Hcfg|].
    exists v1. split; [exact Hrun|]. split; [exact Ev|]. split; [exact Sv|].
    split; [now rewrite <- Hcfg|].
    intros c Hc'. apply Hcalls.
    rewrite (currentState_stateFile w v Hsv), Hcfg. exact Hc'. }
  destruct (step w Hup eq_refl eq_refl Hd eq_refl) as (w1 & Hrun1 & E1 & S1 & N1 & C1).
  destruct E1 as (Hrt1 & Hcfg1 & Hd1 & Hup1 & Htg1).
  destruct (step w1) as (w2 & Hrun2 & E2 & S2 & _ & C2);
    [intros n; rewrite Hup1; apply Hup|exact Hrt1|exact Hcfg1|congruence|exact S1|].
  exists w1, w2. split; [exact Hrun1|]. split; [exact Hrun2|].
  split; [exact S1|]. split; [congruence|]. split; [exact N1|].
  intros c Hc. split; auto.
Qed.

(** A check in a world whose upstream answers every request alike. *)
Lemma checkShutdownEvents_steady (w v : World) (st : Z) (body : jsstring)
  (evs : list ShutdownEvent) :
  (forall n, upstream v n = Response true st body) ->
  interpretText (runtime w) body = Ok evs ->
  1 <= RETRY_ATTEMPTS (config w) ->
  runtime v = runtime w -> config v = config w ->
  checkShutdownEvents v
  = (Ok {| hasEvents := (0 <? List.length evs)%nat;
           events := evs;
           formattedMessage := formatShutdownMessage (runtime w) evs;
           contentHash := createContentHash (formatShutdownMessage (runtime w) evs) |},
     setRequests (S (requests v)) v).
Proof.
  intros Hupv Hint Hn Hrt Hcfg.
  pose proof (checkShutdownEvents_first_attempt v st body evs (Hupv _)) as Hc.
  rewrite Hrt, Hcfg in Hc. exact (Hc Hint Hn).
Qed.

(** A firing that finds the stored hash fresh only makes its request. *)
Lemma scheduledCheck_quiet (w v : World) (st : Z) (body : jsstring)
  (evs : list ShutdownEvent) :
  (forall n, upstream v n = Response true st body) ->
  interpretText (runtime w) body = Ok evs ->
  1 <= RETRY_ATTEMPTS (config w) ->
  runtime v = runtime w -> config v = config w ->
  lastMessageHash (currentState v)
  = Some (createContentHash (formatShutdownMessage (runtime w) evs)) ->
  scheduledCheck v = (Ok tt, setRequests (S (requests v)) v).
Proof.
  intros Hupv Hint Hn Hrt Hcfg Hst.
  pose proof (checkShutdownEvents_steady w v st body evs Hupv Hint Hn Hrt Hcfg) as Hc.
  unfold scheduledCheck, tryCatch.
  rewrite (checkAndNotify_skips v _ _ Hc); [reflexivity|].
  rewrite (currentState_stateFile v (setRequests (S (requests v)) v) eq_refl).
  exact Hst.
Qed.

Lemma scheduledChecks_quiet (w : World) (st : Z) (body : jsstring)
  (evs : list ShutdownEvent) :
  interpretText (runtime w) body = Ok evs ->
  1 <= RETRY_ATTEMPTS (config w) ->
  forall n v,
    (forall k, upstream v k = Response true st body) ->
    runtime v = runtime w -> config v = config w ->
    lastMessageHash (currentState v)
    = Some (createContentHash (formatShutdownMessage (runtime w) evs)) ->
    exists v', scheduledChecks n v = (Ok tt, v')
               /\ outbox v' = outbox v /\ stateFile v' = stateFile v.
Proof.
  intros Hint Hn. induction n as [|n IH]; intros v Hupv Hrt Hcfg Hst.
  - exists v. repeat split.
  - destruct (IH (setRequests (S (requests v)) v)) as (v' & Hrun & A & B); auto.
    { now rewrite (currentState_stateFile v (setRequests (S (requests v)) v) eq_refl). }
    exists v'. cbn [scheduledChecks]. unfold bind.
    rewrite (scheduledCheck_quiet w v st body evs Hupv Hint Hn Hrt Hcfg Hst), Hrun.
    repeat split; assumption.
Qed.

(** A stretch of scheduled checks.  A firing of the schedule never
    throws, whatever the world.  When the upstream answers every request
    with the same readable response and the disk takes the write, only
    the first of any number of firings can send or write: after it the
    stored hash is the fresh one, and the outbox and the state file stay
    as the first firing left them. *)
Theorem scheduledChecks_one_broadcast :
  (forall n w, fst (scheduledChecks n w) = Ok tt)
  /\ (forall (w : World) (st : Z) (body : jsstring) (evs : list ShutdownEvent),
         (forall n, upstream w n = Response true st body) ->
         interpretText (runtime w) body = Ok evs ->
         1 <= RETRY_ATTEMPTS (config w) ->
         diskWritable w = true ->
         let w1 := snd (scheduledCheck w) in
         lastMessageHash (currentState w1)
         = Some (createContentHash (formatShutdownMessage (runtime w) evs))
         /\ forall n,
              outbox (snd (scheduledChecks (S n) w)) = outbox w1
              /\ stateFile (snd (scheduledChecks (S n) w)) = stateFile w1).
Proof.
  split.
  - induction n as [|n IH]; intros w; [reflexivity|].
    cbn [scheduledChecks]. unfold bind, scheduledCheck, tryCatch.
    destruct (checkAndNotify w) as [[[]|t] w1]; cbn; apply IH.
  - intros w st body evs Hup Hint Hn Hd.
    set (fresh := createContentHash (formatShutdownMessage (runtime w) evs)).
    assert (first : exists w1,
               scheduledCheck w = (Ok tt, w1)
               /\ (forall n, upstream w1 n = Response true st body)
               /\ runtime w1 = runtime w /\ config w1 = config w
               /\ lastMessageHash (currentState w1) = Some fresh).
    { destruct (list_eq_dec N.eq_dec
                  (match lastMessageHash (currentState w) with Some h => h | None => [] end)
                  fresh) as [E|E];
        [destruct (lastMessageHash (currentState w)) as [h|] eqn:Hst|].
      - subst h.
        rewrite (scheduledCheck_quiet w w st body evs Hup Hint Hn eq_refl eq_refl Hst).
        eexists. split; [reflexivity|]. cbn [upstream runtime config setRequests].
        split; [exact Hup|]. split; [reflexivity|]. split; [reflexivity|].
        now rewrite (currentState_stateFile w (setRequests (S (requests w)) w) eq_refl).
      - exfalso.
        pose proof (createContentHash_length (formatShutdownMessage (runtime w) evs)) as L.
        fold fresh in L. rewrite <- E in L. discriminate.
      - pose proof (checkShutdownEvents_first_attempt w st body evs (Hup _) Hint Hn) as Hc.
        assert (Hnew : lastMessageHash (currentState (setRequests (S (requests w)) w))
                       <> Some fresh).
        { rewrite (currentState_stateFile w (setRequests (S (requests w)) w) eq_refl).
          intros H. rewrite H in E. now apply E. }
        destruct (checkAndNotify_runs w _ _ Hc Hnew Hd)
          as (counts & ws & w1 & _ & Hrun & _ & Hst & (Hrt & Hcfg & _ & Hu & _) & _).
        exists w1. unfold scheduledCheck, tryCatch. rewrite Hrun.
        split; [reflexivity|]. split; [intros n; rewrite Hu; apply Hup|].
        split; [exact Hrt|]. split; [exact Hcfg|exact Hst]. }
    destruct first as (w1 & Hrun1 & Hup1 & Hrt1 & Hcfg1 & Hst1).
    cbv zeta. rewrite Hrun1. cbn [snd]. split; [exact Hst1|].
    intros n.
    destruct (scheduledChecks_quiet w st body evs Hint Hn n w1 Hup1 Hrt1 Hcfg1 Hst1)
      as (v' & Hrun & A & B).
    cbn [scheduledChecks]. unfold bind. rewrite Hrun1, Hrun. cbn [snd]. split; assumption.
Qed.

(** A forced notification on a disk that takes the write. *)
Lemma forceNotify_runs (w wf : World) (res : ShutdownCheckResult) :
  checkShutdownEvents w = (Ok res, wf) ->
  diskWritable w = true ->
  exists counts ws w1,
    sendMessageToAllSubscribers (formattedMessage res) wf = (Ok counts, ws)
    /\ forceNotify w = (Ok tt, w1)
    /\ outbox w1 = outbox ws
    /\ lastMessageHash (currentState w1) = Some (contentHash res)
    /\ sameEnvironment w w1.
Proof.
  intros Hcheck Hd.
  destruct (checkShutdownEvents_result w wf res Hcheck) as ((Ef & _ & _) & _).
  destruct (sendMessageToAllSubscribers_returns (formattedMessage res) wf)
    as (counts & ws & Hsend & (Es & _)).
  assert (Hd' : diskWritable ws = true).
  { destruct Ef as (_ & _ & A & _), Es as (_ & _ & B & _). congruence. }
  destruct (updateLastMessageHash_run (contentHash res) ws Hd')
    as (w1 & Hup & Hstored & Oup & Eup).
  exists counts, ws, w1. split; [exact Hsend|]. split.
  - unfold forceNotify, tryCatch. unfold bind at 1. rewrite Hcheck.
    unfold bind at 1. rewrite Hsend, Hup. reflexivity.
  - split; [exact Oup|]. split; [exact Hstored|].
    eapply sameEnvironment_trans; [exact Ef|].
    eapply sameEnvironment_trans; [exact Es|exact Eup].
Qed.

(** Start-up with [--check-now].  The initial check never throws, and
    without the flag it does nothing.  With the flag, when the upstream
    answers every request with the same readable response and the disk
    takes the write, it broadcasts the message whatever hash was stored
    (every recipient is called) and stores the fresh hash, so that the
    scheduled checks that follow send nothing and write nothing. *)
Theorem initialCheck_then_schedule :
  (forall checkNow w, fst (initialCheck checkNow w) = Ok tt)
  /\ (forall w, initialCheck false w = (Ok tt, w))
  /\ (forall (w : World) (st : Z) (body : jsstring) (evs : list ShutdownEvent),
         (forall n, upstream w n = Response true st body) ->
         interpretText (runtime w) body = Ok evs ->
         1 <= RETRY_ATTEMPTS (config w) ->
         diskWritable w = true ->
         let w0 := snd (initialCheck true w) in
         (forall c,
             In c (allRecipients (subscribers (currentState w))
                                 (TELEGRAM_CHAT_ID (config w))) ->
             (callsTo c (outbox w) < callsTo c (outbox w0))%nat)
         /\ lastMessageHash (currentState w0)
            = Some (createContentHash (formatShutdownMessage (runtime w) evs))
         /\ forall n,
              outbox (snd (scheduledChecks n w0)) = outbox w0
              /\ stateFile (snd (scheduledChecks n w0)) = stateFile w0).
Proof.
  split; [|split].
  - intros [|] w; [|reflexivity]. unfold initialCheck, tryCatch.
    now destruct (forceNotify w) as [[[]|t] w1].
  - reflexivity.
  - intros w st body evs Hup Hint Hn Hd.
    pose proof (checkShutdownEvents_first_attempt w st body evs (Hup _) Hint Hn) as Hc.
    destruct (forceNotify_runs w _ _ Hc Hd)
      as (counts & ws & w1 & Hsend & Hrun & O1 & Hst & (Hrt & Hcfg & _ & Hu & _)).
    destruct (sendMessageToAllSubscribers_run
                (formatShutdownMessage (runtime w) evs) (setRequests (S (requests w)) w) Hn)
      as (s & f & ws' & Hsend' & _ & _ & Hcalls).
    cbn [formattedMessage] in Hsend. rewrite Hsend in Hsend'.
    inversion Hsend'; subst ws'; clear Hsend'.
    cbv zeta. unfold initialCheck, tryCatch. rewrite Hrun. cbn [snd].
    split; [|split; [exact Hst|]].
    + intros c Hc'. rewrite O1. apply (Hcalls c).
      now rewrite (currentState_stateFile w (setRequests (S (requests w)) w) eq_refl).
    + intros n.
      destruct (scheduledChecks_quiet w st body evs Hint Hn n w1) as (v' & Hq & A & B);
        [intros k; rewrite Hu; apply Hup|exact Hrt|exact Hcfg|exact Hst|].
      rewrite Hq. cbn [snd]. split; assumption.
Qed.
(** ** Strings: trimming and tag stripping *)

Lemma trimStart_suffix (s : jsstring) :
  exists ws, s = ws ++ trimStart s /\ forallb isWhiteSpace ws = true.
Proof.
  induction s as [|c s (ws & E & H)]; [exists []; split; reflexivity|].
  cbn [trimStart]. destruct (isWhiteSpace c) eqn:Hc.
  - exists (c :: ws). cbn [forallb app]. rewrite Hc, H. split; [now f_equal|reflexivity].
  - exists []. split; reflexivity.
Qed.

Lemma trimEnd_prefix (s : jsstring) :
  exists ws, s = trimEnd s ++ ws /\ forallb isWhiteSpace ws = true.
Proof.
  unfold trimEnd. destruct (trimStart_suffix (rev s)) as (ws & E & H).
  exists (rev ws). split.
  - rewrite <- rev_app_distr, <- E. now rewrite rev_involutive.
  - rewrite forallb_forall in *. intros x Hx. apply H. now apply in_rev.
Qed.

Lemma trimStart_fixed (s : jsstring) :
  trimStart s = s <-> match s with [] => True | c :: _ => isWhiteSpace c = false end.
Proof.
  destruct s as [|c s]; [tauto|]. cbn [trimStart].
  destruct (isWhiteSpace c) eqn:Hc; split; try reflexivity; try discriminate.
  intros E. exfalso. destruct (trimStart_suffix s) as (ws & Es & _).
  apply (f_equal (@List.length N)) in E. apply (f_equal (@List.length N)) in Es.
  rewrite length_app in Es. cbn [List.length] in E. lia.
Qed.

Lemma trimStart_idempotent (s : jsstring) : trimStart (trimStart s) = trimStart s.
Proof.
  induction s as [|c s IH]; [reflexivity|]. cbn [trimStart].
  destruct (isWhiteSpace c) eqn:Hc; [exact IH|]. cbn [trimStart]. now rewrite Hc.
Qed.

Lemma trimStart_snoc (a : jsstring) (c : N) :
  isWhiteSpace c = false -> trimStart (a ++ [c]) = trimStart a ++ [c].
Proof.
  intros Hc. induction a as [|x a IH]; cbn [app trimStart].
  - now rewrite Hc.
  - destruct (isWhiteSpace x); [exact IH|reflexivity].
Qed.

(** Trimming the end keeps a first character that is not white space. *)
Lemma trimEnd_head (c : N) (s : jsstring) :
  isWhiteSpace c = false -> exists s', trimEnd (c :: s) = c :: s'.
Proof.
  intros Hc. unfold trimEnd. cbn [rev]. rewrite (trimStart_snoc _ c Hc).
  rewrite rev_app_distr. cbn [rev app]. eexists. reflexivity.
Qed.

Lemma trim_idempotent (s : jsstring) : trim (trim s) = trim s.
Proof.
  unfold trim. set (u := trimStart s).
  assert (Hu : trimStart u = u) by apply trimStart_idempotent.
  assert (Hstart : trimStart (trimEnd u) = trimEnd u).
  { apply trimStart_fixed. destruct u as [|c u'] eqn:E; [reflexivity|].
    apply trimStart_fixed in Hu. destruct (trimEnd_head c u' Hu) as (s' & ->).
    exact Hu. }
  rewrite Hstart. unfold trimEnd at 1. unfold trimEnd at 1.
  rewrite rev_involutive, trimStart_idempotent. reflexivity.
Qed.

Lemma In_trim (c : N) (s : jsstring) : In c (trim s) -> In c s.
Proof.
  unfold trim. intros H.
  destruct (trimEnd_prefix (trimStart s)) as (ws & E & _).
  destruct (trimStart_suffix s) as (ws' & E' & _).
  rewrite E', E, !in_app_iff. auto.
Qed.

Lemma stripPrefix_cons (c : N) (p s : jsstring) :
  startsWith (c :: p) s = true -> exists s', s = c :: s'.
Proof.
  unfold startsWith. destruct s as [|x s]; cbn [stripPrefix]; [discriminate|].
  destruct (N.eqb_spec c x) as [->|]; [eauto|discriminate].
Qed.

Lemma includes_In (c : N) (p s : jsstring) : includes (c :: p) s = true -> In c s.
Proof.
  induction s as [|x s IH]; cbn [includes].
  - rewrite orb_false_r. intros H. now destruct (stripPrefix_cons c p [] H).
  - intros H. apply orb_true_iff in H. destruct H as [H|H].
    + destruct (stripPrefix_cons c p _ H) as (s' & E). inversion E. now left.
    + right. now apply IH.
Qed.

(** What [isHtmlResponse] looks at.  A payload is classified as HTML only
    if it holds a [<]; it is classified as HTML whenever its first
    character that is not white space is a [<]; and the test for
    [<!DOCTYPE] never decides, the test for [<] before it covering it. *)
Theorem isHtmlResponse_angle (text : jsstring) :
  (isHtmlResponse text = true -> In Regex.LT text)
  /\ (forall rest, trimStart text = Regex.LT :: rest -> isHtmlResponse text = true)
  /\ isHtmlResponse text
     = (startsWith (js "<") (trim text) || includes (js "<div") (trim text)
        || includes (js "<html") (trim text) || includes (js "<table") (trim text)).
Proof.
  unfold isHtmlResponse. cbv zeta.
  change (js "<") with [Regex.LT].
  change (js "<!DOCTYPE") with (Regex.LT :: js "!DOCTYPE").
  change (js "<div") with (Regex.LT :: js "div").
  change (js "<html") with (Regex.LT :: js "html").
  change (js "<table") with (Regex.LT :: js "table").
  split; [|split].
  - intros H. apply (In_trim _ text).
    repeat (apply orb_true_iff in H; destruct H as [H|H]);
      try (destruct (stripPrefix_cons _ _ _ H) as (s' & ->); now left);
      now apply includes_In in H.
  - intros rest E. unfold trim. rewrite E.
    destruct (trimEnd_head Regex.LT rest eq_refl) as (s' & ->).
    unfold startsWith. cbn [stripPrefix]. now rewrite N.eqb_refl.
  - destruct (startsWith [Regex.LT] (trim text)) eqn:A; [reflexivity|].
    replace (startsWith (Regex.LT :: js "!DOCTYPE") (trim text)) with false; [reflexivity|].
    symmetry. revert A. unfold startsWith.
    destruct (trim text) as [|x s]; cbn [stripPrefix]; [reflexivity|].
    now destruct (Regex.LT =? x)%N.
Qed.

Lemma In_stripFrom (inTag : bool) (s : jsstring) (c : N) :
  In c (Regex.stripFrom inTag s) -> In c s.
Proof.
  revert inTag. induction s as [|x s IH]; intros inTag; cbn [Regex.stripFrom]; [tauto|].
  destruct inTag.
  - destruct (x =? Regex.GT)%N; intros H; right; eapply IH; exact H.
  - destruct ((x =? Regex.LT)%N && existsb (N.eqb Regex.GT) s).
    + intros H. right. eapply IH; exact H.
    + intros [H|H]; [now left|right; eapply IH; exact H].
Qed.

Lemma existsb_GT (s : jsstring) : existsb (N.eqb Regex.GT) s = true <-> In Regex.GT s.
Proof.
  rewrite existsb_exists. split.
  - intros (x & Hx & E). apply N.eqb_eq in E. now subst.
  - intros H. exists Regex.GT. split; [exact H|apply N.eqb_refl].
Qed.

Lemma tagFree_tail (c : N) (s : jsstring) : tagFree (c :: s) -> tagFree s.
Proof. intros H a b E. apply (H (c :: a) b). now rewrite E. Qed.

(** What is left after stripping holds no complete tag. *)
Lemma stripFrom_tagFree (inTag : bool) (s : jsstring) :
  tagFree (Regex.stripFrom inTag s).
Proof.
  revert inTag. induction s as [|x s IH]; intros inTag; cbn [Regex.stripFrom].
  - intros [|? ?] b E; discriminate.
  - destruct inTag.
    + destruct (x =? Regex.GT)%N; apply IH.
    + destruct ((x =? Regex.LT)%N && existsb (N.eqb Regex.GT) s) eqn:C; [apply IH|].
      intros a b E. destruct a as [|y a]; cbn [app] in E.
      * inversion E; subst x b. rewrite N.eqb_refl in C. cbn [andb] in C.
        intros Hin. apply (In_stripFrom false s) in Hin.
        apply existsb_GT in Hin. congruence.
      * inversion E. now apply (IH false a b).
Qed.

Lemma stripTags_fixed (s : jsstring) : tagFree s -> Regex.stripTags s = s.
Proof.
  unfold Regex.stripTags. induction s as [|x s IH]; intros H; [reflexivity|].
  cbn [Regex.stripFrom].
  destruct ((x =? Regex.LT)%N && existsb (N.eqb Regex.GT) s) eqn:C.
  - exfalso. apply andb_true_iff in C. destruct C as [C1 C2].
    apply N.eqb_eq in C1. subst x. apply existsb_GT in C2.
    exact (H [] s eq_refl C2).
  - f_equal. apply IH. exact (tagFree_tail x s H).
Qed.

Lemma tagFree_infix (a s b : jsstring) : tagFree (a ++ s ++ b) -> tagFree s.
Proof.
  intros H x y E. subst s. intros Hin.
  apply (H (a ++ x) (y ++ b)).
  - now rewrite <- !app_assoc.
  - apply in_app_iff. now left.
Qed.

Lemma tagFree_trim (s : jsstring) : tagFree s -> tagFree (trim s).
Proof.
  intros H. unfold trim.
  destruct (trimStart_suffix s) as (ws & E & _).
  destruct (trimEnd_prefix (trimStart s)) as (ws' & E' & _).
  rewrite E' in E. rewrite E in H. exact (tagFree_infix _ _ _ H).
Qed.

(** A cell value, as the inner loop pushes it. *)
Lemma cellValue_clean (cell : jsstring) : clean (trim (Regex.stripTags cell)).
Proof.
  split; [apply trim_idempotent|].
  apply stripTags_fixed, tagFree_trim, stripFrom_tagFree.
Qed.

Lemma rowCells_clean (rowHtml : jsstring) : Forall clean (rowCells rowHtml).
Proof.
  unfold rowCells. apply Forall_forall. intros c Hc.
  apply in_map_iff in Hc. destruct Hc as (cell & <- & _). apply cellValue_clean.
Qed.

Lemma cellAt_clean (cells : list jsstring) (i : nat) :
  Forall clean cells -> (i < List.length cells)%nat -> clean (cellAt cells i).
Proof.
  intros H Hi. rewrite Forall_forall in H. apply H. unfold cellAt. now apply nth_In.
Qed.

(** The events of a table, whatever the payload. *)
Lemma parseHtmlTable_events (html : jsstring) :
  exists rows : list (list jsstring),
    Forall (fun cells => hasSixCells cells = true /\ Forall clean cells) rows
    /\ parseHtmlTable html
       = map (fun p => rowEvent (fst p) (snd p))
             (combine (idsFrom 1 (List.length rows)) rows).
Proof.
  unfold parseHtmlTable.
  destruct (negb (includes (js "table-shutdowns") html)); [exists []; split; [constructor|reflexivity]|].
  destruct (tbodyMatch html) as [tbody|]; [|exists []; split; [constructor|reflexivity]].
  rewrite rowLoop_spec. cbn [app].
  eexists. split; [|reflexivity].
  apply Forall_forall. intros cells Hc. apply filter_In in Hc. destruct Hc as [Hin Hsix].
  split; [exact Hsix|]. apply in_map_iff in Hin. destruct Hin as (row & <- & _).
  apply rowCells_clean.
Qed.

(** The fields of the events of a table.  Whatever the payload, every
    event that [parseHtmlTable] returns has a number as id, text fields
    that are trimmed and hold no complete tag (stripping and trimming
    them again changes nothing), the status [Аварійне] exactly when its
    shutdown type is [Аварійне] and [Заплановано] otherwise, and neither
    comment nor address. *)
Theorem parseHtmlTable_fields (html : jsstring) :
  Forall (fun e =>
            (exists k, id e = IdNumber k /\ 1 <= k <= Z.of_nat (List.length (parseHtmlTable html)))
            /\ clean (type e) /\ clean (shutdownType e)
            /\ clean (queueGpv e) /\ clean (queueGav e)
            /\ clean (dateStart e) /\ clean (dateEnd e)
            /\ status e = (if jsEq (shutdownType e) Emergency then Emergency else Planned)
            /\ comment e = None /\ address e = None)
         (parseHtmlTable html).
Proof.
  destruct (parseHtmlTable_events html) as (rows & Hrows & ->).
  rewrite length_map, length_combine, idsFrom_length, Nat.min_id.
  apply Forall_forall. intros e He. apply in_map_iff in He.
  destruct He as ((k & cells) & <- & Hin). cbn [fst snd].
  pose proof (in_combine_l _ _ _ _ Hin) as Hk.
  pose proof (in_combine_r _ _ _ _ Hin) as Hc.
  rewrite Forall_forall in Hrows. destruct (Hrows cells Hc) as [Hsix Hclean].
  unfold hasSixCells in Hsix. apply Nat.leb_le in Hsix.
  assert (Hrange : forall start n x, In x (idsFrom start n) -> start <= x < start + Z.of_nat n).
  { intros start n. revert start. induction n as [|n IH]; intros start x; cbn [idsFrom In].
    - tauto.
    - intros [<-|H]; [lia|]. apply IH in H. lia. }
  apply Hrange in Hk.
  split; [exists k; split; [reflexivity|lia]|].
  cbn [rowEvent type shutdownType queueGpv queueGav dateStart dateEnd status comment address].
  repeat (split; [apply cellAt_clean; [exact Hclean|lia]|]).
  repeat split.
Qed.
(** ** The message and the number of events *)

Lemma numeral_snoc (s : jsstring) (c : N) :
  numeral (s ++ [c]) = 10 * numeral s + (Z.of_N c - 48).
Proof. unfold numeral. now rewrite fold_left_app. Qed.

Lemma digitUnit_digit (d : Z) :
  0 <= d < 10 -> isDigit (digitUnit d) = true /\ Z.of_N (digitUnit d) - 48 = d.
Proof.
  intros H. unfold isDigit, digitUnit. split.
  - apply andb_true_iff. split; apply N.leb_le; lia.
  - lia.
Qed.

(** The digits that [decimalDigits] puts in front of its accumulator. *)
Lemma decimalDigits_spec (fuel : nat) :
  forall n acc, 0 <= n < 2 ^ Z.of_nat fuel ->
    exists ds, decimalDigits fuel n acc = ds ++ acc
               /\ forallb isDigit ds = true /\ numeral ds = n.
Proof.
  induction fuel as [|fuel IH]; intros n acc Hn.
  - exists []. cbn in Hn. assert (n = 0) by lia. subst n. repeat split.
  - cbn [decimalDigits].
    destruct (digitUnit_digit (n mod 10)) as [Hd Hv]; [apply Z.mod_pos_bound; lia|].
    destruct (n <? 10) eqn:E.
    + apply Z.ltb_lt in E. exists [digitUnit (n mod 10)]. split; [reflexivity|].
      cbn [forallb]. rewrite Hd. split; [reflexivity|].
      unfold numeral. cbn [fold_left]. rewrite Hv, Z.mod_small; lia.
    + apply Z.ltb_ge in E.
      destruct (IH (n / 10) (digitUnit (n mod 10) :: acc)) as (ds & Hds & Hall & Hnum).
      { rewrite Nat2Z.inj_succ, Z.pow_succ_r in Hn by lia.
        split; [apply Z.div_pos; lia|]. apply Z.div_lt_upper_bound; lia. }
      exists (ds ++ [digitUnit (n mod 10)]). split; [now rewrite Hds, <- app_assoc|].
      rewrite forallb_app, Hall. cbn [forallb]. rewrite Hd. split; [reflexivity|].
      rewrite numeral_snoc, Hnum, Hv. symmetry. apply Z.div_mod. lia.
Qed.

Lemma decimal_numeral (n : Z) :
  0 <= n -> forallb isDigit (decimal n) = true /\ numeral (decimal n) = n.
Proof.
  intros Hn. unfold decimal. destruct (n <? 0) eqn:E; [apply Z.ltb_lt in E; lia|].
  destruct (decimalDigits_spec (Z.to_nat (Z.log2 n) + 1) n []) as (ds & Hds & Hall & Hnum).
  { split; [exact Hn|]. rewrite Nat2Z.inj_add, Z2Nat.id by apply Z.log2_nonneg.
    destruct (Z.eq_dec n 0) as [->|Hne]; [reflexivity|].
    replace (Z.log2 n + Z.of_nat 1) with (Z.succ (Z.log2 n)) by lia.
    apply Z.log2_spec. lia. }
  rewrite Hds, app_nil_r. split; assumption.
Qed.

(** Two runs of digits, each followed by something that is no digit. *)
Lemma digits_prefix (ds1 ds2 : jsstring) (c1 c2 : N) (t1 t2 : jsstring) :
  forallb isDigit ds1 = true -> forallb isDigit ds2 = true ->
  isDigit c1 = false -> isDigit c2 = false ->
  ds1 ++ c1 :: t1 = ds2 ++ c2 :: t2 -> ds1 = ds2.
Proof.
  revert ds2. induction ds1 as [|x ds1 IH]; intros [|y ds2] H1 H2 Hc1 Hc2 E;
    cbn [app forallb] in *.
  - reflexivity.
  - inversion E; subst. apply andb_true_iff in H2. destruct H2. congruence.
  - inversion E; subst. apply andb_true_iff in H1. destruct H1. congruence.
  - inversion E; subst. apply andb_true_iff in H1, H2. destruct H1, H2.
    f_equal. eapply IH; eauto.
Qed.

(** The message of a list that is not empty opens with the header and
    the count. *)
Lemma header_shape (rt : Runtime) (evs : list ShutdownEvent) :
  evs <> [] ->
  exists rest,
    formatShutdownMessage rt evs
    = js "⚡ <b>Заплановані відключення ("
      ++ decimal (Z.of_nat (List.length evs)) ++ 41%N :: rest.
Proof.
  assert (Hclose : exists t, js ")</b>" = 41%N :: t)
    by (eexists; vm_compute; reflexivity).
  destruct Hclose as (tc & Hclose).
  intros H. unfold formatShutdownMessage.
  destruct evs as [|e evs]; [congruence|]. cbn [List.length Nat.eqb].
  rewrite Hclose. eexists. rewrite <- !app_assoc. cbn [app]. reflexivity.
Qed.

Lemma message_heads :
  (exists t, js "⚡ <b>Заплановані відключення (" = 9889%N :: t)
  /\ (exists t, PowerIsOn = 9989%N :: t).
Proof. split; eexists; vm_compute; reflexivity. Qed.

Lemma message_not_power_on (rt : Runtime) (evs : list ShutdownEvent) :
  evs <> [] -> formatShutdownMessage rt evs <> PowerIsOn.
Proof.
  intros Hne H. destruct message_heads as ((th & Hhead) & (tp & Hpower)).
  destruct (header_shape rt evs Hne) as (rest & E).
  rewrite E, Hhead, Hpower in H. discriminate.
Qed.

Lemma formatShutdownMessage_nil (rt : Runtime) : formatShutdownMessage rt [] = PowerIsOn.
Proof. reflexivity. Qed.

(** The message tells the number of events.  The fixed "power is on"
    sentence is the message of the empty list only, and two messages
    that are equal, from whatever runtimes, list the same number of
    events: a change in the number of events always changes the message. *)
Theorem formatShutdownMessage_count (rt1 rt2 : Runtime)
  (events1 events2 : list ShutdownEvent) :
  (formatShutdownMessage rt1 events1 = PowerIsOn <-> events1 = [])
  /\ (formatShutdownMessage rt1 events1 = formatShutdownMessage rt2 events2 ->
      List.length events1 = List.length events2).
Proof.
  split.
  - split; [|intros ->; apply formatShutdownMessage_nil].
    destruct events1 as [|e evs]; [reflexivity|]. intros H. exfalso.
    exact (message_not_power_on rt1 (e :: evs) ltac:(discriminate) H).
  - intros H.
    destruct events1 as [|e1 evs1], events2 as [|e2 evs2]; [reflexivity| | |].
    + exfalso. rewrite formatShutdownMessage_nil in H. symmetry in H.
      exact (message_not_power_on rt2 (e2 :: evs2) ltac:(discriminate) H).
    + exfalso. rewrite formatShutdownMessage_nil in H.
      exact (message_not_power_on rt1 (e1 :: evs1) ltac:(discriminate) H).
    + destruct (header_shape rt1 (e1 :: evs1) ltac:(discriminate)) as (r1 & E1).
      destruct (header_shape rt2 (e2 :: evs2) ltac:(discriminate)) as (r2 & E2).
      rewrite E1, E2 in H. apply app_inv_head in H.
      destruct (decimal_numeral (Z.of_nat (List.length (e1 :: evs1)))) as [D1 V1]; [lia|].
      destruct (decimal_numeral (Z.of_nat (List.length (e2 :: evs2)))) as [D2 V2]; [lia|].
      pose proof (digits_prefix _ _ 41%N 41%N r1 r2 D1 D2 eq_refl eq_refl H) as Heq.
      apply Nat2Z.inj. rewrite <- V1, <- V2, Heq. reflexivity.
Qed.
(** ** The state store, further *)

Lemma addSubscriber_frame (chatId : Z) (w : World) :
  let state' := currentState (snd (addSubscriber chatId w)) in
  lastMessageHash state' = lastMessageHash (currentState w)
  /\ lastCheckTime state' = lastCheckTime (currentState w)
  /\ lastEventIds state' = lastEventIds (currentState w).
Proof.
  cbv zeta. unfold addSubscriber, bind, ret. rewrite loadState_currentState.
  destruct (includesId _ _); cbn [snd]; [repeat split|].
  unfold saveState. destruct (diskWritable w); cbn [snd]; [|repeat split].
  rewrite currentState_stored. repeat split.
Qed.

Lemma removeSubscriber_frame (chatId : Z) (w : World) :
  let state' := currentState (snd (removeSubscriber chatId w)) in
  lastMessageHash state' = lastMessageHash (currentState w)
  /\ lastCheckTime state' = lastCheckTime (currentState w)
  /\ lastEventIds state' = lastEventIds (currentState w).
Proof.
  cbv zeta. unfold removeSubscriber, bind, ret. rewrite loadState_currentState.
  destruct (negb (includesId _ _)); cbn [snd]; [repeat split|].
  unfold saveState. destruct (diskWritable w); cbn [snd]; [|repeat split].
  rewrite currentState_stored. repeat split.
Qed.

Lemma removeSubscriber_present (chatId : Z) (w : World) :
  includesId (subscribers (currentState w)) chatId = true ->
  diskWritable w = true ->
  exists w',
    removeSubscriber chatId w = (Ok true, w')
    /\ subscribers (currentState w')
       = filter (fun id => negb (id =? chatId)) (subscribers (currentState w))
    /\ diskWritable w' = true.
Proof.
  intros H Hd. unfold removeSubscriber, bind. rewrite loadState_currentState, H.
  cbn [negb]. unfold saveState. rewrite Hd. eexists. split; [reflexivity|].
  rewrite currentState_stored. split; [reflexivity|exact Hd].
Qed.

Lemma StateData_ext (a b : StateData) :
  lastMessageHash a = lastMessageHash b -> lastCheckTime a = lastCheckTime b ->
  lastEventIds a = lastEventIds b -> subscribers a = subscribers b -> a = b.
Proof. destruct a, b. cbn. now intros -> -> -> ->. Qed.

(** Subscribing and unsubscribing.  Neither [addSubscriber] nor
    [removeSubscriber] ever changes the stored hash, check time or event
    ids.  On a disk that takes the write, adding a chat that is not
    subscribed and removing it again gives back the state there was; and
    removing a subscribed chat and adding it again leaves it subscribed
    once, at the end of the list, the others keeping their order. *)
Theorem subscription_round_trip (chatId : Z) (w : World) :
  (forall f, f = addSubscriber \/ f = removeSubscriber ->
     let state' := currentState (snd (f chatId w)) in
     lastMessageHash state' = lastMessageHash (currentState w)
     /\ lastCheckTime state' = lastCheckTime (currentState w)
     /\ lastEventIds state' = lastEventIds (currentState w))
  /\ (diskWritable w = true ->
      (~ In chatId (subscribers (currentState w)) ->
       exists w1 w2,
         addSubscriber chatId w = (Ok true, w1)
         /\ removeSubscriber chatId w1 = (Ok true, w2)
         /\ currentState w2 = currentState w)
      /\ (In chatId (subscribers (currentState w)) ->
          exists w1 w2,
            removeSubscriber chatId w = (Ok true, w1)
            /\ addSubscriber chatId w1 = (Ok true, w2)
            /\ subscribers (currentState w2)
               = filter (fun id => negb (id =? chatId)) (subscribers (currentState w))
                 ++ [chatId]
            /\ count_occ Z.eq_dec (subscribers (currentState w2)) chatId = 1%nat)).
Proof.
  split.
  - intros f [-> | ->]; [apply addSubscriber_frame|apply removeSubscriber_frame].
  - intros Hd. split.
    + intros Habs.
      destruct (addSubscriber_absent chatId w) as (w1 & H1 & Hs1 & Hd1);
        [now apply includesId_false|exact Hd|].
      destruct (removeSubscriber_present chatId w1) as (w2 & H2 & Hs2 & _);
        [rewrite Hs1; apply includesId_In, in_app_iff; right; now left|exact Hd1|].
      exists w1, w2. split; [exact H1|]. split; [exact H2|].
      pose proof (addSubscriber_frame chatId w) as F1.
      pose proof (removeSubscriber_frame chatId w1) as F2.
      rewrite H1 in F1. rewrite H2 in F2. cbn [snd] in F1, F2. cbv zeta in F1, F2.
      destruct F1 as (A1 & B1 & C1), F2 as (A2 & B2 & C2).
      apply StateData_ext; try congruence.
      rewrite Hs2, Hs1. now apply filter_snoc_absent.
    + intros Hin.
      destruct (removeSubscriber_present chatId w) as (w1 & H1 & Hs1 & Hd1);
        [now apply includesId_In|exact Hd|].
      assert (Hgone : ~ In chatId (subscribers (currentState w1))).
      { rewrite Hs1. intros H. apply filter_In in H. destruct H as [_ H].
        rewrite Z.eqb_refl in H. discriminate. }
      destruct (addSubscriber_absent chatId w1) as (w2 & H2 & Hs2 & _);
        [now apply includesId_false|exact Hd1|].
      exists w1, w2. split; [exact H1|]. split; [exact H2|].
      split; [now rewrite Hs2, Hs1|].
      rewrite Hs2. now apply count_occ_snoc_absent.
Qed.

(** [updateLastEventIds] leaves the subscribers and the stored hash as
    they were, whether or not the write succeeds; when it succeeds the
    state holds the given ids and the time of the call, and nothing but
    the state file has changed; on a disk that refuses the write it
    throws and changes nothing. *)
Theorem updateLastEventIds_frame (ids : list jsstring) (w : World) :
  let w' := snd (updateLastEventIds ids w) in
  subscribers (currentState w') = subscribers (currentState w)
  /\ lastMessageHash (currentState w') = lastMessageHash (currentState w)
  /\ (fst (updateLastEventIds ids w) = Ok tt ->
      lastEventIds (currentState w') = ids
      /\ lastCheckTime (currentState w') = Some (toISOString (clock w))
      /\ w' = setStateFile (stateFile w') w)
  /\ (diskWritable w = false -> updateLastEventIds ids w = (Throw WriteFailed, w)).
Proof.
  cbv zeta.
  unfold updateLastEventIds, bind, now, reads. rewrite loadState_currentState.
  unfold saveState. destruct (diskWritable w); cbn [snd fst].
  - rewrite currentState_stored.
    cbn [subscribers lastEventIds lastMessageHash lastCheckTime].
    split; [reflexivity|]. split; [reflexivity|]. split; [|discriminate].
    intros _. split; [reflexivity|]. split; reflexivity.
  - split; [reflexivity|]. split; [reflexivity|]. split; [discriminate|reflexivity].
Qed.

Lemma decimal_injective (a b : Z) : 0 <= a -> 0 <= b -> decimal a = decimal b -> a = b.
Proof.
  intros Ha Hb E. destruct (decimal_numeral a Ha) as [_ Va].
  destruct (decimal_numeral b Hb) as [_ Vb]. congruence.
Qed.

Lemma idsFrom_range (start : Z) (n : nat) (x : Z) :
  In x (idsFrom start n) -> start <= x < start + Z.of_nat n.
Proof.
  revert start. induction n as [|n IH]; intros start; cbn [idsFrom In]; [tauto|].
  intros [<-|H]; [lia|]. apply IH in H. lia.
Qed.

Lemma idsFrom_NoDup (start : Z) (n : nat) : NoDup (idsFrom start n).
Proof.
  revert start. induction n as [|n IH]; intros start; cbn [idsFrom]; constructor.
  - intros H. apply idsFrom_range in H. lia.
  - apply IH.
Qed.

Lemma NoDup_map_in {A B} (f : A -> B) (l : list A) :
  (forall a b, In a l -> In b l -> f a = f b -> a = b) ->
  NoDup l -> NoDup (map f l).
Proof.
  intros Hinj Hnd. induction Hnd as [|x l Hx Hnd IH]; cbn [map]; constructor.
  - intros H. apply in_map_iff in H. destruct H as (y & E & Hy).
    apply Hx. rewrite <- (Hinj y x); [exact Hy|now right|now left|exact E].
  - apply IH. intros a b Ha Hb. apply Hinj; now right.
Qed.

(** The ids of a table's events.  [getEventIds] gives one id per event;
    for the events of an HTML table these are the numerals [1], [2], ...
    in row order, so no two of them are equal. *)
Theorem getEventIds_table (html : jsstring) (events : list ShutdownEvent) :
  List.length (getEventIds events) = List.length events
  /\ getEventIds (parseHtmlTable html)
     = map decimal (idsFrom 1 (List.length (parseHtmlTable html)))
  /\ NoDup (getEventIds (parseHtmlTable html)).
Proof.
  split; [apply length_map|].
  assert (E : getEventIds (parseHtmlTable html)
              = map decimal (idsFrom 1 (List.length (parseHtmlTable html)))).
  { destruct (parseHtmlTable_events html) as (rows & _ & ->).
    rewrite length_map, length_combine, idsFrom_length, Nat.min_id.
    unfold getEventIds. rewrite map_map. cbn [rowEvent id idString].
    generalize 1. induction rows as [|cells rows IH]; intros start; [reflexivity|].
    cbn [List.length idsFrom combine map fst]. f_equal. apply IH. }
  split; [exact E|]. rewrite E.
  apply NoDup_map_in; [|apply idsFrom_NoDup].
  intros a b Ha Hb. apply idsFrom_range in Ha, Hb. apply decimal_injective; lia.
Qed.

(** ** The retry executor at its edges *)

(** ** The bot instance *)

Ltac lifecycle_cases :=
  unfold Lifecycle.consistent, Lifecycle.initializeTelegramBot,
    Lifecycle.closeTelegramBot, Lifecycle.getTelegramBot, Lifecycle.initial,
    Lifecycle.newBot;
  cbn [Lifecycle.botInstance Lifecycle.pollingEnabled Lifecycle.polling
       Lifecycle.textHandlers Lifecycle.startPolling_resolves
       Lifecycle.stopPolling_resolves Lifecycle.close_resolves fst snd app];
  repeat split; intros;
  repeat match goal with
         | H : _ = _ |- _ => progress (cbn in H)
         | b : bool |- _ => destruct b
         end;
  cbn in *; try reflexivity; try discriminate; try congruence.

(** The life cycle of the bot instance.  Whatever the library answers,
    the three functions keep [pollingEnabled] in step with the instance.
    Once [initializeTelegramBot] has succeeded, calling it again changes
    nothing, and from the initial state it leaves a polling bot with the
    three command handlers registered once.  A successful
    [closeTelegramBot] leaves no instance and no polling, and closing
    again does nothing. *)
Theorem lifecycle_consistent (lib lib' : Lifecycle.Library) (p : Lifecycle.Provider) :
  let init := Lifecycle.initializeTelegramBot in
  let closeBot := Lifecycle.closeTelegramBot in
  (Lifecycle.consistent p ->
   Lifecycle.consistent (snd (Lifecycle.getTelegramBot p))
   /\ Lifecycle.consistent (snd (init lib p))
   /\ Lifecycle.consistent (snd (closeBot lib p)))
  /\ (fst (init lib p) = Ok tt ->
      Lifecycle.pollingEnabled (snd (init lib p)) = true
      /\ init lib' (snd (init lib p)) = (Ok tt, snd (init lib p)))
  /\ (fst (init lib Lifecycle.initial) = Ok tt ->
      snd (init lib Lifecycle.initial)
      = Lifecycle.mkProvider
          (Some (Lifecycle.mkBot true [Lifecycle.Start; Lifecycle.Stop; Lifecycle.Status]))
          true)
  /\ (Lifecycle.consistent p -> fst (closeBot lib p) = Ok tt ->
      Lifecycle.botInstance (snd (closeBot lib p)) = None
      /\ Lifecycle.pollingEnabled (snd (closeBot lib p)) = false
      /\ closeBot lib' (snd (closeBot lib p)) = (Ok tt, snd (closeBot lib p))).
Proof.
  cbv zeta. destruct p as [[[pol hs]|] pe], lib as [s1 s2 s3], lib' as [s1' s2' s3'].
  all: lifecycle_cases.
Qed.

(** Initialization after a failed close.  When the bot polled and
    [closeTelegramBot] has stopped the polling but [close] has failed,
    the instance is still there with its handlers, and the next
    successful [initializeTelegramBot] registers the three command
    handlers on it again: every handler is then registered twice. *)
Theorem initialize_after_failed_close (failing working : Lifecycle.Library)
  (handlers : list Lifecycle.Command) :
  Lifecycle.stopPolling_resolves failing = true ->
  Lifecycle.close_resolves failing = false ->
  Lifecycle.startPolling_resolves working = true ->
  let polling := Lifecycle.mkProvider (Some (Lifecycle.mkBot true handlers)) true in
  let afterClose := snd (Lifecycle.closeTelegramBot failing polling) in
  fst (Lifecycle.closeTelegramBot failing polling) = Throw TelegramError
  /\ afterClose = Lifecycle.mkProvider (Some (Lifecycle.mkBot false handlers)) false
  /\ Lifecycle.initializeTelegramBot working afterClose
     = (Ok tt,
        Lifecycle.mkProvider
          (Some (Lifecycle.mkBot true
                   (handlers ++ [Lifecycle.Start; Lifecycle.Stop; Lifecycle.Status])))
          true).
Proof.
  intros Hstop Hclose Hstart. cbv zeta.
  unfold Lifecycle.closeTelegramBot, Lifecycle.initializeTelegramBot,
    Lifecycle.getTelegramBot.
  cbn [Lifecycle.botInstance Lifecycle.pollingEnabled Lifecycle.textHandlers].
  rewrite Hstop, Hclose. cbn [negb andb fst snd Lifecycle.botInstance
                              Lifecycle.pollingEnabled Lifecycle.textHandlers].
  rewrite Hstart. repeat split.
Qed.
(** ** The JSON path, element by element *)

Lemma mapR_elementwise {A B} (f : A -> result B) (xs : list A) :
  match mapR f xs with
  | Ok ys => Forall2 (fun x y => f x = Ok y) xs ys
  | Throw t =>
      exists before x after,
        xs = before ++ x :: after
        /\ Forall (fun a => exists b, f a = Ok b) before
        /\ f x = Throw t
  end.
Proof.
  induction xs as [|x xs IH]; cbn [mapR]; [constructor|].
  unfold rbind. destruct (f x) as [y|t] eqn:E.
  - destruct (mapR f xs) as [ys|t].
    + constructor; assumption.
    + destruct IH as (before & x' & after & -> & Hb & Hx).
      exists (x :: before), x', after. split; [reflexivity|].
      split; [|exact Hx]. constructor; [eauto|exact Hb].
  - exists [], x, xs. split; [reflexivity|]. split; [constructor|exact E].
Qed.

(** The JSON path, element by element.  When the answer carries an
    array (it is one, or it is an object with a [data] array),
    [parseHoeResponse] returns exactly one event per element, in order,
    each the normalization of its element; nothing is filtered.  It
    throws exactly when the normalization of an element throws, and then
    with what the first such element threw: one bad element loses the
    whole answer.  An answer that carries no array gives no events. *)
Theorem parseHoeResponse_elementwise (data : value) :
  match elementsOf data with
  | None => parseHoeResponse data = Ok []
  | Some items =>
      match parseHoeResponse data with
      | Ok events => Forall2 (fun raw e => normalizeEvent raw = Ok e) items events
      | Throw t =>
          exists before raw after,
            items = before ++ raw :: after
            /\ Forall (fun r => exists e, normalizeEvent r = Ok e) before
            /\ normalizeEvent raw = Throw t
      end
  end.
Proof.
  unfold elementsOf, parseHoeResponse.
  destruct (asArray data) as [items|] eqn:A; [apply mapR_elementwise|].
  destruct (toBoolean data && typeofObject data) eqn:B; [|reflexivity].
  destruct data as [| |b|r|s|items|props];
    cbn [typeofObject asArray] in A, B; rewrite ?andb_false_r in B; try discriminate.
  unfold propOf. cbn [getProp rbind].
  destruct (asArray _) as [items|]; [apply mapR_elementwise|].
  now destruct (isTrue _ && _).
Qed.

(** ** A chat that subscribes between two changes *)

Lemma onStart_keeps (chatId : Z) (w : World) :
  sameEnvironment w (snd (onStart chatId w))
  /\ lastMessageHash (currentState (snd (onStart chatId w)))
     = lastMessageHash (currentState w).
Proof.
  rewrite onStart_run. cbn [snd].
  destruct (includesId _ _); [|destruct (diskWritable w)];
    rewrite ?currentState_answered, ?currentState_stored;
    (split; [unfold sameEnvironment, answered; cbn; auto 10|reflexivity]).
Qed.

(** A new subscriber waits for the next change.  When the stored hash is
    that of the current upstream content and the disk takes the write, a
    chat that sends [/start] is subscribed and answered, and that answer
    is the only call made: the scheduled checks that follow, however
    many, send nothing as long as the upstream answers the same, so the
    current message does not reach the new subscriber. *)
Theorem new_subscriber_waits (chatId : Z) (w : World) (st : Z) (body : jsstring)
  (evs : list ShutdownEvent) :
  (forall n, upstream w n = Response true st body) ->
  interpretText (runtime w) body = Ok evs ->
  1 <= RETRY_ATTEMPTS (config w) ->
  diskWritable w = true ->
  lastMessageHash (currentState w)
  = Some (createContentHash (formatShutdownMessage (runtime w) evs)) ->
  let w1 := snd (onStart chatId w) in
  In chatId (subscribers (currentState w1))
  /\ forall n,
       fst (scheduledChecks n w1) = Ok tt
       /\ exists reply ok,
            outbox (snd (scheduledChecks n w1))
            = outbox w ++ [mkDelivery chatId reply ok]
            /\ (reply = Reply.subscribed \/ reply = Reply.alreadySubscribed).
Proof.
  intros Hup Hint Hn Hd Hst. cbv zeta.
  split; [now apply onStart_subscribed|].
  destruct (onStart_keeps chatId w) as ((Hrt & Hcfg & _ & Hu & _) & Hhash).
  assert (Hout : exists reply ok,
             outbox (snd (onStart chatId w)) = outbox w ++ [mkDelivery chatId reply ok]
             /\ (reply = Reply.subscribed \/ reply = Reply.alreadySubscribed)).
  { rewrite onStart_run, Hd. cbn [snd].
    destruct (includesId _ _); unfold answered; cbn [outbox setOutbox setStateFile telegram];
      do 2 eexists; (split; [reflexivity|]); [right|left]; reflexivity. }
  intros n.
  destruct (scheduledChecks_quiet w st body evs Hint Hn n (snd (onStart chatId w)))
    as (v' & Hrun & A & _).
  - intros k. rewrite Hu. apply Hup.
  - exact Hrt.
  - exact Hcfg.
  - now rewrite Hhash.
  - rewrite Hrun. cbn [fst snd]. split; [reflexivity|]. now rewrite A.
Qed.
(** ** The further properties at the sample data *)


(** A 503, a network failure, then the table: three requests, two
    delays, the two events of the table; and three failures in a row end
    with the last one. *)
Example fetchShutdownEvents_samples :
  (let run := fetchShutdownEvents Scenario.recovering in
   fst run = Ok (parseHtmlTable Sample.html)
   /\ requests (snd run) = 3%nat
   /\ clock (snd run) = clock Scenario.recovering + 2 * 5000)
  /\ attemptAt Scenario.recovering 0 = Throw (AppError (js "HOE API returned status 503"))
  /\ (let run := fetchShutdownEvents Sample.offline in
      fst run = Throw (ThrownError Sample.fetchFailed)
      /\ requests (snd run) = 3%nat
      /\ clock (snd run) = clock Sample.offline + 2 * 5000).
Proof. vm_compute. repeat split; reflexivity. Qed.

Lemma sendTelegramMessage_outcome_sample :
  let c := 42 in
  let made := callsTo c (outbox Sample.firstRun) in
  let run := sendTelegramMessage (js "hello") (Some 42) Sample.firstRun in
  (willAccept Sample.firstRun c = true ->
   exists k : nat,
     Z.of_nat k < 3
     /\ (forall i, (i < k)%nat -> telegram Sample.firstRun c (made + i) = false)
     /\ telegram Sample.firstRun c (made + k) = true
     /\ fst run = Ok tt
     /\ outbox (snd run)
        = outbox Sample.firstRun ++ repeat (mkDelivery c (js "hello") false) k
                                 ++ [mkDelivery c (js "hello") true]
     /\ clock (snd run) = clock Sample.firstRun + Z.of_nat k * 5000)
  /\ (willAccept Sample.firstRun c = false ->
      fst run = Throw TelegramError
      /\ outbox (snd run)
         = outbox Sample.firstRun ++ repeat (mkDelivery c (js "hello") false) (Z.to_nat 3)
      /\ clock (snd run) = clock Sample.firstRun + (3 - 1) * 5000)
  /\ sameEnvironment Sample.firstRun (snd run)
  /\ stateFile (snd run) = stateFile Sample.firstRun
  /\ requests (snd run) = requests Sample.firstRun.
Proof.
  apply (sendTelegramMessage_outcome (js "hello") (Some 42) Sample.firstRun).
  vm_compute. discriminate.
Defined.

(** Chat 42 is accepted at the second call, chat 7 never, and a send
    without a chat goes to the default chat. *)
Example sendTelegramMessage_samples :
  willAccept Sample.firstRun 42 = true
  /\ willAccept Sample.firstRun 7 = false
  /\ map (fun d => (chat d, accepted d))
         (outbox (snd (sendTelegramMessage (js "hello") None Sample.firstRun)))
     = [(1000, false); (1000, true)].
Proof. vm_compute. repeat split; reflexivity. Qed.

Lemma broadcast_counts_sample :
  let recipients :=
    allRecipients (subscribers (currentState Sample.subscribed))
                  (TELEGRAM_CHAT_ID (config Sample.subscribed)) in
  let run := sendMessageToAllSubscribers (js "hello") Sample.subscribed in
  fst run = Ok (List.length (filter (willAccept Sample.subscribed) recipients),
                List.length (filter (fun c => negb (willAccept Sample.subscribed c))
                                    recipients))
  /\ clock Sample.subscribed <= clock (snd run)
     <= clock Sample.subscribed
        + (RETRY_ATTEMPTS (config Sample.subscribed) - 1)
          * RETRY_DELAY_MS (config Sample.subscribed).
Proof.
  apply (broadcast_counts (js "hello") Sample.subscribed).
  - simpl. repeat constructor; simpl; lia.
  - vm_compute. discriminate.
  - vm_compute. discriminate.
Defined.

(** Of the recipients [7; 42; 1000] two are reached, and the broadcast
    takes the two delays of the slowest send. *)
Example broadcast_counts_values :
  filter (willAccept Sample.subscribed) [7; 42; 1000] = [42; 1000]
  /\ clock (snd (sendMessageToAllSubscribers (js "hello") Sample.subscribed))
     = clock Sample.subscribed + 2 * 5000.
Proof. vm_compute. split; reflexivity. Qed.

(** [/start] from a new chat, from a subscribed chat, and on a disk that
    refuses the write; [/stop] and [/status]. *)
Example handlers_samples :
  subscribers (currentState (snd (onStart 99 Sample.subscribed))) = [7; 42; 99]
  /\ map (fun d => (chat d, jsEq (text d) Reply.subscribed, accepted d))
         (outbox (snd (onStart 99 Sample.subscribed)))
     = [(99, true, false)]
  /\ map (fun d => (chat d, jsEq (text d) Reply.alreadySubscribed))
         (outbox (snd (onStart 42 Sample.subscribed)))
     = [(42, true)]
  /\ outbox (snd (onStart 99 Scenario.readOnly)) = []
  /\ subscribers (currentState (snd (onStop 7 Sample.subscribed))) = [42]
  /\ map (fun d => (chat d, jsEq (text d) Reply.notSubscribed))
         (outbox (snd (onStop 99 Sample.subscribed)))
     = [(99, true)]
  /\ map (fun d => (chat d, jsEq (text d) Reply.statusNotSubscribed))
         (outbox (snd (onStatus 1000 Sample.subscribed)))
     = [(1000, true)].
Proof. vm_compute. repeat split; reflexivity. Qed.

Lemma broadcast_follows_subscription_sample :
  (let w1 := snd (onStart 99 Sample.subscribed) in
   (callsTo 99 (outbox w1)
    < callsTo 99 (outbox (snd (sendMessageToAllSubscribers (js "hello") w1))))%nat)
  /\ (let w1 := snd (onStop 99 Sample.subscribed) in
      99 <> TELEGRAM_CHAT_ID (config Sample.subscribed) ->
      deliveriesTo 99 (outbox (snd (sendMessageToAllSubscribers (js "hello") w1)))
      = deliveriesTo 99 (outbox w1))
  /\ (let w1 := snd (onStop (TELEGRAM_CHAT_ID (config Sample.subscribed)) Sample.subscribed) in
      (callsTo (TELEGRAM_CHAT_ID (config Sample.subscribed)) (outbox w1)
       < callsTo (TELEGRAM_CHAT_ID (config Sample.subscribed))
                 (outbox (snd (sendMessageToAllSubscribers (js "hello") w1))))%nat).
Proof.
  apply (broadcast_follows_subscription 99 (js "hello") Sample.subscribed).
  - reflexivity.
  - vm_compute. discriminate.
Defined.

Lemma unreachable_silent : unreachable Scenario.silent.
Proof. intros c k. reflexivity. Qed.

Lemma checkAndNotify_unreachable_sample :
  exists w1 ds,
    checkAndNotify Scenario.silent = (Ok tt, w1)
    /\ outbox w1 = outbox Scenario.silent ++ ds
    /\ ds <> []
    /\ Forall (fun d => accepted d = false) ds
    /\ lastMessageHash (currentState w1)
       = Some (contentHash (Sample.checkOf Scenario.silent)).
Proof.
  apply (checkAndNotify_unreachable Scenario.silent
           (snd (checkShutdownEvents Scenario.silent))
           (Sample.checkOf Scenario.silent)).
  - apply run_returns. vm_compute. reflexivity.
  - vm_compute. discriminate.
  - reflexivity.
  - vm_compute. discriminate.
  - exact unreachable_silent.
Defined.

(** Nine calls, three for each recipient, all refused; the hash is
    stored, and the next cycle makes no call. *)
Example checkAndNotify_unreachable_values :
  let w1 := snd (checkAndNotify Scenario.silent) in
  map (fun d => (chat d, accepted d)) (outbox w1)
  = [(7, false); (7, false); (7, false); (42, false); (42, false); (42, false);
     (1000, false); (1000, false); (1000, false)]
  /\ fst (checkAndNotify w1) = Ok tt
  /\ List.length (outbox (snd (checkAndNotify w1))) = 9%nat.
Proof. vm_compute. repeat split; reflexivity. Qed.

Lemma checkAndNotify_disk_failure_sample :
  let recipients :=
    allRecipients (subscribers (currentState Scenario.readOnly))
                  (TELEGRAM_CHAT_ID (config Scenario.readOnly)) in
  exists w1 w2,
    checkAndNotify Scenario.readOnly = (Throw WriteFailed, w1)
    /\ checkAndNotify w1 = (Throw WriteFailed, w2)
    /\ stateFile w1 = stateFile Scenario.readOnly
    /\ stateFile w2 = stateFile Scenario.readOnly
    /\ (exists ok, In (mkDelivery (TELEGRAM_CHAT_ID (config Scenario.readOnly))
                                  (errorSummary (toError WriteFailed)) ok) (outbox w1))
    /\ forall c, In c recipients ->
                 (callsTo c (outbox Scenario.readOnly) < callsTo c (outbox w1))%nat
                 /\ (callsTo c (outbox w1) < callsTo c (outbox w2))%nat.
Proof.
  apply (checkAndNotify_disk_failure Scenario.readOnly 200 Sample.html
           (parseHtmlTable Sample.html)).
  - intros n. reflexivity.
  - vm_compute. reflexivity.
  - vm_compute. discriminate.
  - reflexivity.
  - vm_compute. discriminate.
Defined.

Lemma scheduledChecks_one_broadcast_sample :
  let w1 := snd (scheduledCheck Sample.subscribed) in
  lastMessageHash (currentState w1)
  = Some (createContentHash
            (formatShutdownMessage (runtime Sample.subscribed) (parseHtmlTable Sample.html)))
  /\ forall n,
       outbox (snd (scheduledChecks (S n) Sample.subscribed)) = outbox w1
       /\ stateFile (snd (scheduledChecks (S n) Sample.subscribed)) = stateFile w1.
Proof.
  apply (proj2 scheduledChecks_one_broadcast Sample.subscribed 200 Sample.html
           (parseHtmlTable Sample.html)).
  - intros n. reflexivity.
  - vm_compute. reflexivity.
  - vm_compute. discriminate.
  - reflexivity.
Defined.

(** Four firings: seven calls, all made by the first. *)
Example scheduledChecks_values :
  List.length (outbox (snd (scheduledCheck Sample.subscribed))) = 7%nat
  /\ List.length (outbox (snd (scheduledChecks 4 Sample.subscribed))) = 7%nat
  /\ requests (snd (scheduledChecks 4 Sample.subscribed)) = 4%nat
  /\ fst (scheduledChecks 4 Sample.offline) = Ok tt.
Proof. vm_compute. repeat split; reflexivity. Qed.

Lemma initialCheck_then_schedule_sample :
  let w0 := snd (initialCheck true Sample.afterFirstCycle) in
  (forall c,
      In c (allRecipients (subscribers (currentState Sample.afterFirstCycle))
                          (TELEGRAM_CHAT_ID (config Sample.afterFirstCycle))) ->
      (callsTo c (outbox Sample.afterFirstCycle) < callsTo c (outbox w0))%nat)
  /\ lastMessageHash (currentState w0)
     = Some (createContentHash
               (formatShutdownMessage (runtime Sample.afterFirstCycle)
                                      (parseHtmlTable Sample.html)))
  /\ forall n,
       outbox (snd (scheduledChecks n w0)) = outbox w0
       /\ stateFile (snd (scheduledChecks n w0)) = stateFile w0.
Proof.
  apply (proj2 (proj2 initialCheck_then_schedule) Sample.afterFirstCycle 200 Sample.html
           (parseHtmlTable Sample.html)).
  - intros n. reflexivity.
  - vm_compute. reflexivity.
  - vm_compute. discriminate.
  - reflexivity.
Defined.

(** The classification of the sample payloads. *)
Example isHtmlResponse_samples :
  isHtmlResponse Sample.html = true
  /\ isHtmlResponse (js "  <p>x</p>") = true
  /\ isHtmlResponse Sample.dataText = false
  /\ isHtmlResponse (js "{" ++ Sample.quoted "comment" ++ js ":" ++ Sample.quoted "<div>" ++ js "}")
     = true.
Proof. vm_compute. repeat split; reflexivity. Qed.

Example stripTags_samples :
  Regex.stripTags (js "<b>a</b> < b") = js "a < b"
  /\ Regex.stripTags (js "a > b <i") = js "a > b <i"
  /\ Regex.stripTags (js "x<<y>z") = js "xz"
  /\ trim (js "  a b  ") = js "a b".
Proof. vm_compute. repeat split; reflexivity. Qed.

(** Two events and one event never read the same, whatever the zones. *)
Lemma formatShutdownMessage_count_sample :
  (formatShutdownMessage Sample.utc [Sample.isoEvent; Sample.isoEvent] = PowerIsOn
   <-> [Sample.isoEvent; Sample.isoEvent] = [])
  /\ (formatShutdownMessage Sample.utc [Sample.isoEvent; Sample.isoEvent]
      = formatShutdownMessage Sample.kyivWinter [Sample.isoEvent] ->
      List.length [Sample.isoEvent; Sample.isoEvent] = List.length [Sample.isoEvent]).
Proof.
  exact (formatShutdownMessage_count Sample.utc Sample.kyivWinter
           [Sample.isoEvent; Sample.isoEvent] [Sample.isoEvent]).
Defined.

Lemma subscription_round_trip_sample :
  (~ In 99 (subscribers (currentState Sample.subscribed)) ->
   exists w1 w2,
     addSubscriber 99 Sample.subscribed = (Ok true, w1)
     /\ removeSubscriber 99 w1 = (Ok true, w2)
     /\ currentState w2 = currentState Sample.subscribed)
  /\ (In 99 (subscribers (currentState Sample.subscribed)) ->
      exists w1 w2,
        removeSubscriber 99 Sample.subscribed = (Ok true, w1)
        /\ addSubscriber 99 w1 = (Ok true, w2)
        /\ subscribers (currentState w2)
           = filter (fun id => negb (id =? 99)) (subscribers (currentState Sample.subscribed))
             ++ [99]
        /\ count_occ Z.eq_dec (subscribers (currentState w2)) 99 = 1%nat).
Proof.
  apply (proj2 (subscription_round_trip 99 Sample.subscribed)). reflexivity.
Defined.

Example subscription_samples :
  subscribers (currentState (snd (removeSubscriber 7 Sample.subscribed))) = [42]
  /\ subscribers (currentState
                    (snd (addSubscriber 7 (snd (removeSubscriber 7 Sample.subscribed)))))
     = [42; 7]
  /\ lastEventIds (currentState
                     (snd (updateLastEventIds (getEventIds (parseHtmlTable Sample.html))
                                              Sample.subscribed)))
     = [js "1"; js "2"]
  /\ subscribers (currentState
                    (snd (updateLastEventIds [js "1"] Sample.subscribed)))
     = [7; 42].
Proof. vm_compute. repeat split; reflexivity. Qed.

(** No attempts at all; and a callback that throws. *)
Example withRetry_edges_sample :
  fst (withRetry (bot_sendMessage 42 (js "hello")) 0 5000 None Sample.firstRun)
  = Throw ThrownUndefined
  /\ outbox (snd (withRetry (bot_sendMessage 42 (js "hello")) 0 5000 None Sample.firstRun))
     = []
  /\ (let run :=
        withRetry (bot_sendMessage 42 (js "hello")) 3 5000
                  (Some (fun _ _ => throw (ThrownValue (js "stop")))) Sample.firstRun in
      fst run = Throw (ThrownValue (js "stop"))
      /\ List.length (outbox (snd run)) = 1%nat
      /\ clock (snd run) = clock Sample.firstRun).
Proof. vm_compute. repeat split; reflexivity. Qed.

Lemma initialize_after_failed_close_sample :
  let polling :=
    Lifecycle.mkProvider
      (Some (Lifecycle.mkBot true [Lifecycle.Start; Lifecycle.Stop; Lifecycle.Status]))
      true in
  let afterClose := snd (Lifecycle.closeTelegramBot Scenario.closeFails polling) in
  fst (Lifecycle.closeTelegramBot Scenario.closeFails polling) = Throw TelegramError
  /\ afterClose
     = Lifecycle.mkProvider
         (Some (Lifecycle.mkBot false [Lifecycle.Start; Lifecycle.Stop; Lifecycle.Status]))
         false
  /\ Lifecycle.initializeTelegramBot Scenario.allResolve afterClose
     = (Ok tt,
        Lifecycle.mkProvider
          (Some (Lifecycle.mkBot true
                   ([Lifecycle.Start; Lifecycle.Stop; Lifecycle.Status]
                    ++ [Lifecycle.Start; Lifecycle.Stop; Lifecycle.Status])))
          true).
Proof.
  apply (initialize_after_failed_close Scenario.closeFails Scenario.allResolve
           [Lifecycle.Start; Lifecycle.Stop; Lifecycle.Status]); reflexivity.
Defined.

(** Start-up, shut-down, start-up again, the library resolving every
    call: the handlers are registered once. *)
Example lifecycle_sample :
  let up := snd (Lifecycle.initializeTelegramBot Scenario.allResolve Lifecycle.initial) in
  let down := snd (Lifecycle.closeTelegramBot Scenario.allResolve up) in
  down = Lifecycle.initial
  /\ snd (Lifecycle.initializeTelegramBot Scenario.allResolve down) = up.
Proof. split; reflexivity. Qed.

Lemma new_subscriber_waits_sample :
  let w1 := snd (onStart 99 Sample.afterFirstCycle) in
  In 99 (subscribers (currentState w1))
  /\ forall n,
       fst (scheduledChecks n w1) = Ok tt
       /\ exists reply ok,
            outbox (snd (scheduledChecks n w1))
            = outbox Sample.afterFirstCycle ++ [mkDelivery 99 reply ok]
            /\ (reply = Reply.subscribed \/ reply = Reply.alreadySubscribed).
Proof.
  apply (new_subscriber_waits 99 Sample.afterFirstCycle 200 Sample.html
           (parseHtmlTable Sample.html)).
  - intros n. vm_compute. reflexivity.
  - vm_compute. reflexivity.
  - vm_compute. discriminate.
  - vm_compute. reflexivity.
  - vm_compute. reflexivity.
Defined.

(** An array with a [null] in the middle: the element before it is
    normalized, and the answer is lost all the same. *)
Example parseHoeResponse_elementwise_sample :
  parseHoeResponse (VArray [Sample.raw; VNull; Sample.raw])
  = Throw (TypeError "Cannot read properties of null (reading 'id')")
  /\ (exists e, normalizeEvent Sample.raw = Ok e)
  /\ elementsOf (VObject [(js "data", VArray [Sample.raw])]) = Some [Sample.raw]
  /\ elementsOf (VObject [(js "success", VBool false)]) = None.
Proof.
  split; [vm_compute; reflexivity|]. split; [eexists; vm_compute; reflexivity|].
  split; vm_compute; reflexivity.
Qed.
